(** * The MergeTree part writer, its finalization protocol and TTL bookkeeping

    A shallow embedding of
      - src/Storages/MergeTree/MergedBlockOutputStream.cpp
      - src/Processors/Transforms/TTLCalcTransform.cpp
      - src/IO/WriteHelpers.cpp (the texts of a UUID and of an IPv4)
    The objects the C++ code mutates through pointers (the part, the stream,
    the column writer, the storage) live in one [World]; everything the code
    does to the storage and to the column writer is appended to a
    chronological trace of [Event]s.  A C++ exception is the [Throw] result;
    the world reached when it was thrown is kept, so that one can tell what
    had been written before.  I/O failures of the storage itself are not
    modelled: opening and writing a file always succeeds. *)

From Stdlib Require Import ZArith NArith List Bool Lia Ascii.
From stdpp Require Import base strings pretty gmap list.

Open Scope Z_scope.

(** ** Machine integers *)

(** [size_t] on the 64-bit targets the server is built for. *)
Definition size_t_modulus : N := (2 ^ 64)%N.
Definition size_t_add (a b : N) : N := ((a + b) mod size_t_modulus)%N.

(** ** Exceptions *)

Inductive ErrorCode := LOGICAL_ERROR.

Record Exception := mkException { code : ErrorCode; message : string }.

Inductive Res (A : Type) :=
| Ok (a : A)
| Throw (e : Exception).
Arguments Ok {A} a.
Arguments Throw {A} e.

(** ** TTL info (MergeTreeDataPartTTLInfo) *)

Definition time_t := Z.

(** Modelled from the spec: MergeTreeDataPartTTLInfo.h is not among the
    sources.  "a pair of (min timestamp, max timestamp) observed across
    processed rows"; a default-constructed info has observed nothing. *)
Inductive TTLInfo :=
| NoBounds
| Bounds (min max : time_t).

#[global] Instance TTLInfo_eq_dec : EqDecision TTLInfo.
Proof. solve_decision. Defined.

(** Modelled from the spec: "per rule kind (table rows, per-column,
    rows-where, group-by, move, recompression) ... keyed by the rule's
    result-column name where multiple instances of a kind may coexist".  The
    field names are the ones TTLCalcTransform.cpp reads. *)
Record TTLInfos := mkTTLInfos {
  table_ttl : TTLInfo;
  rows_where_ttl : gmap string TTLInfo;
  group_by_ttl : gmap string TTLInfo;
  columns_ttl : gmap string TTLInfo;
  moves_ttl : gmap string TTLInfo;
  recompression_ttl : gmap string TTLInfo
}.

(** [ttl_infos = {}] *)
Definition TTLInfos_default : TTLInfos :=
  mkTTLInfos NoBounds ∅ ∅ ∅ ∅ ∅.

Definition has_bounds (i : TTLInfo) : bool :=
  match i with NoBounds => false | Bounds _ _ => true end.

Definition any_bounds (m : gmap string TTLInfo) : bool :=
  existsb (λ kv, has_bounds kv.2) (map_to_list m).

(** Modelled from the spec: "ttl.txt (only if any TTL bound recorded)". *)
Definition TTLInfos_empty (t : TTLInfos) : bool :=
  negb (has_bounds (table_ttl t) || any_bounds (rows_where_ttl t)
        || any_bounds (group_by_ttl t) || any_bounds (columns_ttl t)
        || any_bounds (moves_ttl t) || any_bounds (recompression_ttl t)).

(** ** Blocks *)

Record Column := mkColumn { col_name : string; col_size : N }.

(** A block is its columns; only their names and lengths matter here. *)
Definition Block := list Column.
Definition Permutation := list N.

(** Modelled from the spec: Core/Block.cpp is not among the sources.  The
    row count of a block is the length of its columns. *)
Definition Block_rows (b : Block) : N :=
  match b with
  | [] => 0%N
  | c :: _ => col_size c
  end.

Definition sizes_match (b : Block) : bool :=
  forallb (λ c, (col_size c =? Block_rows b)%N) b.

(** Modelled from the spec: "Fails with a fatal internal-consistency error
    if the batch's row count is inconsistent across its columns." *)
Definition Block_checkNumberOfRows (b : Block) : Res unit :=
  if sizes_match b then Ok tt
  else Throw (mkException LOGICAL_ERROR "Sizes of columns doesn't match").

(** ** Checksums (MergeTreeDataPartChecksums) *)

Definition UInt128 := Z.

Record Checksum := mkChecksum { file_size : Z; file_hash : UInt128 }.

Definition Checksum_default : Checksum := mkChecksum 0 0.

(** [checksums.files], a [std::map<String, Checksum>] *)
Abbreviation Checksums := (gmap string Checksum).
Abbreviation NameSet := (gset string).

(** [checksums.addFile(name, size, hash)] *)
Definition addFile (name : string) (size : Z) (hash : UInt128)
    (cs : Checksums) : Checksums :=
  <[name := mkChecksum size hash]> cs.

(** [checksums.files[name].file_size = size; checksums.files[name].file_hash = hash]:
    [operator[]] creates a default entry when there is none, and the two
    assignments overwrite its fields. *)
Definition set_size_and_hash (name : string) (size : Z) (hash : UInt128)
    (cs : Checksums) : Checksums :=
  let entry := default Checksum_default (cs !! name) in
  let entry := mkChecksum size (file_hash entry) in
  let entry := mkChecksum (file_size entry) hash in
  <[name := entry]> cs.

(** ** Parts *)

Definition UUID := Z.
Definition UUID_Nil : UUID := 0.

Abbreviation NamesAndTypesList := (list (string * string)).
(** column name -> serialization kind *)
Abbreviation SerializationInfos := (gmap string string).
(** column name -> its substreams *)
Abbreviation ColumnsSubstreams := (list (string * list string)).
(** rows per granule *)
Abbreviation IndexGranularity := (list N).
Abbreviation PrimaryIndex := (list string).
(** a codec, as the description [getFullCodecDesc] prints *)
Definition Codec := string.

(** [IMergeTreeDataPart::MinMaxIndex]: whether it was initialized, and the
    serialized hyperrectangle side of each partition-key column. *)
Record MinMaxIndex := mkMinMaxIndex {
  initialized : bool;
  hyperrectangle : list (string * string)
}.

(** What the files written during finalization hold. *)
Inductive FileContent :=
| UUIDText (u : UUID)
| PartitionValue (value : string)
| MinMaxValues (values : string)
| SourcePartsBinary (parts : list string)
| IntText (n : Z)
| TTLInfosText (t : TTLInfos)
| SerializationInfosJSON (s : SerializationInfos)
| NamesAndTypesText (c : NamesAndTypesList)
| ColumnsSubstreamsText (c : ColumnsSubstreams)
| CodecDescText (c : Codec)
| ChecksumsText (c : Checksums).

(** The fields of [IMergeTreeDataPart] (and of its [storage]) that the two
    translation units read or assign. *)
Module DataPart.
Record t := mk {
  name : string;
  uuid : UUID;
  isProjectionPart : bool;
  storage_format_version : Z;
  storage_enable_index_granularity_compression : bool;
  partition : option string;
  minmax_idx : MinMaxIndex;
  source_parts : list string;
  projection_parts : list (string * Checksums);
  ttl_infos : TTLInfos;
  serialization_infos : SerializationInfos;
  columns : NamesAndTypesList;
  columns_substreams : ColumnsSubstreams;
  metadata_version : Z;
  rows_count : N;
  existing_rows_count : option N;
  modification_time : time_t;
  checksums : Checksums;
  bytes_on_disk : Z;
  bytes_uncompressed_on_disk : Z;
  index_granularity : IndexGranularity;
  index : option PrimaryIndex;
  default_codec : option Codec;
  columns_sizes_calculated : bool
}.

Definition set_ttl_infos (v : TTLInfos) (p : t) : t :=
  let 'mk a b c d e f g h i _ k l m n o q r s u w x y z aa := p in
  mk a b c d e f g h i v k l m n o q r s u w x y z aa.

(** [setColumns(columns, infos, metadata_version)] *)
Definition setColumns (cols : NamesAndTypesList) (infos : SerializationInfos)
    (version : Z) (p : t) : t :=
  let 'mk a b c d e f g h i j _ _ m _ o q r s u w x y z aa := p in
  mk a b c d e f g h i j infos cols m version o q r s u w x y z aa.

Definition setColumnsSubstreams (v : ColumnsSubstreams) (p : t) : t :=
  let 'mk a b c d e f g h i j k l _ n o q r s u w x y z aa := p in
  mk a b c d e f g h i j k l v n o q r s u w x y z aa.

Definition set_rows_count (v : N) (p : t) : t :=
  let 'mk a b c d e f g h i j k l m n _ q r s u w x y z aa := p in
  mk a b c d e f g h i j k l m n v q r s u w x y z aa.

Definition set_existing_rows_count (v : option N) (p : t) : t :=
  let 'mk a b c d e f g h i j k l m n o _ r s u w x y z aa := p in
  mk a b c d e f g h i j k l m n o v r s u w x y z aa.

Definition set_modification_time (v : time_t) (p : t) : t :=
  let 'mk a b c d e f g h i j k l m n o q _ s u w x y z aa := p in
  mk a b c d e f g h i j k l m n o q v s u w x y z aa.

Definition set_checksums (v : Checksums) (p : t) : t :=
  let 'mk a b c d e f g h i j k l m n o q r _ u w x y z aa := p in
  mk a b c d e f g h i j k l m n o q r v u w x y z aa.

Definition setBytesOnDisk (v : Z) (p : t) : t :=
  let 'mk a b c d e f g h i j k l m n o q r s _ w x y z aa := p in
  mk a b c d e f g h i j k l m n o q r s v w x y z aa.

Definition setBytesUncompressedOnDisk (v : Z) (p : t) : t :=
  let 'mk a b c d e f g h i j k l m n o q r s u _ x y z aa := p in
  mk a b c d e f g h i j k l m n o q r s u v x y z aa.

Definition set_index_granularity (v : IndexGranularity) (p : t) : t :=
  let 'mk a b c d e f g h i j k l m n o q r s u w _ y z aa := p in
  mk a b c d e f g h i j k l m n o q r s u w v y z aa.

Definition setIndex (v : PrimaryIndex) (p : t) : t :=
  let 'mk a b c d e f g h i j k l m n o q r s u w x _ z aa := p in
  mk a b c d e f g h i j k l m n o q r s u w x (Some v) z aa.

Definition set_default_codec (v : option Codec) (p : t) : t :=
  let 'mk a b c d e f g h i j k l m n o q r s u w x y _ aa := p in
  mk a b c d e f g h i j k l m n o q r s u w x y v aa.

(** [calculateColumnsAndSecondaryIndicesSizesOnDisk()] fills caches that
    nothing here reads; only the fact that it ran is kept. *)
Definition calculateColumnsAndSecondaryIndicesSizesOnDisk (p : t) : t :=
  let 'mk a b c d e f g h i j k l m n o q r s u w x y z _ := p in
  mk a b c d e f g h i j k l m n o q r s u w x y z true.
End DataPart.

Abbreviation Part := DataPart.t.

(** ** The storage and the column writer, seen from outside *)

(** What the stream and the commit handle do to their collaborators: calls
    on the column writer ([IMergeTreeDataPartWriter]), on the write buffers
    of the files opened with [writeFile], and on the part storage. *)
Inductive Event :=
| WriterWrite (block : Block) (permutation : option Permutation)
| WriterFillChecksums
| WriterReleaseIndexColumns
| WriterFinish (sync : bool)
| WriterCancel
| WriteFile (filename : string) (content : FileContent)
| FilePreFinalize (filename : string)
| FileFinalize (filename : string)
| FileSync (filename : string)
| FileCancel (filename : string)
| CommitTransaction
| BeginTransaction
| RemoveFile (filename : string).

(** A [std::unique_ptr<WriteBufferFromFileBase>]: the file it writes. *)
Record WrittenFile := mkWrittenFile {
  wf_name : string;
  wf_content : FileContent
}.

Abbreviation WrittenFiles := (list WrittenFile).

(** The members of [MergedBlockOutputStream] (with those of its base
    [IMergedBlockOutputStream]); [rows_count] starts at zero. *)
Record Stream := mkStream {
  columns_list : NamesAndTypesList;
  default_codec : option Codec;
  reset_columns : bool;
  metadata_snapshot_version : Z;
  new_serialization_infos : SerializationInfos;
  rows_count : N
}.

Record World := mkWorld {
  trace : list Event;
  new_part : Part;
  stream : Stream
}.

(** What the code gets back from collaborators whose code is elsewhere.  The
    column writer is opaque: what it returns may depend on everything that
    happened before, so it is a function of the trace. *)
Record Collaborators := mkCollaborators {
  (** [HashingWriteBuffer::count] and [getHash] after writing a content *)
  hashing_count : FileContent → Z;
  hashing_getHash : FileContent → UInt128;
  MERGE_TREE_DATA_MIN_FORMAT_VERSION_WITH_CUSTOM_PARTITIONING : Z;
  (** [writer->fillChecksums(checksums, checksums_to_remove)] *)
  fillChecksums : list Event → Checksums → Checksums * NameSet;
  getIndexGranularity : list Event → IndexGranularity;
  releaseIndexColumns : list Event → option PrimaryIndex;
  getColumnsSubstreams : list Event → ColumnsSubstreams;
  (** [removeEmptyColumnsFromPart(part, columns, infos, checksums)] updates
      its last three arguments and returns the files to remove *)
  removeEmptyColumnsFromPart :
    Part → NamesAndTypesList → SerializationInfos → Checksums →
    NameSet * NamesAndTypesList * SerializationInfos * Checksums;
  ColumnsSubstreams_merge :
    ColumnsSubstreams → ColumnsSubstreams → list string → ColumnsSubstreams;
  SerializationInfos_replaceData :
    SerializationInfos → SerializationInfos → SerializationInfos;
  SerializationInfos_add : Block → SerializationInfos → SerializationInfos;
  IndexGranularity_optimize : IndexGranularity → option IndexGranularity;
  getTotalSizeOnDisk : Checksums → Z;
  getTotalSizeUncompressedOnDisk : Checksums → Z;
  getTotalChecksumUInt128 : Checksums → UInt128;
  (** [time(nullptr)] *)
  time : list Event → time_t
}.

(** ** Computations that change the world and may throw *)

Definition M (A : Type) : Type := World → Res A * World.

Definition ret {A} (a : A) : M A := λ w, (Ok a, w).

Definition bind {A B} (m : M A) (k : A → M B) : M B :=
  λ w, match m w with
       | (Ok a, w') => k a w'
       | (Throw e, w') => (Throw e, w')
       end.

Notation "x <- m ;; k" := (bind m (λ x, k))
  (at level 100, m at next level, k at level 200, right associativity).
Notation "m ;;; k" := (bind m (λ _, k))
  (at level 100, k at level 200, right associativity).

Definition throw {A} (c : ErrorCode) (msg : string) : M A :=
  λ w, (Throw (mkException c msg), w).

Definition lift {A} (r : Res A) : M A := λ w, (r, w).

(** The world after some more events. *)
Definition add_events (events : list Event) (w : World) : World :=
  mkWorld (trace w ++ events) (new_part w) (stream w).

Definition emit (e : Event) : M unit :=
  λ w, (Ok tt, add_events [e] w).

Definition get_trace : M (list Event) := λ w, (Ok (trace w), w).
Definition get_part : M Part := λ w, (Ok (new_part w), w).
Definition get_stream : M Stream := λ w, (Ok (stream w), w).

Definition modify_part (f : Part → Part) : M unit :=
  λ w, (Ok tt, mkWorld (trace w) (f (new_part w)) (stream w)).

Definition modify_stream (f : Stream → Stream) : M unit :=
  λ w, (Ok tt, mkWorld (trace w) (new_part w) (f (stream w))).

Definition when (b : bool) (m : M unit) : M unit :=
  if b then m else ret tt.

(** [for (auto & x : xs) body(x);] *)
Fixpoint for_each {A} (xs : list A) (body : A → M unit) : M unit :=
  match xs with
  | [] => ret tt
  | x :: xs' => body x ;;; for_each xs' body
  end.

Definition set_new_serialization_infos (v : SerializationInfos) (s : Stream) : Stream :=
  mkStream (columns_list s) (default_codec s) (reset_columns s)
    (metadata_snapshot_version s) v (rows_count s).

Definition set_rows_count (v : N) (s : Stream) : Stream :=
  mkStream (columns_list s) (default_codec s) (reset_columns s)
    (metadata_snapshot_version s) (new_serialization_infos s) v.

(** ** File names *)

(** Modelled from the spec: the constants of IMergeTreeDataPart.h and
    SourcePartsSetForPatch are not among the sources; section 6 of the spec
    lists the "bit-exact names". *)
Definition UUID_FILE_NAME : string := "uuid.txt".
Definition PARTITION_FILE_NAME : string := "partition.dat".
Definition SourcePartsSetForPatch_FILENAME : string := "source_parts_set".
Definition SERIALIZATION_FILE_NAME : string := "serialization.json".
Definition COLUMNS_SUBSTREAMS_FILE_NAME : string := "columns_substreams.txt".
Definition METADATA_VERSION_FILE_NAME : string := "metadata_version.txt".
Definition DEFAULT_COMPRESSION_CODEC_FILE_NAME : string :=
  "default_compression_codec.txt".
Definition minmax_file_name (column : string) : string :=
  "minmax_" +:+ column +:+ ".idx".

(** ** MergedBlockOutputStream.cpp *)

Section MergedBlockOutputStream.

Context (E : Collaborators).

Definition writeImpl (block : Block) (permutation : option Permutation) : M unit :=
  lift (Block_checkNumberOfRows block) ;;;
  let rows := Block_rows block in
  if (rows =? 0)%N then ret tt
  else
    emit (WriterWrite block permutation) ;;;
    s <- get_stream ;;
    when (reset_columns s)
      (modify_stream (set_new_serialization_infos
         (SerializationInfos_add E block (new_serialization_infos s)))) ;;;
    modify_stream (λ s, set_rows_count (size_t_add (rows_count s) rows) s).

(** If data is pre-sorted. *)
Definition write (block : Block) : M unit :=
  writeImpl block None.

Definition writeWithPermutation (block : Block)
    (permutation : option Permutation) : M unit :=
  writeImpl block permutation.

(** [if (writer) writer->cancel();] the constructor always creates the writer *)
Definition cancel : M unit :=
  emit WriterCancel.

(** *** The commit handle *)

(** [Finalizer::Impl]; its [writer] and [part] members refer to the writer
    and the part of the world. *)
Record Impl := mkImpl {
  files_to_remove_after_finish : NameSet;
  written_files : WrittenFiles;
  sync : bool
}.

(** [Finalizer]: a [std::unique_ptr<Impl>] *)
Record Finalizer := mkFinalizer { impl : option Impl }.

Definition Impl_finish (i : Impl) : M unit :=
  emit (WriterFinish (sync i)) ;;;
  for_each (written_files i) (λ file,
    emit (FileFinalize (wf_name file)) ;;;
    when (sync i) (emit (FileSync (wf_name file)))) ;;;
  when (negb (bool_decide (files_to_remove_after_finish i = ∅)))
    (emit CommitTransaction ;;;
     emit BeginTransaction) ;;;
  for_each (elements (files_to_remove_after_finish i)) (λ file_name,
    emit (RemoveFile file_name)).

Definition Impl_cancel (i : Impl) : M unit :=
  emit WriterCancel ;;;
  for_each (written_files i) (λ file,
    emit (FileCancel (wf_name file))).

(** The handle after the call, and what the call does.  The handle is
    emptied before the work starts, so it stays empty when the work throws. *)
Definition Finalizer_finish (h : Finalizer) : Finalizer * M unit :=
  let to_finish := impl h in
  (mkFinalizer None,
   match to_finish with
   | Some i => Impl_finish i
   | None => ret tt
   end).

Definition Finalizer_cancel (h : Finalizer) : Finalizer * M unit :=
  let to_cancel := impl h in
  (mkFinalizer None,
   match to_cancel with
   | Some i => Impl_cancel i
   | None => ret tt
   end).

(** [~Finalizer()] *)
Definition Finalizer_destroy (h : Finalizer) : M unit :=
  match impl h with
  | Some _ => (Finalizer_cancel h).2
  | None => ret tt
  end.

(** *** Writing the auxiliary files *)

Definition write_hashed_file (filename : string) (content : FileContent)
    (l : Checksums * WrittenFiles) : M (Checksums * WrittenFiles) :=
  emit (WriteFile filename content) ;;;
  let checksums :=
    set_size_and_hash filename (hashing_count E content)
      (hashing_getHash E content) l.1 in
  emit (FilePreFinalize filename) ;;;
  ret (checksums, l.2 ++ [mkWrittenFile filename content]).

Definition write_plain_file (filename : string) (content : FileContent)
    (l : Checksums * WrittenFiles) : M (Checksums * WrittenFiles) :=
  emit (WriteFile filename content) ;;;
  emit (FilePreFinalize filename) ;;;
  ret (l.1, l.2 ++ [mkWrittenFile filename content]).

(** Modelled from the spec: MergeTreePartition::store is not among the
    sources.  "partition.dat (when custom partitioning is enabled)", a hashed
    file; a table without partition key has no value to store and gets no
    file. *)
Definition partition_store (p : Part) (checksums : Checksums)
    : M (option WrittenFile * Checksums) :=
  match DataPart.partition p with
  | None => ret (None, checksums)
  | Some value =>
      let content := PartitionValue value in
      emit (WriteFile PARTITION_FILE_NAME content) ;;;
      emit (FilePreFinalize PARTITION_FILE_NAME) ;;;
      ret (Some (mkWrittenFile PARTITION_FILE_NAME content),
           set_size_and_hash PARTITION_FILE_NAME (hashing_count E content)
             (hashing_getHash E content) checksums)
  end.

(** Modelled from the spec: MinMaxIndex::store is not among the sources.
    "minmax_<col>.idx (one per partition-key column, only if min-max index
    initialized)", each a hashed file. *)
Fixpoint minmax_idx_store (sides : list (string * string))
    (checksums : Checksums) : M (WrittenFiles * Checksums) :=
  match sides with
  | [] => ret ([], checksums)
  | (column, values) :: sides' =>
      let filename := minmax_file_name column in
      let content := MinMaxValues values in
      emit (WriteFile filename content) ;;;
      emit (FilePreFinalize filename) ;;;
      r <- minmax_idx_store sides'
             (set_size_and_hash filename (hashing_count E content)
                (hashing_getHash E content) checksums) ;;
      ret (mkWrittenFile filename content :: r.1, r.2)
  end.

(** The block of [finalizePartOnDisk] under
    [if (!new_part->isProjectionPart())]: the files a projection part does
    not have. *)
Definition finalizePartOnDisk_non_projection (l : Checksums * WrittenFiles)
    : M (Checksums * WrittenFiles) :=
  s <- get_stream ;;
  p <- get_part ;;
  l <- (if negb (bool_decide (DataPart.uuid p = UUID_Nil)) then
          write_hashed_file UUID_FILE_NAME (UUIDText (DataPart.uuid p)) l
        else ret l) ;;
  if (DataPart.storage_format_version p
      >=? MERGE_TREE_DATA_MIN_FORMAT_VERSION_WITH_CUSTOM_PARTITIONING E)
  then
    r <- partition_store p l.1 ;;
    let l := match r.1 with
             | Some file => (r.2, l.2 ++ [file])
             | None => (r.2, l.2)
             end in
    l <- (if initialized (DataPart.minmax_idx p) then
            r <- minmax_idx_store (hyperrectangle (DataPart.minmax_idx p)) l.1 ;;
            ret (r.2, l.2 ++ r.1)
          else if negb (rows_count s =? 0)%N then
            throw LOGICAL_ERROR
              ("MinMax index was not initialized for new non-empty part "
               +:+ DataPart.name p)
          else ret l) ;;
    if negb (bool_decide (DataPart.source_parts p = [])) then
      write_hashed_file SourcePartsSetForPatch_FILENAME
        (SourcePartsBinary (DataPart.source_parts p)) l
    else ret l
  else ret l.

Definition finalizePartOnDisk (checksums : Checksums)
    (additional_columns_substreams : option ColumnsSubstreams)
    : M (Checksums * WrittenFiles) :=
  s <- get_stream ;;
  p <- get_part ;;
  let l : Checksums * WrittenFiles := (checksums, []) in
  l <- (if negb (DataPart.isProjectionPart p) then
          finalizePartOnDisk_non_projection l
        else ret l) ;;
  l <- write_hashed_file "count.txt" (IntText (Z.of_N (rows_count s))) l ;;
  l <- (if negb (TTLInfos_empty (DataPart.ttl_infos p)) then
          write_hashed_file "ttl.txt" (TTLInfosText (DataPart.ttl_infos p)) l
        else ret l) ;;
  l <- (if negb (bool_decide (DataPart.serialization_infos p = ∅)) then
          write_hashed_file SERIALIZATION_FILE_NAME
            (SerializationInfosJSON (DataPart.serialization_infos p)) l
        else ret l) ;;
  l <- write_plain_file "columns.txt" (NamesAndTypesText (DataPart.columns p)) l ;;
  (* Merge columns substreams from current writer and additional columns
     substreams from other writers. *)
  t <- get_trace ;;
  let columns_substreams :=
    ColumnsSubstreams_merge E (getColumnsSubstreams E t)
      (default [] additional_columns_substreams)
      (map fst (DataPart.columns p)) in
  l <- (if negb (bool_decide (columns_substreams = [])) then
          l <- write_plain_file COLUMNS_SUBSTREAMS_FILE_NAME
                 (ColumnsSubstreamsText columns_substreams) l ;;
          modify_part (DataPart.setColumnsSubstreams columns_substreams) ;;;
          ret l
        else ret l) ;;
  l <- write_plain_file METADATA_VERSION_FILE_NAME
         (IntText (DataPart.metadata_version p)) l ;;
  l <- match default_codec s with
       | Some codec =>
           write_plain_file DEFAULT_COMPRESSION_CODEC_FILE_NAME
             (CodecDescText codec) l
       | None =>
           throw LOGICAL_ERROR
             ("Compression codec have to be specified for part on disk, empty for "
              +:+ DataPart.name p)
       end ;;
  l <- write_plain_file "checksums.txt" (ChecksumsText l.1) l ;;
  ret l.

(** *** Finalization *)

(** [for (name : checksums_to_remove) checksums.files.erase(name);] *)
Definition erase_all (names : NameSet) (checksums : Checksums) : Checksums :=
  fold_left (λ cs name, delete name cs) (elements names) checksums.

(** One [addFile] per projection part, named [<projection>.proj]. *)
Definition add_projections (projections : list (string * Checksums))
    (checksums : Checksums) : Checksums :=
  fold_left
    (λ cs projection,
       addFile (projection.1 +:+ ".proj")
         (getTotalSizeOnDisk E projection.2)
         (getTotalChecksumUInt128 E projection.2) cs)
    projections checksums.

Definition finalizePartAsync (sync : bool)
    (total_columns_list : option NamesAndTypesList)
    (additional_column_checksums : option Checksums)
    (additional_columns_substreams : option ColumnsSubstreams)
    : M Finalizer :=
  (* Finish write and get checksums. *)
  let checksums : Checksums := default ∅ additional_column_checksums in
  (* Finish columns serialization. *)
  t <- get_trace ;;
  emit WriterFillChecksums ;;;
  let filled := fillChecksums E t checksums in
  let checksums := erase_all filled.2 filled.1 in
  p <- get_part ;;
  let checksums := add_projections (DataPart.projection_parts p) checksums in
  s <- get_stream ;;
  r <- (if reset_columns s then
          let part_columns := default (columns_list s) total_columns_list in
          let serialization_infos :=
            SerializationInfos_replaceData E (DataPart.serialization_infos p)
              (new_serialization_infos s) in
          let '(files, part_columns, serialization_infos, checksums) :=
            removeEmptyColumnsFromPart E p part_columns serialization_infos
              checksums in
          modify_part (DataPart.setColumns part_columns serialization_infos
                         (metadata_snapshot_version s)) ;;;
          ret (files, checksums)
        else ret (∅, checksums)) ;;
  let files_to_remove_after_sync : NameSet := r.1 in
  l <- finalizePartOnDisk r.2 additional_columns_substreams ;;
  let checksums := l.1 in
  let written_files := l.2 in
  modify_part (DataPart.set_rows_count (rows_count s)) ;;;
  t <- get_trace ;;
  modify_part (DataPart.set_modification_time (time E t)) ;;;
  modify_part (DataPart.set_checksums checksums) ;;;
  modify_part (DataPart.setBytesOnDisk (getTotalSizeOnDisk E checksums)) ;;;
  modify_part (DataPart.setBytesUncompressedOnDisk
                 (getTotalSizeUncompressedOnDisk E checksums)) ;;;
  modify_part (DataPart.set_index_granularity (getIndexGranularity E t)) ;;;
  modify_part DataPart.calculateColumnsAndSecondaryIndicesSizesOnDisk ;;;
  p <- get_part ;;
  when (DataPart.storage_enable_index_granularity_compression p)
    (match IndexGranularity_optimize E (DataPart.index_granularity p) with
     | Some new_index_granularity =>
         modify_part (DataPart.set_index_granularity new_index_granularity)
     | None => ret tt
     end) ;;;
  (* It's important to set index after index granularity. *)
  emit WriterReleaseIndexColumns ;;;
  match releaseIndexColumns E t with
  | Some computed_index => modify_part (DataPart.setIndex computed_index)
  | None => ret tt
  end ;;;
  p <- get_part ;;
  when (bool_decide (DataPart.existing_rows_count p = None))
    (modify_part (DataPart.set_existing_rows_count (Some (rows_count s)))) ;;;
  match default_codec s with
  | Some codec => modify_part (DataPart.set_default_codec (Some codec))
  | None => ret tt
  end ;;;
  ret (mkFinalizer (Some (mkImpl files_to_remove_after_sync written_files sync))).

(** Runs [m], then [cleanup] whether [m] returned or threw: the destructor
    of a temporary at the end of the full expression. *)
Definition finally {A} (m : M A) (cleanup : M unit) : M A :=
  λ w, match m w with
       | (r, w') => (r, (cleanup w').2)
       end.

(** [finalizePartAsync(...).finish();] the temporary handle is destroyed
    when the statement ends. *)
Definition finalizePart (sync : bool)
    (total_columns_list : option NamesAndTypesList)
    (additional_column_checksums : option Checksums)
    (additional_columns_substreams : option ColumnsSubstreams)
    : M unit :=
  h <- finalizePartAsync sync total_columns_list additional_column_checksums
         additional_columns_substreams ;;
  let finished := Finalizer_finish h in
  finally finished.2 (Finalizer_destroy finished.1).

(** The synchronous finalization as the documentation describes it: call
    [finalizePartAsync] with the same arguments and invoke [finish] on the
    handle it returns. *)
Definition finalizePart_described (sync : bool)
    (total_columns_list : option NamesAndTypesList)
    (additional_column_checksums : option Checksums)
    (additional_columns_substreams : option ColumnsSubstreams)
    : M unit :=
  h <- finalizePartAsync sync total_columns_list additional_column_checksums
         additional_columns_substreams ;;
  (Finalizer_finish h).2.

End MergedBlockOutputStream.

(** ** TTLCalcTransform.cpp *)

(** [ITTLAlgorithm]: the two virtual methods the transform calls.
    [execute] takes the block by reference and may change it and the
    algorithm; [finalize] is [const] and is handed the part. *)
Class ITTLAlgorithm (A : Type) := {
  execute : Block → A → Block * A;
  finalize : A → Part → Part
}.

Section TTLCalcTransform.

Context {A : Type} `{ITTLAlgorithm A}.

(** [for (const auto & algorithm : algorithms) algorithm->execute(block);]
    each algorithm is handed the block as the ones before it left it. *)
Fixpoint execute_all (algorithms : list A) (block : Block) : list A * Block :=
  match algorithms with
  | [] => ([], block)
  | algorithm :: rest =>
      let executed := execute block algorithm in
      let others := execute_all rest executed.1 in
      (executed.2 :: others.1, others.2)
  end.

(** [consume]: the algorithms and the block after every algorithm has seen
    the chunk.  Unless that block is empty, the chunk set ready for the
    output port is made of its columns named in the header; the port is not
    part of this model. *)
Definition TTLCalcTransform_consume (chunk : Block) (algorithms : list A)
    : list A * Block :=
  execute_all algorithms chunk.

(** [generate]: the same, starting from an empty block. *)
Definition TTLCalcTransform_generate (algorithms : list A)
    : list A * Block :=
  execute_all algorithms [].

Definition TTLCalcTransform_finalize (algorithms : list A) (data_part : Part)
    : Part :=
  let data_part := DataPart.set_ttl_infos TTLInfos_default data_part in
  fold_left (λ part algorithm, finalize algorithm part) algorithms data_part.

(** Modelled from the spec: IAccumulatingTransform is not among the sources.
    "Idle -> Accumulating -> Finalized": the pipeline consumes every batch,
    generates once when the input ends, and [prepare] finalizes when the
    transform has finished. *)
Definition TTLCalcTransform_run (algorithms : list A) (chunks : list Block)
    (data_part : Part) : Part :=
  let algorithms :=
    fold_left (λ algs chunk, (TTLCalcTransform_consume chunk algs).1)
      chunks algorithms in
  let algorithms := (TTLCalcTransform_generate algorithms).1 in
  TTLCalcTransform_finalize algorithms data_part.

End TTLCalcTransform.

(** *** [prepare] *)

(** [IProcessor::Status] is declared outside these files; [prepare] only
    compares a status with [Status::Finished]. *)
Section Prepare.

Context {A : Type} `{ITTLAlgorithm A}.
Context {Status : Type} `{EqDecision Status} (Finished : Status).

(** [prepare]: [status] is what [IAccumulatingTransform::prepare] answered. *)
Definition TTLCalcTransform_prepare (status : Status) (algorithms : list A)
    (data_part : Part) : Status * Part :=
  (status,
   if bool_decide (status = Finished)
   then TTLCalcTransform_finalize algorithms data_part
   else data_part).

(** The part after the scheduler has called [prepare] once for each of the
    answers of [IAccumulatingTransform::prepare]. *)
Definition prepare_all (statuses : list Status) (algorithms : list A)
    (data_part : Part) : Part :=
  fold_left
    (λ part status, (TTLCalcTransform_prepare status algorithms part).2)
    statuses data_part.

End Prepare.

(** *** The rule algorithm the transform creates *)

Inductive TTLUpdateField :=
| COLUMNS_TTL
| TABLE_TTL
| ROWS_WHERE_TTL
| MOVES_TTL
| RECOMPRESSION_TTL
| GROUP_BY_TTL.

#[global] Instance TTLUpdateField_eq_dec : EqDecision TTLUpdateField.
Proof. solve_decision. Defined.

(** A rule: its expressions are evaluated elsewhere, only the name of the
    result column is used here. *)
Record TTLDescription := mkTTLDescription { result_column : string }.

(** What [metadata_snapshot] answers. *)
Record StorageMetadata := mkStorageMetadata {
  getRowsTTL : option TTLDescription;
  getRowsWhereTTLs : list TTLDescription;
  getGroupByTTLs : list TTLDescription;
  getColumnTTLs : list (string * TTLDescription);
  getMoveTTLs : list TTLDescription;
  getRecompressionTTLs : list TTLDescription
}.

Definition hasAnyColumnTTL (m : StorageMetadata) : bool :=
  negb (bool_decide (getColumnTTLs m = [])).

Record TTLUpdateInfoAlgorithm := mkTTLUpdateInfoAlgorithm {
  description : TTLDescription;
  ttl_update_field : TTLUpdateField;
  ttl_update_key : string;
  old_ttl_info : TTLInfo;
  current_time : time_t;
  force : bool;
  new_ttl_info : TTLInfo
}.

(** Modelled from the spec: TTLUpdateInfoAlgorithm.cpp is not among the
    sources.  The running bounds are "seeded from the part's pre-existing TTL
    info unless a force flag requests a clean recomputation". *)
Definition TTLUpdateInfoAlgorithm_new (description : TTLDescription)
    (field : TTLUpdateField) (key : string) (old_ttl_info : TTLInfo)
    (current_time : time_t) (force : bool) : TTLUpdateInfoAlgorithm :=
  mkTTLUpdateInfoAlgorithm description field key old_ttl_info current_time
    force (if force then NoBounds else old_ttl_info).

(** Modelled from the spec: "updates its running min/max observed
    timestamp". *)
Definition TTLInfo_update (t : time_t) (info : TTLInfo) : TTLInfo :=
  match info with
  | NoBounds => Bounds t t
  | Bounds lo hi => Bounds (Z.min lo t) (Z.max hi t)
  end.

(** The bounds after the rows of one batch: each row comes with the
    timestamp of the rule's expression and the rule's condition flag. *)
Definition observe (rows : list (time_t * bool)) (info : TTLInfo) : TTLInfo :=
  fold_left
    (λ info (row : time_t * bool),
       if row.2 then TTLInfo_update row.1 info else info)
    rows info.

(** [old_ttl_infos.rows_where_ttl[key]] and the like, on the constructor's
    own copy of the infos: a key that is missing reads as a
    default-constructed info. *)
Definition subscript (m : gmap string TTLInfo) (key : string) : TTLInfo :=
  default NoBounds (m !! key).

Section TTLUpdateInfoAlgorithm.

(** "each rule evaluates its precomputed expression column(s) (supplied
    externally) and rows-matching-condition flags": for every row of the
    block, the timestamp and whether the row matches the rule. *)
Context (evaluate : TTLDescription → Block → list (time_t * bool)).

(** Modelled from the spec: TTLUpdateInfoAlgorithm::execute is not among the
    sources.  An empty block (the end of the stream) has no row. *)
Definition TTLUpdateInfoAlgorithm_execute (block : Block)
    (a : TTLUpdateInfoAlgorithm) : TTLUpdateInfoAlgorithm :=
  if bool_decide (block = []) then a
  else
    mkTTLUpdateInfoAlgorithm (description a) (ttl_update_field a)
      (ttl_update_key a) (old_ttl_info a) (current_time a) (force a)
      (observe (evaluate (description a) block) (new_ttl_info a)).

(** Modelled from the spec: TTLUpdateInfoAlgorithm::finalize is not among
    the sources.  It "persists the final per-rule bounds into the part's TTL
    info structure", under the rule's kind and key. *)
Definition TTLUpdateInfoAlgorithm_finalize (a : TTLUpdateInfoAlgorithm)
    (data_part : Part) : Part :=
  let t := DataPart.ttl_infos data_part in
  let key := ttl_update_key a in
  let info := new_ttl_info a in
  DataPart.set_ttl_infos
    match ttl_update_field a with
    | TABLE_TTL =>
        mkTTLInfos info (rows_where_ttl t) (group_by_ttl t) (columns_ttl t)
          (moves_ttl t) (recompression_ttl t)
    | ROWS_WHERE_TTL =>
        mkTTLInfos (table_ttl t) (<[key := info]> (rows_where_ttl t))
          (group_by_ttl t) (columns_ttl t) (moves_ttl t) (recompression_ttl t)
    | GROUP_BY_TTL =>
        mkTTLInfos (table_ttl t) (rows_where_ttl t)
          (<[key := info]> (group_by_ttl t)) (columns_ttl t) (moves_ttl t)
          (recompression_ttl t)
    | COLUMNS_TTL =>
        mkTTLInfos (table_ttl t) (rows_where_ttl t) (group_by_ttl t)
          (<[key := info]> (columns_ttl t)) (moves_ttl t) (recompression_ttl t)
    | MOVES_TTL =>
        mkTTLInfos (table_ttl t) (rows_where_ttl t) (group_by_ttl t)
          (columns_ttl t) (<[key := info]> (moves_ttl t)) (recompression_ttl t)
    | RECOMPRESSION_TTL =>
        mkTTLInfos (table_ttl t) (rows_where_ttl t) (group_by_ttl t)
          (columns_ttl t) (moves_ttl t) (<[key := info]> (recompression_ttl t))
    end
    data_part.

(** The block is left as it was: the algorithm only reads it. *)
#[local] Instance TTLUpdateInfoAlgorithm_ITTLAlgorithm
    : ITTLAlgorithm TTLUpdateInfoAlgorithm := {
  execute block a := (block, TTLUpdateInfoAlgorithm_execute block a);
  finalize := TTLUpdateInfoAlgorithm_finalize
}.

(** The constructor of [TTLCalcTransform]: one algorithm per rule of the
    metadata, each given the bounds the part recorded for it. *)
Definition TTLCalcTransform_new (metadata_snapshot : StorageMetadata)
    (data_part : Part) (current_time : time_t) (force : bool)
    : list TTLUpdateInfoAlgorithm :=
  let old_ttl_infos := DataPart.ttl_infos data_part in
  let algorithms :=
    match getRowsTTL metadata_snapshot with
    | Some rows_ttl =>
        [TTLUpdateInfoAlgorithm_new rows_ttl TABLE_TTL (result_column rows_ttl)
           (table_ttl old_ttl_infos) current_time force]
    | None => []
    end in
  let algorithms := algorithms ++
    map (λ where_ttl,
           TTLUpdateInfoAlgorithm_new where_ttl ROWS_WHERE_TTL
             (result_column where_ttl)
             (subscript (rows_where_ttl old_ttl_infos) (result_column where_ttl))
             current_time force)
      (getRowsWhereTTLs metadata_snapshot) in
  let algorithms := algorithms ++
    map (λ group_ttl,
           TTLUpdateInfoAlgorithm_new group_ttl GROUP_BY_TTL
             (result_column group_ttl)
             (subscript (group_by_ttl old_ttl_infos) (result_column group_ttl))
             current_time force)
      (getGroupByTTLs metadata_snapshot) in
  let algorithms := algorithms ++
    (if hasAnyColumnTTL metadata_snapshot then
       map (λ column_ttl : string * TTLDescription,
              TTLUpdateInfoAlgorithm_new column_ttl.2 COLUMNS_TTL column_ttl.1
                (subscript (columns_ttl old_ttl_infos) column_ttl.1)
                current_time force)
         (getColumnTTLs metadata_snapshot)
     else []) in
  let algorithms := algorithms ++
    map (λ move_ttl,
           TTLUpdateInfoAlgorithm_new move_ttl MOVES_TTL (result_column move_ttl)
             (subscript (moves_ttl old_ttl_infos) (result_column move_ttl))
             current_time force)
      (getMoveTTLs metadata_snapshot) in
  algorithms ++
    map (λ recompress_ttl,
           TTLUpdateInfoAlgorithm_new recompress_ttl RECOMPRESSION_TTL
             (result_column recompress_ttl)
             (subscript (recompression_ttl old_ttl_infos)
                (result_column recompress_ttl))
             current_time force)
      (getRecompressionTTLs metadata_snapshot).

(** The whole life of the transform over a part. *)
Definition TTLCalcTransform_life (metadata_snapshot : StorageMetadata)
    (current_time : time_t) (force : bool) (chunks : list Block)
    (data_part : Part) : Part :=
  TTLCalcTransform_run
    (TTLCalcTransform_new metadata_snapshot data_part current_time force)
    chunks data_part.

End TTLUpdateInfoAlgorithm.

(** ** IO/WriteHelpers.cpp *)

(** A [UInt8]. *)
Abbreviation UInt8 := Byte.byte.

(** A [char] array some of whose cells were not written yet. *)
Definition CharArray := list (option ascii).

(** A pointer or iterator into the bytes of an object: what reading at an
    offset gives, nothing outside the object. *)
Definition ByteIterator := nat → option UInt8.

Definition advance (src : ByteIterator) (n : nat) : ByteIterator :=
  λ k, src (n + k)%nat.

(** [reinterpret_cast<const UInt8 *>(&object)] *)
Definition pointer_to (object : list UInt8) : ByteIterator :=
  λ k, object !! k.

(** [std::reverse_iterator<const UInt8 *>(src_ptr + size)]: offset [k] reads
    the byte [size - 1 - k]. *)
Definition reverse_iterator (object : list UInt8) : ByteIterator :=
  λ k, if decide (k < length object)%nat
       then object !! (length object - 1 - k)%nat
       else None.

(** [array[pos] = c], nothing when [pos] is outside the array. *)
Definition store (pos : nat) (c : ascii) (array : CharArray)
    : option CharArray :=
  if decide (pos < length array)%nat then Some (<[pos := Some c]> array)
  else None.

Section WriteHelpers.

(** [writeHexByteLowercase(byte, out)] of base/hex.h writes two characters
    at [out]: the ones this function gives. *)
Context (writeHexByteLowercase : UInt8 → ascii * ascii).

(** The loop of [formatHex], with [steps] iterations to go; [dst] points
    [dst_base] characters into [array]. *)
Fixpoint formatHex_loop (src : ByteIterator) (dst_base : nat) (steps : nat)
    (src_pos dst_pos : nat) (array : CharArray) : option CharArray :=
  match steps with
  | O => Some array
  | S steps' =>
      byte ← src src_pos;
      let digits := writeHexByteLowercase byte in
      array ← store (dst_base + dst_pos) digits.1 array;
      array ← store (dst_base + dst_pos + 1) digits.2 array;
      formatHex_loop src dst_base steps' (S src_pos) (dst_pos + 2) array
  end.

Definition formatHex (src : ByteIterator) (dst_base : nat) (num_bytes : nat)
    (array : CharArray) : option CharArray :=
  formatHex_loop src dst_base num_bytes 0 0 array.

(** [formatUUID]: [uuid] is the object as it lies in memory; on a
    little-endian machine it is read backwards. *)
Definition formatUUID (little_endian : bool) (uuid : list UInt8)
    : option CharArray :=
  let dst : CharArray := replicate 36 None in
  let src :=
    if little_endian then reverse_iterator uuid else pointer_to uuid in
  dst ← formatHex (advance src 8) 0 4 dst;
  dst ← store 8 "-" dst;
  dst ← formatHex (advance src 12) 9 2 dst;
  dst ← store 13 "-" dst;
  dst ← formatHex (advance src 14) 14 2 dst;
  dst ← store 18 "-" dst;
  dst ← formatHex src 19 2 dst;
  dst ← store 23 "-" dst;
  formatHex (advance src 2) 24 6 dst.

(** The two digits of each byte, in order. *)
Definition hex_digits (bytes : list UInt8) : list ascii :=
  flat_map (λ byte, [(writeHexByteLowercase byte).1;
                     (writeHexByteLowercase byte).2]) bytes.

(** The text of a UUID from its bytes, in the order [src] reads them. *)
Definition UUID_text (bytes : list UInt8) : list ascii :=
  hex_digits (take 4 (drop 8 bytes)) ++ ["-"%char]
  ++ hex_digits (take 2 (drop 12 bytes)) ++ ["-"%char]
  ++ hex_digits (take 2 (drop 14 bytes)) ++ ["-"%char]
  ++ hex_digits (take 2 bytes) ++ ["-"%char]
  ++ hex_digits (take 6 (drop 2 bytes)).

(** [one_byte_to_string_lookup_table] of Common/formatIPv6.h: an array of
    256 texts. *)
Context (one_byte_to_string_lookup_table : list string).

(** [writeIPv4Text(ip, buf)]: [ip] is a [UInt32]; what [buf] holds in the
    end, nothing when the table is read outside its bounds. *)
Definition writeIPv4Text (ip : Z) (buf : string) : option string :=
  let idx := Z.shiftr ip 24 in
  entry ← one_byte_to_string_lookup_table !! Z.to_nat idx;
  let buf := buf +:+ entry in
  let buf := buf +:+ "." in
  let idx := Z.land (Z.shiftr ip 16) 255 in
  entry ← one_byte_to_string_lookup_table !! Z.to_nat idx;
  let buf := buf +:+ entry in
  let buf := buf +:+ "." in
  let idx := Z.land (Z.shiftr ip 8) 255 in
  entry ← one_byte_to_string_lookup_table !! Z.to_nat idx;
  let buf := buf +:+ entry in
  let buf := buf +:+ "." in
  let idx := Z.land ip 255 in
  entry ← one_byte_to_string_lookup_table !! Z.to_nat idx;
  Some (buf +:+ entry).

End WriteHelpers.

(** ** Using the stream and the handle *)

Section Usage.

Context (E : Collaborators).

(** A sequence of batches handed to [write] / [writeWithPermutation]
    ([write] passes no permutation); an exception ends the sequence. *)
Definition write_all (batches : list (Block * option Permutation)) : M unit :=
  for_each batches (λ batch, writeWithPermutation E batch.1 batch.2).


(** What the owner of a handle can ask of it. *)
Inductive HandleCall :=
| CallFinish
| CallCancel.

Definition call_handle (c : HandleCall) (h : Finalizer) : Finalizer * M unit :=
  match c with
  | CallFinish => Finalizer_finish h
  | CallCancel => Finalizer_cancel h
  end.

(** The life of a handle: its owner makes the calls in order and the handle
    is destroyed in the end; a call that throws skips the calls that were to
    follow and unwinds to the destructor. *)
Fixpoint Finalizer_life (calls : list HandleCall) (h : Finalizer) : M unit :=
  match calls with
  | [] => Finalizer_destroy h
  | c :: calls' =>
      let called := call_handle c h in
      λ w, match called.2 w with
           | (Ok _, w') => Finalizer_life calls' called.1 w'
           | (Throw e, w') => (Throw e, (Finalizer_destroy called.1 w').2)
           end
  end.

(** *** What the handle does, listed *)

Definition finish_events (i : Impl) : list Event :=
  [WriterFinish (sync i)]
  ++ flat_map
       (λ file, FileFinalize (wf_name file)
                  :: (if sync i then [FileSync (wf_name file)] else []))
       (written_files i)
  ++ (if bool_decide (files_to_remove_after_finish i = ∅) then []
      else [CommitTransaction; BeginTransaction])
  ++ map RemoveFile (elements (files_to_remove_after_finish i)).

Definition cancel_events (i : Impl) : list Event :=
  WriterCancel :: map (λ file, FileCancel (wf_name file)) (written_files i).

(** *** The files of a finalization, listed *)

(** A file with the way it was written: through a [HashingWriteBuffer]
    (and recorded in the checksums) or plainly. *)
Definition hashed_file (filename : string) (content : FileContent)
    : bool * WrittenFile :=
  (true, mkWrittenFile filename content).

Definition plain_file (filename : string) (content : FileContent)
    : bool * WrittenFile :=
  (false, mkWrittenFile filename content).

Definition events_of_files (files : list (bool * WrittenFile)) : list Event :=
  flat_map
    (λ f, [WriteFile (wf_name f.2) (wf_content f.2);
           FilePreFinalize (wf_name f.2)])
    files.

Definition checksums_of_files (files : list (bool * WrittenFile))
    (checksums : Checksums) : Checksums :=
  fold_left
    (λ cs (f : bool * WrittenFile),
       if f.1 then
         set_size_and_hash (wf_name f.2) (hashing_count E (wf_content f.2))
           (hashing_getHash E (wf_content f.2)) cs
       else cs)
    files checksums.

Definition minmax_files (sides : list (string * string))
    : list (bool * WrittenFile) :=
  map (λ side, hashed_file (minmax_file_name side.1) (MinMaxValues side.2))
    sides.

(** The files of the non-projection block, and the exception that ends it
    if there is one. *)
Definition non_projection_files (s : Stream) (p : Part)
    : list (bool * WrittenFile) * option Exception :=
  let uuid_file :=
    if bool_decide (DataPart.uuid p = UUID_Nil) then []
    else [hashed_file UUID_FILE_NAME (UUIDText (DataPart.uuid p))] in
  let partition_file :=
    match DataPart.partition p with
    | Some value => [hashed_file PARTITION_FILE_NAME (PartitionValue value)]
    | None => []
    end in
  let source_file :=
    if bool_decide (DataPart.source_parts p = []) then []
    else [hashed_file SourcePartsSetForPatch_FILENAME
            (SourcePartsBinary (DataPart.source_parts p))] in
  if (DataPart.storage_format_version p
      >=? MERGE_TREE_DATA_MIN_FORMAT_VERSION_WITH_CUSTOM_PARTITIONING E)
  then
    if initialized (DataPart.minmax_idx p) then
      (uuid_file ++ partition_file
         ++ minmax_files (hyperrectangle (DataPart.minmax_idx p))
         ++ source_file, None)
    else if (rows_count s =? 0)%N then
      (uuid_file ++ partition_file ++ source_file, None)
    else
      (uuid_file ++ partition_file,
       Some (mkException LOGICAL_ERROR
               ("MinMax index was not initialized for new non-empty part "
                +:+ DataPart.name p)))
  else (uuid_file, None).

(** The two exceptions of [finalizePartOnDisk]. *)
Definition minmax_exception (p : Part) : Exception :=
  mkException LOGICAL_ERROR
    ("MinMax index was not initialized for new non-empty part "
     +:+ DataPart.name p).

Definition codec_exception (p : Part) : Exception :=
  mkException LOGICAL_ERROR
    ("Compression codec have to be specified for part on disk, empty for "
     +:+ DataPart.name p).

(** The files written before [count.txt]: none for a projection part. *)
Definition leading_files (s : Stream) (p : Part)
    : list (bool * WrittenFile) * option Exception :=
  if DataPart.isProjectionPart p then ([], None)
  else non_projection_files s p.

(** The names the non-projection block may use. *)
Definition leading_name (filename : string) : Prop :=
  filename = UUID_FILE_NAME ∨ filename = PARTITION_FILE_NAME
  ∨ filename = SourcePartsSetForPatch_FILENAME
  ∨ ∃ column, filename = minmax_file_name column.

(** The files from [count.txt] to [columns.txt]. *)
Definition counted_files (s : Stream) (p : Part) : list (bool * WrittenFile) :=
  [hashed_file "count.txt" (IntText (Z.of_N (rows_count s)))]
  ++ (if TTLInfos_empty (DataPart.ttl_infos p) then []
      else [hashed_file "ttl.txt" (TTLInfosText (DataPart.ttl_infos p))])
  ++ (if bool_decide (DataPart.serialization_infos p = ∅) then []
      else [hashed_file SERIALIZATION_FILE_NAME
              (SerializationInfosJSON (DataPart.serialization_infos p))])
  ++ [plain_file "columns.txt" (NamesAndTypesText (DataPart.columns p))].

(** Everything [finalizePartOnDisk] does, read off the stream, the part and
    the trace it starts from. *)
Definition finalizePartOnDisk_outcome (checksums : Checksums)
    (additional_columns_substreams : option ColumnsSubstreams) (w : World)
    : Res (Checksums * WrittenFiles) * World :=
  let s := stream w in
  let p := new_part w in
  let first := leading_files s p in
  match first.2 with
  | Some e => (Throw e, mkWorld (trace w ++ events_of_files first.1) p s)
  | None =>
      let files := first.1 ++ counted_files s p in
      let columns_substreams :=
        ColumnsSubstreams_merge E
          (getColumnsSubstreams E (trace w ++ events_of_files files))
          (default [] additional_columns_substreams)
          (map fst (DataPart.columns p)) in
      let files :=
        files
        ++ (if bool_decide (columns_substreams = []) then []
            else [plain_file COLUMNS_SUBSTREAMS_FILE_NAME
                    (ColumnsSubstreamsText columns_substreams)])
        ++ [plain_file METADATA_VERSION_FILE_NAME
              (IntText (DataPart.metadata_version p))] in
      let p' :=
        if bool_decide (columns_substreams = []) then p
        else DataPart.setColumnsSubstreams columns_substreams p in
      match default_codec s with
      | None =>
          (Throw (mkException LOGICAL_ERROR
                    ("Compression codec have to be specified for part on disk, empty for "
                     +:+ DataPart.name p)),
           mkWorld (trace w ++ events_of_files files) p' s)
      | Some codec =>
          let files :=
            files ++ [plain_file DEFAULT_COMPRESSION_CODEC_FILE_NAME
                        (CodecDescText codec)] in
          let checksums := checksums_of_files files checksums in
          let files :=
            files ++ [plain_file "checksums.txt" (ChecksumsText checksums)] in
          (Ok (checksums, map snd files),
           mkWorld (trace w ++ events_of_files files) p' s)
      end
  end.

(** What [finalizePartAsync] has at hand when it calls [finalizePartOnDisk]:
    the files to remove after the sync, the checksums and the part, whose
    columns were set anew when the stream resets the columns. *)
Definition finalizePartAsync_prepared
    (total_columns_list : option NamesAndTypesList)
    (additional_column_checksums : option Checksums) (w : World)
    : NameSet * Checksums * Part :=
  let p := new_part w in
  let s := stream w in
  let filled :=
    fillChecksums E (trace w) (default ∅ additional_column_checksums) in
  let checksums :=
    add_projections E (DataPart.projection_parts p)
      (erase_all filled.2 filled.1) in
  if reset_columns s then
    let '(files, part_columns, serialization_infos, checksums) :=
      removeEmptyColumnsFromPart E p
        (default (columns_list s) total_columns_list)
        (SerializationInfos_replaceData E (DataPart.serialization_infos p)
           (new_serialization_infos s))
        checksums in
    (files, checksums,
     DataPart.setColumns part_columns serialization_infos
       (metadata_snapshot_version s) p)
  else (∅, checksums, p).

(** The part after the assignments that follow [finalizePartOnDisk]. *)
Definition finalizePartAsync_assigned (s : Stream) (t : list Event)
    (checksums : Checksums) (p : Part) : Part :=
  let p := DataPart.set_rows_count (rows_count s) p in
  let p := DataPart.set_modification_time (time E t) p in
  let p := DataPart.set_checksums checksums p in
  let p := DataPart.setBytesOnDisk (getTotalSizeOnDisk E checksums) p in
  let p :=
    DataPart.setBytesUncompressedOnDisk
      (getTotalSizeUncompressedOnDisk E checksums) p in
  let p := DataPart.set_index_granularity (getIndexGranularity E t) p in
  let p := DataPart.calculateColumnsAndSecondaryIndicesSizesOnDisk p in
  let p :=
    if DataPart.storage_enable_index_granularity_compression p then
      match IndexGranularity_optimize E (DataPart.index_granularity p) with
      | Some new_index_granularity =>
          DataPart.set_index_granularity new_index_granularity p
      | None => p
      end
    else p in
  let p :=
    match releaseIndexColumns E t with
    | Some computed_index => DataPart.setIndex computed_index p
    | None => p
    end in
  let p :=
    if bool_decide (DataPart.existing_rows_count p = None) then
      DataPart.set_existing_rows_count (Some (rows_count s)) p
    else p in
  match default_codec s with
  | Some codec => DataPart.set_default_codec (Some codec) p
  | None => p
  end.

(** Everything [finalizePartAsync] does, read off the world it starts
    from. *)
Definition finalizePartAsync_outcome (sync : bool)
    (total_columns_list : option NamesAndTypesList)
    (additional_column_checksums : option Checksums)
    (additional_columns_substreams : option ColumnsSubstreams) (w : World)
    : Res Finalizer * World :=
  let prepared :=
    finalizePartAsync_prepared total_columns_list additional_column_checksums
      w in
  let w1 := mkWorld (trace w ++ [WriterFillChecksums]) prepared.2 (stream w) in
  match finalizePartOnDisk E prepared.1.2 additional_columns_substreams w1 with
  | (Throw e, w2) => (Throw e, w2)
  | (Ok l, w2) =>
      (Ok (mkFinalizer (Some (mkImpl prepared.1.1 l.2 sync))),
       mkWorld (trace w2 ++ [WriterReleaseIndexColumns])
         (finalizePartAsync_assigned (stream w) (trace w2) l.1 (new_part w2))
         (stream w2))
  end.

End Usage.

(** *** More listings *)

(** The characters of a string. *)
Local Abbreviation chars := Strings.String.list_ascii_of_string.

(** The batches the column writer is handed: those that have rows. *)
Definition batches_with_rows (batches : list (Block * option Permutation))
    : list (Block * option Permutation) :=
  filter (λ batch, Block_rows batch.1 ≠ 0%N) batches.

(** The events of opening a file and pre-finalizing its buffer. *)
Definition opening_events (file : WrittenFile) : list Event :=
  [WriteFile (wf_name file) (wf_content file); FilePreFinalize (wf_name file)].

(** The files between [columns.txt] and the codec: the substreams of the
    columns, when there are any, and the metadata version. *)
Definition middle_files (columns_substreams : ColumnsSubstreams) (p : Part)
    : list (bool * WrittenFile) :=
  (if bool_decide (columns_substreams = []) then []
   else [plain_file COLUMNS_SUBSTREAMS_FILE_NAME
           (ColumnsSubstreamsText columns_substreams)])
  ++ [plain_file METADATA_VERSION_FILE_NAME
        (IntText (DataPart.metadata_version p))].

(** The names of the files from [count.txt] on. *)
Definition later_names : list string :=
  ["count.txt"; "ttl.txt"; SERIALIZATION_FILE_NAME; "columns.txt";
   COLUMNS_SUBSTREAMS_FILE_NAME; METADATA_VERSION_FILE_NAME;
   DEFAULT_COMPRESSION_CODEC_FILE_NAME; "checksums.txt"].

(** The names of the files that are written without hashing. *)
Definition plain_names : list string :=
  ["columns.txt"; COLUMNS_SUBSTREAMS_FILE_NAME; METADATA_VERSION_FILE_NAME;
   DEFAULT_COMPRESSION_CODEC_FILE_NAME; "checksums.txt"].



(** *** Sample values *)

Definition sample_collaborators : Collaborators :=
  mkCollaborators
    (λ _, 8) (λ _, 42) 1
    (λ _ checksums, (<["data.bin" := mkChecksum 100 7]> checksums, ∅))
    (λ _, [8192%N]) (λ _, None) (λ _, [])
    (λ _ cols infos checksums, (∅, cols, infos, checksums))
    (λ own _ _, own) (λ _ new_infos, new_infos) (λ _ infos, infos)
    (λ _, None) (λ _, 108) (λ _, 400) (λ _, 7) (λ _, 1700000000).

Definition sample_part_with (minmax : MinMaxIndex) : Part :=
  DataPart.mk "all_1_1_0" UUID_Nil false 1 false (Some "2024") minmax [] []
    TTLInfos_default ∅ [("x", "UInt64")] [] 0 0%N None 0 ∅ 0 0 [] None None
    false.

Definition sample_part : Part :=
  sample_part_with (mkMinMaxIndex true [("d", "2024-01-01..2024-01-31")]).

Definition sample_stream : Stream :=
  mkStream [("x", "UInt64")] (Some "LZ4") false 0 ∅ 0%N.

Definition sample_world : World :=
  mkWorld [] sample_part sample_stream.

(** A part of a partitioned table whose min-max index was never
    initialized. *)
Definition sample_world_without_minmax : World :=
  mkWorld [] (sample_part_with (mkMinMaxIndex false [])) sample_stream.

Definition sample_block (rows : N) : Block :=
  [mkColumn "x" rows].

(** The bounds a part records for a rule of the given kind and key. *)
Definition TTLInfos_at (field : TTLUpdateField) (key : string) (t : TTLInfos)
    : TTLInfo :=
  match field with
  | TABLE_TTL => table_ttl t
  | ROWS_WHERE_TTL => subscript (rows_where_ttl t) key
  | GROUP_BY_TTL => subscript (group_by_ttl t) key
  | COLUMNS_TTL => subscript (columns_ttl t) key
  | MOVES_TTL => subscript (moves_ttl t) key
  | RECOMPRESSION_TTL => subscript (recompression_ttl t) key
  end.

(** The entry a part has for a rule of the given kind and key, if any (the
    table TTL has no key and is always there). *)
Definition TTLInfos_recorded (field : TTLUpdateField) (key : string)
    (t : TTLInfos) : option TTLInfo :=
  match field with
  | TABLE_TTL => Some (table_ttl t)
  | ROWS_WHERE_TTL => rows_where_ttl t !! key
  | GROUP_BY_TTL => group_by_ttl t !! key
  | COLUMNS_TTL => columns_ttl t !! key
  | MOVES_TTL => moves_ttl t !! key
  | RECOMPRESSION_TTL => recompression_ttl t !! key
  end.

(** Two algorithms write the same place of the TTL infos. *)
Definition same_place (a b : TTLUpdateInfoAlgorithm) : Prop :=
  ttl_update_field a = ttl_update_field b ∧
  (ttl_update_field a = TABLE_TTL ∨ ttl_update_key a = ttl_update_key b).

#[global] Instance same_place_dec a b : Decision (same_place a b).
Proof. unfold same_place. apply _. Defined.

(** The rows a rule is shown over the whole stream: those of the non-empty
    batches. *)
Definition seen_rows (evaluate : TTLDescription → Block → list (time_t * bool))
    (description : TTLDescription) (chunks : list Block)
    : list (time_t * bool) :=
  flat_map
    (λ chunk, if bool_decide (chunk = []) then [] else evaluate description chunk)
    chunks.


(** An algorithm after the whole stream. *)
Definition after_stream
    (evaluate : TTLDescription → Block → list (time_t * bool))
    (chunks : list Block) (a : TTLUpdateInfoAlgorithm)
    : TTLUpdateInfoAlgorithm :=
  mkTTLUpdateInfoAlgorithm (description a) (ttl_update_field a)
    (ttl_update_key a) (old_ttl_info a) (current_time a) (force a)
    (observe (seen_rows evaluate (description a) chunks) (new_ttl_info a)).

(** *** More sample values *)

Definition sample_batches : list (Block * option Permutation) :=
  [(sample_block 100, None); (sample_block 0, None);
   (sample_block 50, Some [1%N; 0%N])].

Definition sample_impl : Impl :=
  mkImpl {["x.bin"; "x.cmrk2"]}
    [mkWrittenFile "count.txt" (IntText 150);
     mkWrittenFile "checksums.txt" (ChecksumsText ∅)]
    true.

Definition sample_ttl_infos : TTLInfos :=
  mkTTLInfos (Bounds 10 100) ∅ ∅ {["x" := Bounds 20 30]}
    {["toDate(d) + 30" := Bounds 40 50; "dropped rule" := Bounds 1 2]} ∅.

Definition sample_metadata : StorageMetadata :=
  mkStorageMetadata (Some (mkTTLDescription "d + 7")) []
    [] [("x", mkTTLDescription "d + 1")] [mkTTLDescription "toDate(d) + 30"] [].

(** An evaluation in which each row has the timestamp 60 + its number and
    matches the rule when [matching] says so. *)
Definition sample_evaluate (matching : bool) (_ : TTLDescription)
    (block : Block) : list (time_t * bool) :=
  map (λ n, (60 + Z.of_nat n, matching)) (seq 0 (N.to_nat (Block_rows block))).

(** What a computation gave, when it returned. *)
Definition returned {A} (fallback : A) (r : Res A) : A :=
  match r with
  | Ok a => a
  | Throw _ => fallback
  end.

(** The sample world after the sample batches were written. *)
Definition sample_written : World :=
  (write_all sample_collaborators sample_batches sample_world).2.

(** What [finalizePartOnDisk] returns and leaves in the sample world. *)
Definition sample_on_disk : Checksums * WrittenFiles :=
  returned (∅, []) (finalizePartOnDisk sample_collaborators ∅ None sample_world).1.

Definition sample_after_disk : World :=
  (finalizePartOnDisk sample_collaborators ∅ None sample_world).2.

(** The handle [finalizePartAsync] returns in the sample world. *)
Definition sample_handle : Finalizer :=
  returned (mkFinalizer None)
    (finalizePartAsync sample_collaborators true None None None sample_world).1.

Definition sample_finalized : World :=
  (finalizePartAsync sample_collaborators true None None None sample_world).2.

(** The world after the sample batches were written for a part whose
    min-max index was never initialized. *)
Definition sample_written_without_minmax : World :=
  (write_all sample_collaborators sample_batches sample_world_without_minmax).2.

(** Checksums that name the checksums file itself. *)
Definition sample_checksums_naming_themselves : Checksums :=
  {["checksums.txt" := mkChecksum 1 2]}.

(** *** Sample values for more cases *)


(** A projection part. *)
Definition sample_projection_world : World :=
  mkWorld []
    (DataPart.mk "by_x" UUID_Nil true 1 false None (mkMinMaxIndex false []) []
       [] TTLInfos_default ∅ [("x", "UInt64")] [] 0 0%N None 0 ∅ 0 0 [] None
       None false)
    sample_stream.

(** A part of a table in the format that precedes custom partitioning; it
    has a UUID. *)
Definition sample_old_format_world : World :=
  mkWorld []
    (DataPart.mk "20240101_20240131_1_1_0" 7 false 0 false None
       (mkMinMaxIndex false []) [] [] TTLInfos_default ∅ [("x", "UInt64")] []
       0 0%N None 0 ∅ 0 0 [] None None false)
    sample_stream.

(** A part with two projections, written by a column writer that asks for
    the checksums of [old.bin] to be removed. *)
Definition sample_world_with_projections : World :=
  mkWorld []
    (DataPart.mk "all_1_1_0" UUID_Nil false 1 false (Some "2024")
       (mkMinMaxIndex true [("d", "2024-01-01..2024-01-31")]) []
       [("by_x", {["x.bin" := mkChecksum 10 1]}); ("by_y", ∅)]
       TTLInfos_default ∅ [("x", "UInt64")] [] 0 0%N None 0 ∅ 0 0 [] None None
       false)
    sample_stream.

Definition sample_collaborators_removing : Collaborators :=
  mkCollaborators
    (λ _, 8) (λ _, 42) 1
    (λ _ checksums, (<["data.bin" := mkChecksum 100 7]> checksums, {["old.bin"]}))
    (λ _, [8192%N]) (λ _, None) (λ _, [])
    (λ _ cols infos checksums, (∅, cols, infos, checksums))
    (λ own _ _, own) (λ _ new_infos, new_infos) (λ _ infos, infos)
    (λ _, None) (λ _, 108) (λ _, 400) (λ _, 7) (λ _, 1700000000).

Definition sample_additional_checksums : Checksums :=
  {["old.bin" := mkChecksum 5 5]}.

Definition sample_handle_with_projections : Finalizer :=
  returned (mkFinalizer None)
    (finalizePartAsync sample_collaborators_removing false None
       (Some sample_additional_checksums) None sample_world_with_projections).1.

Definition sample_finalized_with_projections : World :=
  (finalizePartAsync sample_collaborators_removing false None
     (Some sample_additional_checksums) None sample_world_with_projections).2.




(** The digits of a byte in lowercase hexadecimal. *)
Definition sample_hex_digit (n : N) : ascii :=
  ascii_of_N (if (n <? 10)%N then 48 + n else 87 + n).

Definition sample_writeHexByteLowercase (byte : UInt8) : ascii * ascii :=
  let n := Byte.to_N byte in
  (sample_hex_digit (n / 16), sample_hex_digit (n mod 16)).

(** The bytes of a UUID as they lie in the memory of a little-endian
    machine. *)
Definition sample_uuid : list UInt8 :=
  map (λ n, default Byte.x00 (Byte.of_N (N.of_nat n)))
    [0x4c; 0x45; 0x3d; 0x73; 0x70; 0x4b; 0x50; 0x61;
     0xf0; 0x17; 0x32; 0x40; 0xde; 0x2f; 0x3a; 0xb2]%nat.

(** The decimal text of every byte. *)
Definition sample_one_byte_to_string_lookup_table : list string :=
  map (λ n : nat, pretty n) (seq 0 256).


(** The answers of [IAccumulatingTransform::prepare] told apart here. *)
Inductive sample_Status := sample_NeedData | sample_Finished.

#[global] Instance sample_Status_eq_dec : EqDecision sample_Status.
Proof. solve_decision. Defined.

(** * Properties *)

(** ** Running computations *)

Lemma add_events_nil w : add_events [] w = w.
Proof. destruct w; unfold add_events; simpl. by rewrite app_nil_r. Qed.

Lemma add_events_app a b w :
  add_events b (add_events a w) = add_events (a ++ b) w.
Proof. unfold add_events; simpl. by rewrite app_assoc. Qed.

Lemma bind_ok {A B} (m : M A) (k : A → M B) w a w' :
  m w = (Ok a, w') → bind m k w = k a w'.
Proof. unfold bind. by intros ->. Qed.

Lemma bind_throw {A B} (m : M A) (k : A → M B) w e w' :
  m w = (Throw e, w') → bind m k w = (Throw e, w').
Proof. unfold bind. by intros ->. Qed.

Lemma for_each_events {A} (g : A → list Event) (body : A → M unit) xs w :
  (∀ x w, body x w = (Ok tt, add_events (g x) w)) →
  for_each xs body w = (Ok tt, add_events (flat_map g xs) w).
Proof.
  intros Hbody. revert w.
  induction xs as [|x xs IH]; intros w; simpl.
  - by rewrite add_events_nil.
  - unfold bind. rewrite Hbody, IH. by rewrite add_events_app.
Qed.

(** ** The commit handle *)

Lemma when_events (b : bool) (m : M unit) events w :
  (∀ w, m w = (Ok tt, add_events events w)) →
  when b m w = (Ok tt, add_events (if b then events else []) w).
Proof.
  intros Hm. destruct b; simpl; [apply Hm|].
  by rewrite add_events_nil.
Qed.

Lemma flat_map_singleton {A B} (f : A → B) (xs : list A) :
  flat_map (λ x, [f x]) xs = map f xs.
Proof. induction xs; simpl; congruence. Qed.

Lemma Impl_finish_run i w :
  Impl_finish i w = (Ok tt, add_events (finish_events i) w).
Proof.
  unfold Impl_finish, finish_events.
  erewrite bind_ok by reflexivity.
  erewrite bind_ok; cycle 1.
  { apply for_each_events with
      (g := λ file, FileFinalize (wf_name file)
                      :: (if sync i then [FileSync (wf_name file)] else [])).
    intros file w0. unfold bind, when, emit, ret.
    destruct (sync i); by rewrite ?add_events_app. }
  erewrite bind_ok; cycle 1.
  { apply when_events with (events := [CommitTransaction; BeginTransaction]).
    intros w0. unfold bind, emit. by rewrite add_events_app. }
  erewrite for_each_events with (g := λ name, [RemoveFile name]) by done.
  rewrite !add_events_app, flat_map_singleton.
  by destruct (bool_decide _).
Qed.

Lemma Impl_cancel_run i w :
  Impl_cancel i w = (Ok tt, add_events (cancel_events i) w).
Proof.
  unfold Impl_cancel, cancel_events.
  erewrite bind_ok by reflexivity.
  erewrite for_each_events with (g := λ file, [FileCancel (wf_name file)]) by done.
  by rewrite add_events_app, flat_map_singleton.
Qed.

Lemma Finalizer_life_consumed calls w :
  Finalizer_life calls (mkFinalizer None) w = (Ok tt, w).
Proof.
  induction calls as [|c calls IH]; [done|].
  destruct c; simpl; apply IH.
Qed.

Lemma Finalizer_life_finish i calls w :
  Finalizer_life (CallFinish :: calls) (mkFinalizer (Some i)) w = Impl_finish i w.
Proof.
  simpl. rewrite Impl_finish_run. apply Finalizer_life_consumed.
Qed.

Lemma Finalizer_life_cancel i calls w :
  Finalizer_life (CallCancel :: calls) (mkFinalizer (Some i)) w = Impl_cancel i w.
Proof.
  simpl. rewrite Impl_cancel_run. apply Finalizer_life_consumed.
Qed.

(** ** Lists of events *)

Lemma split_after_prefix {A} (l1 l2 before after : list A) x :
  l1 ++ l2 = before ++ x :: after →
  x ∉ l1 →
  ∃ mid, before = l1 ++ mid ∧ l2 = mid ++ x :: after.
Proof.
  revert before. induction l1 as [|a l1 IH]; intros before Heq Hx.
  - by exists before.
  - destruct before as [|b before]; simpl in Heq.
    + injection Heq as -> _. exfalso. apply Hx. left.
    + injection Heq as -> Heq.
      destruct (IH before Heq) as (mid & -> & ->).
      * intros Hin. apply Hx. by right.
      * by exists mid.
Qed.

Lemma elem_of_map {A B} (f : A → B) (l : list A) y :
  y ∈ map f l ↔ ∃ x, y = f x ∧ x ∈ l.
Proof.
  rewrite list_elem_of_In, in_map_iff.
  split; intros (x & ? & ?); exists x.
  - by rewrite list_elem_of_In.
  - by rewrite <- list_elem_of_In.
Qed.

Lemma elem_of_finalize_events (sync : bool) (files : WrittenFiles) e :
  e ∈ flat_map
        (λ file, FileFinalize (wf_name file)
                   :: (if sync then [FileSync (wf_name file)] else []))
        files ↔
  ∃ file, file ∈ files ∧
    (e = FileFinalize (wf_name file) ∨ (sync = true ∧ e = FileSync (wf_name file))).
Proof.
  rewrite list_elem_of_In, in_flat_map. split.
  - intros (file & Hfile & He). exists file.
    rewrite list_elem_of_In. split; [done|].
    destruct He as [<-|He]; [by left|].
    destruct sync; simpl in He; [|done].
    destruct He as [<-|[]]. by right.
  - intros (file & Hfile & He). exists file.
    rewrite list_elem_of_In in Hfile. split; [done|].
    destruct He as [->|[-> ->]]; simpl; auto.
Qed.

Lemma finish_events_split i :
  finish_events i =
    (WriterFinish (sync i)
       :: flat_map
            (λ file, FileFinalize (wf_name file)
                       :: (if sync i then [FileSync (wf_name file)] else []))
            (written_files i)
       ++ (if bool_decide (files_to_remove_after_finish i = ∅) then []
           else [CommitTransaction; BeginTransaction]))
    ++ map RemoveFile (elements (files_to_remove_after_finish i)).
Proof. unfold finish_events. simpl. by rewrite <- app_assoc. Qed.

Lemma no_removal_before_the_split i name :
  RemoveFile name ∉
    WriterFinish (sync i)
      :: flat_map
           (λ file, FileFinalize (wf_name file)
                      :: (if sync i then [FileSync (wf_name file)] else []))
           (written_files i)
      ++ (if bool_decide (files_to_remove_after_finish i = ∅) then []
          else [CommitTransaction; BeginTransaction]).
Proof.
  rewrite elem_of_cons, elem_of_app, elem_of_finalize_events.
  intros [?|[(file & _ & [?|[_ ?]])|Hin]]; try discriminate.
  destruct (bool_decide _);
    repeat (apply elem_of_cons in Hin as [?|Hin]; [discriminate|]);
    by apply elem_of_nil in Hin.
Qed.

(** C7.  [Finalizer::Impl::finish] always returns, and in what it does:
    exactly the scheduled files are removed; every removal comes after the
    finalization (and, when [sync] is set, the sync) of every written file,
    and no file is finalized or synced after a removal; the transaction is
    committed and begun again, between the finalizations and the removals,
    if and only if there is a file to remove. *)
Theorem finish_removes_after_finalizing (i : Impl) (w : World) :
  ∃ events,
    Impl_finish i w = (Ok tt, add_events events w) ∧
    (∀ name,
       RemoveFile name ∈ events ↔ name ∈ files_to_remove_after_finish i) ∧
    (∀ before name after,
       events = before ++ RemoveFile name :: after →
       (∀ file, file ∈ written_files i →
          FileFinalize (wf_name file) ∈ before ∧
          (sync i = true → FileSync (wf_name file) ∈ before)) ∧
       (∀ n, (FileFinalize n ∉ after) ∧ (FileSync n ∉ after))) ∧
    (files_to_remove_after_finish i ≠ ∅ ↔
       ∃ before,
         events =
           before ++ [CommitTransaction; BeginTransaction]
             ++ map RemoveFile (elements (files_to_remove_after_finish i)) ∧
         ∀ e, e ∈ before →
           e ≠ CommitTransaction ∧ e ≠ BeginTransaction ∧
           ∀ n, e ≠ RemoveFile n) ∧
    (files_to_remove_after_finish i = ∅ ↔
       (CommitTransaction ∉ events) ∧ (BeginTransaction ∉ events)).
Proof.
  exists (finish_events i). split; [apply Impl_finish_run|].
  split; [|split; [|split]].
  - intros name. rewrite finish_events_split, elem_of_app.
    rewrite elem_of_map. split.
    + intros [Hin|(n & [= <-] & Hn)].
      * by apply no_removal_before_the_split in Hin.
      * by apply elem_of_elements.
    + intros Hin. right. exists name. by rewrite elem_of_elements.
  - intros before name after Heq.
    rewrite finish_events_split in Heq.
    apply split_after_prefix in Heq as (mid & -> & Hrem);
      [|apply no_removal_before_the_split].
    split.
    + intros file Hfile. split; [|intros Hsync].
      all: rewrite elem_of_app; left; rewrite elem_of_cons; right.
      all: rewrite elem_of_app; left; apply elem_of_finalize_events.
      all: exists file; auto.
    + assert (∀ e, e ∈ after → ∃ n, e = RemoveFile n) as Hafter.
      { intros e He.
        assert (e ∈ map RemoveFile (elements (files_to_remove_after_finish i)))
          as Hin by (rewrite Hrem; set_solver).
        apply elem_of_map in Hin as (n & -> & _). by exists n. }
      intros n. split; intros Hin; by apply Hafter in Hin as [? ?].
  - split.
    + intros Hne.
      exists (WriterFinish (sync i)
                :: flat_map
                     (λ file, FileFinalize (wf_name file)
                                :: (if sync i then [FileSync (wf_name file)]
                                    else []))
                     (written_files i)).
      split.
      * unfold finish_events. rewrite bool_decide_eq_false_2 by done.
        done.
      * intros e. rewrite elem_of_cons, elem_of_finalize_events.
        intros [->|(file & _ & [->|[_ ->]])]; done.
    + intros (before & Heq & _) Hempty.
      assert (CommitTransaction ∈ finish_events i) as Hin
        by (rewrite Heq; set_solver).
      unfold finish_events in Hin.
      rewrite bool_decide_eq_true_2 in Hin by done.
      rewrite Hempty, elements_empty in Hin. simpl in Hin.
      rewrite app_nil_r, elem_of_cons, elem_of_finalize_events in Hin.
      destruct Hin as [?|(file & _ & [?|[_ ?]])]; discriminate.
  - unfold finish_events. split.
    + intros Hempty. rewrite bool_decide_eq_true_2 by done.
      rewrite Hempty, elements_empty. simpl. rewrite app_nil_r.
      split; rewrite elem_of_cons, elem_of_finalize_events.
      all: intros [?|(file & _ & [?|[_ ?]])]; discriminate.
    + intros [Hcommit _].
      destruct (decide (files_to_remove_after_finish i = ∅)) as [|Hne]; [done|].
      exfalso. apply Hcommit.
      rewrite bool_decide_eq_false_2 by done. set_solver.
Qed.

(** ** [finalizePartOnDisk] writes the listed files *)

Section Files.

Context (E : Collaborators).

Lemma events_of_files_app a b :
  events_of_files (a ++ b) = events_of_files a ++ events_of_files b.
Proof. unfold events_of_files. by rewrite flat_map_app. Qed.

Lemma checksums_of_files_app a b cs :
  checksums_of_files E (a ++ b) cs
  = checksums_of_files E b (checksums_of_files E a cs).
Proof. unfold checksums_of_files. by rewrite fold_left_app. Qed.

Lemma write_hashed_file_run filename content l w :
  write_hashed_file E filename content l w =
    (Ok (checksums_of_files E [hashed_file filename content] l.1,
         l.2 ++ map snd [hashed_file filename content]),
     add_events (events_of_files [hashed_file filename content]) w).
Proof.
  unfold write_hashed_file, bind, emit, ret. by rewrite add_events_app.
Qed.

Lemma write_plain_file_run filename content l w :
  write_plain_file filename content l w =
    (Ok (checksums_of_files E [plain_file filename content] l.1,
         l.2 ++ map snd [plain_file filename content]),
     add_events (events_of_files [plain_file filename content]) w).
Proof.
  unfold write_plain_file, bind, emit, ret. by rewrite add_events_app.
Qed.

Lemma minmax_idx_store_run sides checksums w :
  minmax_idx_store E sides checksums w =
    (Ok (map snd (minmax_files sides),
         checksums_of_files E (minmax_files sides) checksums),
     add_events (events_of_files (minmax_files sides)) w).
Proof.
  revert checksums w.
  induction sides as [|[column values] sides IH]; intros checksums w; simpl.
  - unfold ret. by rewrite add_events_nil.
  - unfold bind, emit. rewrite IH. unfold ret.
    by rewrite !add_events_app.
Qed.

Lemma partition_store_run p checksums w :
  partition_store E p checksums w =
    let listed :=
      match DataPart.partition p with
      | Some value => [hashed_file PARTITION_FILE_NAME (PartitionValue value)]
      | None => []
      end in
    (Ok (head (map snd listed), checksums_of_files E listed checksums),
     add_events (events_of_files listed) w).
Proof.
  unfold partition_store. destruct (DataPart.partition p); simpl.
  - unfold bind, emit, ret. by rewrite add_events_app.
  - unfold ret. by rewrite add_events_nil.
Qed.

(** Runs the steps of a computation whose conditions are decided. *)
Ltac run_files :=
  repeat first
    [ rewrite write_hashed_file_run
    | rewrite write_plain_file_run
    | rewrite minmax_idx_store_run
    | rewrite partition_store_run
    | progress (unfold bind, ret, throw, get_stream, get_part, get_trace,
                modify_part)
    | progress (cbn beta iota delta [fst snd negb]) ];
  rewrite ?add_events_app, ?add_events_nil.

Lemma non_projection_run l w :
  finalizePartOnDisk_non_projection E l w =
    let listed := non_projection_files E (stream w) (new_part w) in
    (match listed.2 with
     | Some e => Throw e
     | None => Ok (checksums_of_files E listed.1 l.1, l.2 ++ map snd listed.1)
     end,
     add_events (events_of_files listed.1) w).
Proof.
  unfold finalizePartOnDisk_non_projection, non_projection_files.
  destruct l as [cs fs].
  unfold bind at 1 2. unfold get_stream, get_part. cbv beta iota.
  destruct (bool_decide (DataPart.uuid (new_part w) = UUID_Nil));
  destruct (_ >=? _);
  destruct (initialized (DataPart.minmax_idx (new_part w)));
  destruct (rows_count (stream w) =? 0)%N;
  destruct (bool_decide (DataPart.source_parts (new_part w) = []));
  run_files.
  all: destruct (DataPart.partition (new_part w)).
  all: cbn [head map fst snd].
  all: rewrite ?events_of_files_app, ?checksums_of_files_app, ?map_app.
  all: cbn [app map]; rewrite ?app_nil_r, <- ?app_assoc; reflexivity.
Qed.

Lemma finalizePartOnDisk_run checksums additional_columns_substreams w :
  finalizePartOnDisk E checksums additional_columns_substreams w
  = finalizePartOnDisk_outcome E checksums additional_columns_substreams w.
Proof.
  unfold finalizePartOnDisk, finalizePartOnDisk_outcome.
  unfold bind at 1 2. unfold get_stream, get_part. cbv beta iota zeta.
  unfold bind at 1.
  assert ((if negb (DataPart.isProjectionPart (new_part w))
           then finalizePartOnDisk_non_projection E (checksums, [])
           else ret (checksums, [])) w
          = let first := leading_files E (stream w) (new_part w) in
            (match first.2 with
             | Some e => Throw e
             | None => Ok (checksums_of_files E first.1 checksums, map snd first.1)
             end,
             add_events (events_of_files first.1) w)) as ->.
  { unfold leading_files.
    destruct (DataPart.isProjectionPart (new_part w)); simpl.
    - unfold ret. by rewrite add_events_nil.
    - by rewrite non_projection_run. }
  cbv zeta.
  destruct (leading_files E (stream w) (new_part w))
    as [first [e|]]; [reflexivity|].
  cbn [fst snd]. unfold counted_files.
  destruct (TTLInfos_empty (DataPart.ttl_infos (new_part w)));
  destruct (bool_decide (DataPart.serialization_infos (new_part w) = ∅)).
  all: cbn [negb]; run_files.
  all: cbn [trace add_events].
  all: rewrite ?events_of_files_app, ?checksums_of_files_app, ?map_app.
  all: cbn [app map events_of_files flat_map fst snd hashed_file plain_file
            wf_name wf_content].
  all: rewrite ?app_nil_r, <- ?app_assoc; cbn [app].
  all: destruct (bool_decide (_ = [])).
  all: destruct (default_codec (stream w)).
  all: run_files.
  all: rewrite ?events_of_files_app, ?checksums_of_files_app, ?map_app.
  all: cbn [app map events_of_files flat_map fst snd hashed_file plain_file
            wf_name wf_content checksums_of_files fold_left].
  all: rewrite ?app_nil_r, <- ?app_assoc; cbn [app].
  all: try reflexivity.
  all: unfold add_events; cbn [trace new_part stream].
  all: rewrite <- ?app_assoc; cbn [app]; reflexivity.
Qed.


(** *** Which files are listed *)

Lemma elem_of_events_of_files files filename content :
  WriteFile filename content ∈ events_of_files files ↔
  ∃ hashed, (hashed, mkWrittenFile filename content) ∈ files.
Proof.
  unfold events_of_files. rewrite list_elem_of_In, in_flat_map. split.
  - intros ([hashed [n c]] & Hin & He). exists hashed. simpl in He.
    destruct He as [[= -> ->]|[?|[]]]; [|discriminate].
    by rewrite list_elem_of_In.
  - intros (hashed & Hin). exists (hashed, mkWrittenFile filename content).
    rewrite list_elem_of_In in Hin. split; [done|]. by left.
Qed.

Lemma minmax_file_name_starts column :
  ∃ rest, minmax_file_name column = String "m"%char (String "i"%char rest).
Proof. by eexists. Qed.

Lemma elem_of_minmax_files sides f :
  f ∈ minmax_files sides ↔
  ∃ side, f = hashed_file (minmax_file_name side.1) (MinMaxValues side.2)
          ∧ side ∈ sides.
Proof. apply elem_of_map. Qed.

Lemma non_projection_files_names s p f :
  f ∈ (non_projection_files E s p).1 → leading_name (wf_name f.2).
Proof.
  unfold non_projection_files, leading_name.
  assert (∀ x, x ∈ minmax_files (hyperrectangle (DataPart.minmax_idx p)) →
               ∃ column, wf_name x.2 = minmax_file_name column) as Hmm.
  { intros x (side & -> & _)%elem_of_minmax_files. by exists side.1. }
  destruct (bool_decide (DataPart.uuid p = UUID_Nil)), (_ >=? _),
    (initialized (DataPart.minmax_idx p)), (rows_count s =? 0)%N,
    (DataPart.partition p), (bool_decide (DataPart.source_parts p = []));
    cbn [fst app];
    repeat first [rewrite elem_of_app | rewrite elem_of_cons
                 | rewrite elem_of_nil].
  all: intros Hin;
    repeat match goal with H : _ ∨ _ |- _ => destruct H end;
    subst; simpl; auto.
  all: try done.
  all: match goal with H : _ ∈ minmax_files _ |- _ => apply Hmm in H end; auto.
Qed.

Lemma counted_files_names s p f :
  f ∈ counted_files s p →
  wf_name f.2 ∈ ["count.txt"; "ttl.txt"; SERIALIZATION_FILE_NAME; "columns.txt"].
Proof.
  unfold counted_files.
  destruct (TTLInfos_empty _), (bool_decide _); cbn [app].
  all: repeat first [rewrite elem_of_cons | rewrite elem_of_nil].
  all: intros Hin;
    repeat match goal with H : _ ∨ _ |- _ => destruct H end;
    subst; simpl; auto 6.
  all: done.
Qed.

(** *** The checksums of the listed files *)

Lemma checksums_of_files_snoc files (f : bool * WrittenFile) checksums :
  checksums_of_files E (files ++ [f]) checksums =
    if f.1 then
      set_size_and_hash (wf_name f.2) (hashing_count E (wf_content f.2))
        (hashing_getHash E (wf_content f.2))
        (checksums_of_files E files checksums)
    else checksums_of_files E files checksums.
Proof. by rewrite checksums_of_files_app. Qed.

Lemma lookup_set_size_and_hash filename size hash (checksums : Checksums) key :
  set_size_and_hash filename size hash checksums !! key =
    if decide (filename = key) then Some (mkChecksum size hash)
    else checksums !! key.
Proof.
  unfold set_size_and_hash. rewrite lookup_insert.
  by destruct (decide (filename = key)).
Qed.

(** A name that no hashed file has keeps the entry it had. *)
Lemma checksums_of_files_other files checksums key :
  (∀ f, f ∈ files → f.1 = true → wf_name f.2 ≠ key) →
  checksums_of_files E files checksums !! key = checksums !! key.
Proof.
  induction files as [|f files IH] using rev_ind; intros Hother; [done|].
  rewrite checksums_of_files_snoc.
  assert (checksums_of_files E files checksums !! key = checksums !! key) as Hfiles.
  { apply IH. intros f' Hf'. apply Hother. rewrite elem_of_app. by left. }
  destruct (f.1) eqn:Hhashed; [|done].
  rewrite lookup_set_size_and_hash.
  destruct (decide (wf_name f.2 = key)) as [Heq|]; [|done].
  exfalso. eapply Hother; [|done..]. rewrite elem_of_app. right. left.
Qed.

(** The entry of a hashed file is the size and the hash of what was written
    under its name (the last time, were it written twice). *)
Lemma checksums_of_files_hashed files checksums filename content :
  hashed_file filename content ∈ files →
  ∃ content',
    hashed_file filename content' ∈ files ∧
    checksums_of_files E files checksums !! filename
    = Some (mkChecksum (hashing_count E content') (hashing_getHash E content')).
Proof.
  induction files as [|f files IH] using rev_ind; intros Hin.
  { by apply elem_of_nil in Hin. }
  rewrite checksums_of_files_snoc.
  destruct f as [hashed [n c]]; simpl.
  destruct hashed; [destruct (decide (n = filename)) as [->|Hne]|].
  - exists c. split; [rewrite elem_of_app; right; left|].
    rewrite lookup_set_size_and_hash. by rewrite decide_True.
  - rewrite lookup_set_size_and_hash, decide_False by done.
    apply elem_of_app in Hin as [Hin|Hin].
    + destruct (IH Hin) as (c' & ? & ?). exists c'.
      split; [rewrite elem_of_app; by left|done].
    + apply list_elem_of_singleton in Hin. unfold hashed_file in Hin. congruence.
  - apply elem_of_app in Hin as [Hin|Hin].
    + destruct (IH Hin) as (c' & ? & ?). exists c'.
      split; [rewrite elem_of_app; by left|done].
    + apply list_elem_of_singleton in Hin. discriminate.
Qed.

(** *** The files before [count.txt] *)

Lemma leading_files_names s p f :
  f ∈ (leading_files E s p).1 → leading_name (wf_name f.2).
Proof.
  unfold leading_files. destruct (DataPart.isProjectionPart p).
  - by intros ?%elem_of_nil.
  - apply non_projection_files_names.
Qed.

Lemma leading_name_is_no_later_name filename :
  leading_name filename →
  filename ∉ ["count.txt"; "ttl.txt"; SERIALIZATION_FILE_NAME; "columns.txt";
              COLUMNS_SUBSTREAMS_FILE_NAME; METADATA_VERSION_FILE_NAME;
              DEFAULT_COMPRESSION_CODEC_FILE_NAME; "checksums.txt"].
Proof.
  intros [->|[->|[->|[column ->]]]] Hin.
  4: destruct (minmax_file_name_starts column) as [rest Hrest];
     rewrite Hrest in Hin.
  all: repeat (apply elem_of_cons in Hin as [Hin|Hin]; [by cbv in Hin|]).
  all: by apply elem_of_nil in Hin.
Qed.

(** The check of the min-max index is the only way the files before
    [count.txt] can fail. *)
Lemma leading_files_exception s p e :
  (leading_files E s p).2 = Some e →
  DataPart.isProjectionPart p = false ∧
  (MERGE_TREE_DATA_MIN_FORMAT_VERSION_WITH_CUSTOM_PARTITIONING E
   ≤ DataPart.storage_format_version p) ∧
  initialized (DataPart.minmax_idx p) = false ∧
  rows_count s ≠ 0%N ∧
  e = minmax_exception p.
Proof.
  unfold leading_files, non_projection_files.
  destruct (DataPart.isProjectionPart p); [done|].
  destruct (_ >=? _) eqn:Hversion; [|done].
  destruct (initialized _); [done|].
  destruct (_ =? _)%N eqn:Hrows; [done|].
  intros [= <-]. apply N.eqb_neq in Hrows. repeat split; [lia|done].
Qed.

Lemma leading_files_checked s p :
  DataPart.isProjectionPart p = false →
  (MERGE_TREE_DATA_MIN_FORMAT_VERSION_WITH_CUSTOM_PARTITIONING E
   ≤ DataPart.storage_format_version p) →
  initialized (DataPart.minmax_idx p) = false →
  rows_count s ≠ 0%N →
  (leading_files E s p).2 = Some (minmax_exception p).
Proof.
  intros Hproj Hversion Hinit Hrows.
  unfold leading_files, non_projection_files.
  rewrite Hproj, Hinit.
  destruct (_ >=? _) eqn:Hge; [|lia].
  by apply N.eqb_neq in Hrows as ->.
Qed.

Lemma leading_files_with_minmax s p :
  DataPart.isProjectionPart p = false →
  (MERGE_TREE_DATA_MIN_FORMAT_VERSION_WITH_CUSTOM_PARTITIONING E
   ≤ DataPart.storage_format_version p) →
  initialized (DataPart.minmax_idx p) = true →
  (leading_files E s p).2 = None ∧
  ∀ f, f ∈ minmax_files (hyperrectangle (DataPart.minmax_idx p)) →
       f ∈ (leading_files E s p).1.
Proof.
  intros Hproj Hversion Hinit.
  unfold leading_files, non_projection_files.
  rewrite Hproj, Hinit.
  destruct (_ >=? _) eqn:Hge; [|lia].
  split; [done|]. intros f Hf. cbn [fst].
  rewrite !elem_of_app. auto.
Qed.

Lemma leading_files_without_minmax s p f column :
  initialized (DataPart.minmax_idx p) = false →
  f ∈ (leading_files E s p).1 →
  wf_name f.2 ≠ minmax_file_name column.
Proof.
  intros Hinit. unfold leading_files, non_projection_files. rewrite Hinit.
  destruct (minmax_file_name_starts column) as [rest ->].
  unfold UUID_FILE_NAME, PARTITION_FILE_NAME, SourcePartsSetForPatch_FILENAME.
  destruct (DataPart.isProjectionPart p); [by intros ?%elem_of_nil|].
  destruct (bool_decide (DataPart.uuid p = UUID_Nil)), (_ >=? _),
    (rows_count s =? 0)%N, (DataPart.partition p),
    (bool_decide (DataPart.source_parts p = []));
    cbn [fst app];
    repeat first [rewrite elem_of_app | rewrite elem_of_cons
                 | rewrite elem_of_nil].
  all: intros Hin;
    repeat match goal with H : _ ∨ _ |- _ => destruct H end;
    subst; simpl; done.
Qed.

(** *** The two ways [finalizePartOnDisk] can go *)

(** Either the min-max check stops it, or it writes the leading files, the
    counted files and the files up to the metadata version, and then
    depends on the codec. *)
Lemma finalizePartOnDisk_cases checksums additional_columns_substreams w :
  let s := stream w in
  let p := new_part w in
  let lead := leading_files E s p in
  (∃ e, lead.2 = Some e ∧
        finalizePartOnDisk E checksums additional_columns_substreams w
        = (Throw e, mkWorld (trace w ++ events_of_files lead.1) p s))
  ∨ (lead.2 = None ∧
     ∃ middle p',
       (∀ f, f ∈ middle →
          f.1 = false ∧
          wf_name f.2 ∈ [COLUMNS_SUBSTREAMS_FILE_NAME; METADATA_VERSION_FILE_NAME]) ∧
       let files := lead.1 ++ counted_files s p ++ middle in
       match default_codec s with
       | None =>
           finalizePartOnDisk E checksums additional_columns_substreams w
           = (Throw (codec_exception p),
              mkWorld (trace w ++ events_of_files files) p' s)
       | Some codec =>
           let files :=
             files ++ [plain_file DEFAULT_COMPRESSION_CODEC_FILE_NAME
                         (CodecDescText codec)] in
           let recorded := checksums_of_files E files checksums in
           let files :=
             files ++ [plain_file "checksums.txt" (ChecksumsText recorded)] in
           finalizePartOnDisk E checksums additional_columns_substreams w
           = (Ok (recorded, map snd files),
              mkWorld (trace w ++ events_of_files files) p' s)
       end).
Proof.
  intros s p lead. rewrite finalizePartOnDisk_run.
  unfold finalizePartOnDisk_outcome. cbv zeta. fold s p lead.
  destruct lead as [first [e|]] eqn:Hlead; cbn [fst snd].
  { left. by exists e. }
  right. split; [done|].
  match goal with
  | |- context [bool_decide (?subs = [])] =>
      exists ((if bool_decide (subs = []) then []
               else [plain_file COLUMNS_SUBSTREAMS_FILE_NAME
                       (ColumnsSubstreamsText subs)])
              ++ [plain_file METADATA_VERSION_FILE_NAME
                    (IntText (DataPart.metadata_version p))]),
             (if bool_decide (subs = []) then p
              else DataPart.setColumnsSubstreams subs p)
  end.
  split.
  - intros f. destruct (bool_decide _); cbn [app];
      repeat first [rewrite elem_of_cons | rewrite elem_of_nil].
    all: intros Hin;
      repeat match goal with H : _ ∨ _ |- _ => destruct H end;
      subst; simpl; auto; done.
  - cbv zeta. rewrite <- !app_assoc. by destruct (default_codec s).
Qed.

Lemma counted_and_middle_names s p middle f :
  (∀ f, f ∈ middle →
     f.1 = false ∧
     wf_name f.2 ∈ [COLUMNS_SUBSTREAMS_FILE_NAME; METADATA_VERSION_FILE_NAME]) →
  f ∈ counted_files s p ++ middle →
  wf_name f.2 ∈ ["count.txt"; "ttl.txt"; SERIALIZATION_FILE_NAME; "columns.txt";
                 COLUMNS_SUBSTREAMS_FILE_NAME; METADATA_VERSION_FILE_NAME].
Proof.
  intros Hmiddle [Hin|Hin]%elem_of_app.
  - apply counted_files_names in Hin.
    repeat (apply elem_of_cons in Hin as [->|Hin];
            [repeat first [by left | right]|]).
    by apply elem_of_nil in Hin.
  - apply Hmiddle in Hin as [_ Hin].
    repeat (apply elem_of_cons in Hin as [->|Hin];
            [repeat first [by left | right]|]).
    by apply elem_of_nil in Hin.
Qed.

Lemma later_files_names s p middle f :
  (∀ f, f ∈ middle →
     f.1 = false ∧
     wf_name f.2 ∈ [COLUMNS_SUBSTREAMS_FILE_NAME; METADATA_VERSION_FILE_NAME]) →
  f ∈ counted_files s p ++ middle →
  wf_name f.2 ∈ ["count.txt"; "ttl.txt"; SERIALIZATION_FILE_NAME; "columns.txt";
                 COLUMNS_SUBSTREAMS_FILE_NAME; METADATA_VERSION_FILE_NAME;
                 DEFAULT_COMPRESSION_CODEC_FILE_NAME; "checksums.txt"].
Proof.
  intros Hmiddle Hin.
  pose proof (counted_and_middle_names _ _ _ _ Hmiddle Hin) as Hname.
  repeat (apply elem_of_cons in Hname as [->|Hname];
          [repeat first [by left | right]|]).
  by apply elem_of_nil in Hname.
Qed.

(** ** The min-max index *)

(** C4.  For a part that is not a projection, under a format version with
    custom partitioning: when rows were written and the min-max index was
    never initialized, [finalizePartOnDisk] throws the LOGICAL_ERROR
    "MinMax index was not initialized for new non-empty part"; when the
    index is initialized, a file is written for each of its columns and, in
    a run that returns, each is among the written files and has in the
    checksums the size and hash of what was written under its name. *)
Theorem minmax_index_is_checked checksums additional_columns_substreams w :
  DataPart.isProjectionPart (new_part w) = false →
  (MERGE_TREE_DATA_MIN_FORMAT_VERSION_WITH_CUSTOM_PARTITIONING E
   ≤ DataPart.storage_format_version (new_part w)) →
  let run := finalizePartOnDisk E checksums additional_columns_substreams w in
  (rows_count (stream w) ≠ 0%N →
   initialized (DataPart.minmax_idx (new_part w)) = false →
   run.1 = Throw (minmax_exception (new_part w)) ∧
   code (minmax_exception (new_part w)) = LOGICAL_ERROR) ∧
  (initialized (DataPart.minmax_idx (new_part w)) = true →
   ∀ column values,
     (column, values) ∈ hyperrectangle (DataPart.minmax_idx (new_part w)) →
     (∃ events,
        trace run.2 = trace w ++ events ∧
        WriteFile (minmax_file_name column) (MinMaxValues values) ∈ events) ∧
     ∀ l, run.1 = Ok l →
       mkWrittenFile (minmax_file_name column) (MinMaxValues values) ∈ l.2 ∧
       ∃ content,
         mkWrittenFile (minmax_file_name column) content ∈ l.2 ∧
         l.1 !! minmax_file_name column
         = Some (mkChecksum (hashing_count E content)
                   (hashing_getHash E content))).
Proof.
  intros Hproj Hversion run. subst run.
  destruct (finalizePartOnDisk_cases checksums additional_columns_substreams w)
    as [(e & Hlead & Hrun)|(Hlead & middle & p' & Hmiddle & Hrun)].
  - apply leading_files_exception in Hlead as Hwhy.
    destruct Hwhy as (_ & _ & Hinit & Hrows & ->).
    split; [by rewrite Hrun|]. intros Hinit'. congruence.
  - split.
    { intros Hrows Hinit.
      rewrite (leading_files_checked _ _ Hproj Hversion Hinit Hrows) in Hlead.
      discriminate. }
    intros Hinit column values Hside.
    destruct (leading_files_with_minmax (stream w) _ Hproj Hversion Hinit)
      as [_ Hfiles]. rename Hfiles into Hminmax.
    assert (hashed_file (minmax_file_name column) (MinMaxValues values)
            ∈ (leading_files E (stream w) (new_part w)).1) as Hfile.
    { apply Hminmax, elem_of_minmax_files. by exists (column, values). }
    cbv zeta in Hrun.
    destruct (default_codec (stream w)) as [codec|]; rewrite Hrun; cbn [fst snd].
    all: split; [eexists; split; [reflexivity|]|].
    all: try (apply elem_of_events_of_files; exists true;
              rewrite ?elem_of_app; auto).
    + intros l [= <-]. cbn [fst snd].
      match goal with
      | |- context [checksums_of_files E ?files checksums] =>
          assert (hashed_file (minmax_file_name column) (MinMaxValues values)
                  ∈ files) as Hin by (rewrite !elem_of_app; auto);
          destruct (checksums_of_files_hashed files checksums _ _ Hin)
            as (content & Hcontent & Hlookup)
      end.
      split.
      * rewrite map_app, elem_of_app. left. apply elem_of_map.
        by eexists (hashed_file _ _).
      * exists content. split; [|done].
        rewrite map_app, elem_of_app. left. apply elem_of_map.
        by eexists (hashed_file _ _).
    + intros l [=].
Qed.

(** C3, as the code has it.  A part with zero rows whose min-max index was
    never initialized is not rejected for that: no min-max file is written,
    finalization succeeds when a codec was given, and the only exception
    it can throw is the one for the missing codec. *)
Theorem empty_part_needs_no_minmax_index checksums additional_columns_substreams w :
  rows_count (stream w) = 0%N →
  initialized (DataPart.minmax_idx (new_part w)) = false →
  let run := finalizePartOnDisk E checksums additional_columns_substreams w in
  (∀ codec, default_codec (stream w) = Some codec → ∃ l, run.1 = Ok l) ∧
  (∀ e, run.1 = Throw e →
     default_codec (stream w) = None ∧ e = codec_exception (new_part w)) ∧
  ∃ events,
    trace run.2 = trace w ++ events ∧
    ∀ column content, WriteFile (minmax_file_name column) content ∉ events.
Proof.
  intros Hrows Hinit run. subst run.
  destruct (finalizePartOnDisk_cases checksums additional_columns_substreams w)
    as [(e & Hlead & Hrun)|(Hlead & middle & p' & Hmiddle & Hrun)].
  { apply leading_files_exception in Hlead as (_ & _ & _ & ? & _). done. }
  assert (∀ files column content,
            (∀ f, f ∈ files →
               f ∈ (leading_files E (stream w) (new_part w)).1 ∨
               wf_name f.2 ∈ ["count.txt"; "ttl.txt"; SERIALIZATION_FILE_NAME;
                              "columns.txt"; COLUMNS_SUBSTREAMS_FILE_NAME;
                              METADATA_VERSION_FILE_NAME;
                              DEFAULT_COMPRESSION_CODEC_FILE_NAME;
                              "checksums.txt"]) →
            WriteFile (minmax_file_name column) content ∉ events_of_files files)
    as Hnone.
  { intros files column content Hfiles (hashed & Hin)%elem_of_events_of_files.
    destruct (Hfiles _ Hin) as [Hlead'|Hlater].
    - by eapply leading_files_without_minmax in Hlead'.
    - eapply leading_name_is_no_later_name; [|exact Hlater].
      right. right. right. by exists column. }
  cbv zeta in Hrun.
  destruct (default_codec (stream w)) as [codec|]; rewrite Hrun; cbn [fst snd].
  - split; [by eexists|]. split; [done|].
    eexists. split; [reflexivity|]. intros column content.
    apply Hnone. intros f. rewrite <- !app_assoc.
    rewrite elem_of_app, (app_assoc (counted_files _ _)), (elem_of_app (_ ++ _)).
    intros [?|[?|Hin]]; [by left| |].
    + right. by eapply later_files_names.
    + right. repeat (apply elem_of_cons in Hin as [->|Hin];
                     [repeat first [by left | right]|]).
      by apply elem_of_nil in Hin.
  - split; [done|]. split; [by intros e [= <-]|].
    eexists. split; [reflexivity|]. intros column content.
    apply Hnone. intros f. rewrite elem_of_app.
    intros [?|?]; [by left|]. right. by eapply later_files_names.
Qed.

(** ** The codec and the checksums file *)

(** No file written before the checksums file has its name. *)
Lemma earlier_files_are_not_checksums s p middle extra f :
  (∀ f, f ∈ middle →
     f.1 = false ∧
     wf_name f.2 ∈ [COLUMNS_SUBSTREAMS_FILE_NAME; METADATA_VERSION_FILE_NAME]) →
  (∀ f, f ∈ extra → wf_name f.2 = DEFAULT_COMPRESSION_CODEC_FILE_NAME) →
  f ∈ ((leading_files E s p).1 ++ counted_files s p ++ middle) ++ extra →
  wf_name f.2 ≠ "checksums.txt".
Proof.
  intros Hmiddle Hextra Hin Hname.
  apply elem_of_app in Hin as [Hin|Hin];
    [apply elem_of_app in Hin as [Hin|Hin]|].
  - apply leading_files_names, leading_name_is_no_later_name in Hin.
    apply Hin. rewrite Hname. repeat first [by left | right].
  - eapply counted_and_middle_names in Hin; [|done]. rewrite Hname in Hin.
    repeat (apply elem_of_cons in Hin as [Hin|Hin]; [by cbv in Hin|]).
    by apply elem_of_nil in Hin.
  - apply Hextra in Hin. by rewrite Hname in Hin.
Qed.

(** C5, as the code has it.  Without a codec, [finalizePartOnDisk] throws a
    LOGICAL_ERROR (the one for the codec, unless the min-max check threw
    first) and [checksums.txt] has not been written.  With a codec,
    [default_compression_codec.txt] is written in every run that returns,
    right before [checksums.txt]; it is not always written: the run that
    the min-max check stops (a part with rows whose min-max index was never
    initialized) throws before and has not written it. *)
Theorem codec_is_mandatory checksums additional_columns_substreams w :
  let run := finalizePartOnDisk E checksums additional_columns_substreams w in
  (default_codec (stream w) = None →
   ∃ e events,
     run.1 = Throw e ∧ code e = LOGICAL_ERROR ∧
     (e = codec_exception (new_part w) ∨ e = minmax_exception (new_part w)) ∧
     trace run.2 = trace w ++ events ∧
     ∀ content, WriteFile "checksums.txt" content ∉ events) ∧
  (∀ codec, default_codec (stream w) = Some codec →
     match run.1 with
     | Ok l =>
         mkWrittenFile DEFAULT_COMPRESSION_CODEC_FILE_NAME (CodecDescText codec)
         ∈ l.2 ∧
         ∃ events,
           trace run.2
           = trace w ++ events
             ++ [WriteFile DEFAULT_COMPRESSION_CODEC_FILE_NAME
                   (CodecDescText codec);
                 FilePreFinalize DEFAULT_COMPRESSION_CODEC_FILE_NAME;
                 WriteFile "checksums.txt" (ChecksumsText l.1);
                 FilePreFinalize "checksums.txt"]
     | Throw e =>
         e = minmax_exception (new_part w) ∧
         rows_count (stream w) ≠ 0%N ∧
         initialized (DataPart.minmax_idx (new_part w)) = false ∧
         ∃ events,
           trace run.2 = trace w ++ events ∧
           ∀ content,
             WriteFile DEFAULT_COMPRESSION_CODEC_FILE_NAME content ∉ events
     end).
Proof.
  intros run. subst run.
  assert (∀ files content,
            (∀ f, f ∈ files → wf_name f.2 ≠ "checksums.txt") →
            WriteFile "checksums.txt" content ∉ events_of_files files)
    as Hnone.
  { intros files content Hfiles (hashed & Hin)%elem_of_events_of_files.
    by apply Hfiles in Hin. }
  destruct (finalizePartOnDisk_cases checksums additional_columns_substreams w)
    as [(e & Hlead & Hrun)|(Hlead & middle & p' & Hmiddle & Hrun)].
  - rewrite Hrun. cbn [fst snd].
    apply leading_files_exception in Hlead as (_ & _ & Hinit & Hrows & ->).
    split.
    + intros _. eexists _, _. repeat split; [by right|].
      intros content. apply Hnone. intros f Hin.
      eapply (earlier_files_are_not_checksums _ _ [] []);
        [by intros ? ?%elem_of_nil..|].
      rewrite !elem_of_app. eauto.
    + intros codec _. split; [done|]. split; [done|]. split; [done|].
      eexists. split; [reflexivity|].
      intros content (hashed & Hin)%elem_of_events_of_files.
      apply leading_files_names, leading_name_is_no_later_name in Hin.
      apply Hin. cbn [snd wf_name]. repeat first [by left | right].
  - cbv zeta in Hrun.
    destruct (default_codec (stream w)) as [codec|]; rewrite Hrun; cbn [fst snd].
    + split; [done|]. intros ? [= <-]. split.
      * rewrite !map_app, !elem_of_app. left. right. left.
      * exists (events_of_files
                  ((leading_files E (stream w) (new_part w)).1
                   ++ counted_files (stream w) (new_part w) ++ middle)).
        rewrite !events_of_files_app. cbn [events_of_files flat_map app].
        cbn [plain_file snd wf_name wf_content trace].
        by rewrite <- !app_assoc.
    + split; [|done]. intros _. eexists _, _. repeat split; [by left|].
      intros content. apply Hnone. intros f Hin.
      eapply (earlier_files_are_not_checksums _ _ middle []);
        [done|by intros ? ?%elem_of_nil|].
      rewrite elem_of_app. by left.
Qed.

(** C6, as the code has it.  In a run of [finalizePartOnDisk] that
    returns, [checksums.txt] is the last of the written files and no file
    before it has its name; its write is the last event, after the write of
    every other file.  [finalizePartOnDisk] adds no entry for it to the
    checksums it records, and removes none: the key [checksums.txt] is in
    them exactly when it was in the checksums handed in, with the entry it
    had there. *)
Theorem checksums_file_is_written_last checksums additional_columns_substreams
    w l w' :
  finalizePartOnDisk E checksums additional_columns_substreams w = (Ok l, w') →
  (∃ others,
     l.2 = others ++ [mkWrittenFile "checksums.txt" (ChecksumsText l.1)] ∧
     ∀ file, file ∈ others → wf_name file ≠ "checksums.txt") ∧
  (∃ events,
     trace w'
     = trace w ++ events
       ++ [WriteFile "checksums.txt" (ChecksumsText l.1);
           FilePreFinalize "checksums.txt"] ∧
     ∀ filename content,
       WriteFile filename content ∈ events → filename ≠ "checksums.txt") ∧
  l.1 !! "checksums.txt" = checksums !! "checksums.txt" ∧
  ("checksums.txt" ∈ dom l.1 ↔ "checksums.txt" ∈ dom checksums).
Proof.
  intros Hok.
  destruct (finalizePartOnDisk_cases checksums additional_columns_substreams w)
    as [(e & Hlead & Hrun)|(Hlead & middle & p' & Hmiddle & Hrun)];
    [congruence|].
  cbv zeta in Hrun.
  destruct (default_codec (stream w)) as [codec|]; [|congruence].
  rewrite Hrun in Hok. injection Hok as <- <-. cbn [fst snd trace].
  set (files := ((leading_files E (stream w) (new_part w)).1
                 ++ counted_files (stream w) (new_part w) ++ middle)
                ++ [plain_file DEFAULT_COMPRESSION_CODEC_FILE_NAME
                      (CodecDescText codec)]).
  assert (∀ f, f ∈ files → wf_name f.2 ≠ "checksums.txt") as Hnames.
  { intros f Hin. eapply earlier_files_are_not_checksums; [done| |done].
    by intros ? ->%list_elem_of_singleton. }
  assert (checksums_of_files E files checksums !! "checksums.txt"
          = checksums !! "checksums.txt") as Hlookup.
  { apply checksums_of_files_other. intros f Hin _. by apply Hnames. }
  split; [|split; [|split]].
  - exists (map snd files). split; [by rewrite map_app|].
    intros file (f & -> & Hin)%elem_of_map. by apply Hnames.
  - exists (events_of_files files). split; [by rewrite events_of_files_app|].
    intros filename content (hashed & Hin)%elem_of_events_of_files.
    by apply Hnames in Hin.
  - done.
  - rewrite !elem_of_dom. split; intros [checksum Hfound]; exists checksum.
    + etrans; [symmetry; exact Hlookup|exact Hfound].
    + etrans; [exact Hlookup|exact Hfound].
Qed.

End Files.

(** ** Finalization as a whole *)

Section Finalization.

Context (E : Collaborators).

Lemma bind_inv_ok {A B} (m : M A) (k : A → M B) w b w' :
  bind m k w = (Ok b, w') →
  ∃ a w1, m w = (Ok a, w1) ∧ k a w1 = (Ok b, w').
Proof.
  unfold bind. destruct (m w) as [[a|e] w1]; [|done].
  intros Hk. by exists a, w1.
Qed.

(** What a returned [finalizePartAsync] has done: it has run
    [finalizePartOnDisk] for the same stream, the handle holds the files
    that run has written, and the part has the row count of the stream. *)
Lemma finalizePartAsync_inv sync total_columns_list additional_column_checksums
    additional_columns_substreams w h w' :
  finalizePartAsync E sync total_columns_list additional_column_checksums
    additional_columns_substreams w = (Ok h, w') →
  ∃ checksums files w1 l w2,
    stream w1 = stream w ∧
    finalizePartOnDisk E checksums additional_columns_substreams w1
    = (Ok l, w2) ∧
    h = mkFinalizer (Some (mkImpl files l.2 sync)) ∧
    DataPart.rows_count (new_part w') = rows_count (stream w).
Proof.
  unfold finalizePartAsync. intros Hrun.
  repeat (apply bind_inv_ok in Hrun as (? & ? & ? & Hrun); cbv beta zeta in Hrun).
  unfold get_trace, get_part, get_stream, emit, ret in *.
  repeat match goal with
         | H : (Ok _, _) = (Ok _, _) |- _ => injection H as <- <-
         end.
  match goal with
  | H : finalizePartOnDisk E (?r).2 _ ?w1 = (Ok ?l, ?w2) |- _ =>
      exists (r.2), (r.1), w1, l, w2
  end.
  split; [|split; [done|split; [done|]]].
  - match goal with
    | H : (if reset_columns _ then _ else _) _ = _ |- _ =>
        destruct (reset_columns _);
        [destruct (removeEmptyColumnsFromPart _ _ _ _ _) as [[[? ?] ?] ?];
         unfold bind, modify_part in H|];
        by injection H as <- <-
    end.
  - unfold when, modify_part, ret in *.
    repeat match goal with
           | H : (Ok _, _) = (Ok _, _) |- _ => injection H as <- <-
           | H : (if ?c then _ else _) _ = (Ok _, _) |- _ => destruct c
           | H : match ?o with Some _ => _ | None => _ end _ = (Ok _, _) |- _ =>
               destruct o
           | H : _ = (Ok _, _) |- _ => progress cbv beta in H
           end.
    all: cbn [new_part stream add_events].
    all: match goal with
         | |- context [DataPart.set_rows_count _ (new_part ?w)] =>
             destruct (new_part w)
         end.
    all: reflexivity.
Qed.

(** C1.  A handle returned by [finalizePartAsync] owns an [Impl].  Whatever
    its owner calls afterwards, only the first call takes effect: it runs
    [Impl::finish] or [Impl::cancel] and leaves the handle empty, and every
    later [finish] or [cancel], like the destructor, does nothing.  A handle
    destroyed without any call cancels, which cancels the column writer
    and every written file and does nothing else: no file is finalized. *)
Theorem handle_is_single_use sync total_columns_list additional_column_checksums
    additional_columns_substreams w0 h w1 :
  finalizePartAsync E sync total_columns_list additional_column_checksums
    additional_columns_substreams w0 = (Ok h, w1) →
  ∃ i,
    impl h = Some i ∧
    (∀ c, impl (call_handle c h).1 = None) ∧
    (∀ c c' w, (call_handle c' (call_handle c h).1).2 w = (Ok tt, w)) ∧
    ∀ w,
      (∀ calls, Finalizer_life (CallFinish :: calls) h w = Impl_finish i w) ∧
      (∀ calls, Finalizer_life (CallCancel :: calls) h w = Impl_cancel i w) ∧
      Finalizer_life [] h w = Impl_cancel i w ∧
      Impl_cancel i w
      = (Ok tt,
         add_events
           (WriterCancel
              :: map (λ file, FileCancel (wf_name file)) (written_files i))
           w).
Proof.
  intros (checksums & files & w' & l & w'' & _ & _ & -> & _)%finalizePartAsync_inv.
  eexists. split; [reflexivity|].
  split; [by intros []|]. split; [by intros [] []|].
  intros w. split; [|split; [|split]].
  - intros calls. apply Finalizer_life_finish.
  - intros calls. apply Finalizer_life_cancel.
  - reflexivity.
  - apply Impl_cancel_run.
Qed.

Lemma finally_nothing {A} (m : M A) w : finally m (ret tt) w = m w.
Proof. unfold finally, ret. by destruct (m w). Qed.

(** C10.  [finalizePart] does, and returns or throws, exactly what calling
    [finalizePartAsync] with the same arguments and then [finish] on the
    returned handle does. *)
Theorem finalizePart_is_async_then_finish sync total_columns_list
    additional_column_checksums additional_columns_substreams w :
  finalizePart E sync total_columns_list additional_column_checksums
    additional_columns_substreams w
  = finalizePart_described E sync total_columns_list additional_column_checksums
      additional_columns_substreams w.
Proof.
  unfold finalizePart, finalizePart_described, bind.
  destruct (finalizePartAsync _ _ _ _ _ _) as [[h|e] w1]; [|done].
  apply finally_nothing.
Qed.

(** ** The row counter *)







End Finalization.

(** ** TTL bookkeeping *)

Lemma set_ttl_infos_twice previous t (p : Part) :
  DataPart.set_ttl_infos t (DataPart.set_ttl_infos previous p)
  = DataPart.set_ttl_infos t p.
Proof. by destruct p. Qed.

Lemma ttl_infos_set t (p : Part) :
  DataPart.ttl_infos (DataPart.set_ttl_infos t p) = t.
Proof. by destruct p. Qed.

(** C8.  Whatever the rule algorithms are, [TTLCalcTransform::finalize]
    gives the part what the algorithms put, one after the other, into TTL
    infos that start empty; the infos the part had before have no part in
    the result. *)
Theorem finalize_replaces_ttl_infos {A} `{ITTLAlgorithm A}
    (algorithms : list A) (data_part : Part) :
  (∃ emptied,
     DataPart.ttl_infos emptied = TTLInfos_default ∧
     TTLCalcTransform_finalize algorithms data_part
     = fold_left (λ part algorithm, finalize algorithm part) algorithms emptied) ∧
  ∀ previous,
    TTLCalcTransform_finalize algorithms
      (DataPart.set_ttl_infos previous data_part)
    = TTLCalcTransform_finalize algorithms data_part.
Proof.
  split.
  - exists (DataPart.set_ttl_infos TTLInfos_default data_part).
    split; [apply ttl_infos_set|done].
  - intros previous. unfold TTLCalcTransform_finalize.
    by rewrite set_ttl_infos_twice.
Qed.

Section Bookkeeping.

Context (evaluate : TTLDescription → Block → list (time_t * bool)).

Lemma observe_app rows rows' info :
  observe (rows ++ rows') info = observe rows' (observe rows info).
Proof. unfold observe. by rewrite fold_left_app. Qed.

Lemma observe_no_match rows info :
  (∀ row, row ∈ rows → row.2 = false) → observe rows info = info.
Proof.
  induction rows as [|row rows IH] using rev_ind; intros Hrows; [done|].
  rewrite observe_app. rewrite IH.
  - unfold observe. simpl. rewrite (Hrows row); [done|].
    rewrite elem_of_app. right. left.
  - intros row' Hin. apply Hrows. rewrite elem_of_app. by left.
Qed.

Lemma execute_after_stream chunk chunks a :
  TTLUpdateInfoAlgorithm_execute evaluate chunk (after_stream evaluate chunks a)
  = after_stream evaluate (chunks ++ [chunk]) a.
Proof.
  unfold TTLUpdateInfoAlgorithm_execute, after_stream, seen_rows. simpl.
  rewrite flat_map_app. simpl. rewrite app_nil_r, observe_app.
  destruct (decide (chunk = [])) as [->|Hchunk].
  - by rewrite !bool_decide_eq_true_2.
  - by rewrite !bool_decide_eq_false_2.
Qed.

Lemma after_no_stream a : after_stream evaluate [] a = a.
Proof. by destruct a. Qed.

Lemma execute_all_reads block (algorithms : list TTLUpdateInfoAlgorithm) :
  execute_all (H := TTLUpdateInfoAlgorithm_ITTLAlgorithm evaluate)
    algorithms block
  = (map (TTLUpdateInfoAlgorithm_execute evaluate block) algorithms, block).
Proof.
  induction algorithms as [|a algorithms IH]; [done|].
  simpl. by rewrite IH.
Qed.

Lemma consume_all chunks seen (algorithms : list TTLUpdateInfoAlgorithm) :
  fold_left
    (λ algs chunk,
       (TTLCalcTransform_consume (H := TTLUpdateInfoAlgorithm_ITTLAlgorithm evaluate)
          chunk algs).1)
    chunks (map (after_stream evaluate seen) algorithms)
  = map (after_stream evaluate (seen ++ chunks)) algorithms.
Proof.
  revert seen. induction chunks as [|chunk chunks IH]; intros seen; simpl.
  - by rewrite app_nil_r.
  - unfold TTLCalcTransform_consume at 2. rewrite execute_all_reads.
    cbn [fst]. rewrite map_map.
    rewrite (map_ext _ (after_stream evaluate (seen ++ [chunk])))
      by (intros a; apply execute_after_stream).
    rewrite IH. by rewrite <- app_assoc.
Qed.

(** The transform, over its whole life, finalizes the algorithms it created
    as they are after the stream. *)
Lemma TTLCalcTransform_life_run metadata current_time force chunks data_part :
  TTLCalcTransform_life evaluate metadata current_time force chunks data_part
  = TTLCalcTransform_finalize
      (H := TTLUpdateInfoAlgorithm_ITTLAlgorithm evaluate)
      (map (after_stream evaluate chunks)
         (TTLCalcTransform_new metadata data_part current_time force))
      data_part.
Proof.
  unfold TTLCalcTransform_life, TTLCalcTransform_run.
  set (algorithms := TTLCalcTransform_new _ _ _ _).
  rewrite <- (map_id algorithms) at 1.
  rewrite (map_ext id (after_stream evaluate []))
    by (intros a; by rewrite after_no_stream).
  rewrite consume_all. simpl.
  unfold TTLCalcTransform_generate. rewrite execute_all_reads. cbn [fst].
  f_equal. rewrite map_map. apply map_ext. intros a.
  unfold TTLUpdateInfoAlgorithm_execute. by simpl.
Qed.

(** *** What the algorithms leave in the part *)

Lemma same_place_at a b t :
  same_place a b →
  TTLInfos_at (ttl_update_field a) (ttl_update_key a) t
  = TTLInfos_at (ttl_update_field b) (ttl_update_key b) t.
Proof.
  intros [Hfield [Htable|Hkey]].
  - rewrite <- Hfield, Htable. done.
  - by rewrite Hfield, Hkey.
Qed.

Lemma finalize_same_place a b (p : Part) :
  same_place a b →
  TTLInfos_at (ttl_update_field b) (ttl_update_key b)
    (DataPart.ttl_infos (TTLUpdateInfoAlgorithm_finalize a p))
  = new_ttl_info a.
Proof.
  intros Hplace. rewrite <- (same_place_at a b) by done.
  unfold TTLUpdateInfoAlgorithm_finalize. rewrite ttl_infos_set.
  unfold subscript.
  destruct (ttl_update_field a); simpl; unfold subscript;
    by rewrite ?lookup_insert_eq.
Qed.

Lemma finalize_other_place a b (p : Part) :
  ¬ same_place a b →
  TTLInfos_at (ttl_update_field b) (ttl_update_key b)
    (DataPart.ttl_infos (TTLUpdateInfoAlgorithm_finalize a p))
  = TTLInfos_at (ttl_update_field b) (ttl_update_key b) (DataPart.ttl_infos p).
Proof.
  intros Hplace. unfold TTLUpdateInfoAlgorithm_finalize. rewrite ttl_infos_set.
  unfold same_place in Hplace.
  destruct (ttl_update_field a) eqn:Ha, (ttl_update_field b) eqn:Hb;
    simpl; try done; unfold subscript.
  all: try (rewrite lookup_insert_ne; [done|]; intros Hkey; apply Hplace; auto).
  exfalso. apply Hplace. auto.
Qed.

(** After the algorithms have finalized, the place of each holds the bounds
    of the last algorithm that writes there. *)
Lemma finalize_all_at (algorithms : list TTLUpdateInfoAlgorithm) (p : Part) a :
  a ∈ algorithms →
  ∃ a', a' ∈ algorithms ∧ same_place a' a ∧
    TTLInfos_at (ttl_update_field a) (ttl_update_key a)
      (DataPart.ttl_infos
         (fold_left (λ part algorithm, TTLUpdateInfoAlgorithm_finalize algorithm part)
            algorithms p))
    = new_ttl_info a'.
Proof.
  induction algorithms as [|x algorithms IH] using rev_ind; intros Hin.
  { by apply elem_of_nil in Hin. }
  rewrite fold_left_app. simpl.
  destruct (decide (same_place x a)) as [Hplace|Hplace].
  - exists x. split; [rewrite elem_of_app; right; left|].
    split; [done|]. by apply finalize_same_place.
  - rewrite finalize_other_place by done.
    apply elem_of_app in Hin as [Hin|Hin].
    + destruct (IH Hin) as (a' & ? & ? & ?). exists a'.
      split; [rewrite elem_of_app; by left|done].
    + apply list_elem_of_singleton in Hin as ->.
      exfalso. apply Hplace. split; auto.
Qed.

(** After [TTLCalcTransform::finalize] the keyed entries of the part are
    those the algorithms have put: an entry of a rule that is no longer
    configured is gone. *)
Lemma finalize_records_only_the_algorithms
    (algorithms : list TTLUpdateInfoAlgorithm) (p : Part) field key info :
  field ≠ TABLE_TTL →
  TTLInfos_recorded field key
    (DataPart.ttl_infos
       (TTLCalcTransform_finalize
          (H := TTLUpdateInfoAlgorithm_ITTLAlgorithm evaluate) algorithms p))
  = Some info →
  ∃ a, a ∈ algorithms ∧ ttl_update_field a = field ∧ ttl_update_key a = key
       ∧ new_ttl_info a = info.
Proof.
  intros Hfield. unfold TTLCalcTransform_finalize.
  induction algorithms as [|x algorithms IH] using rev_ind.
  { simpl. rewrite ttl_infos_set. by destruct field. }
  rewrite fold_left_app. cbn [fold_left finalize
    TTLUpdateInfoAlgorithm_ITTLAlgorithm].
  unfold TTLUpdateInfoAlgorithm_finalize at 1. rewrite ttl_infos_set.
  intros Hrecorded.
  assert ((ttl_update_field x = field ∧ ttl_update_key x = key
           ∧ new_ttl_info x = info)
          ∨ TTLInfos_recorded field key
              (DataPart.ttl_infos
                 (fold_left
                    (λ part algorithm,
                       finalize (ITTLAlgorithm := TTLUpdateInfoAlgorithm_ITTLAlgorithm evaluate)
                         algorithm part)
                    algorithms (DataPart.set_ttl_infos TTLInfos_default p)))
            = Some info) as [(? & ? & ?)|Hbefore].
  { destruct (ttl_update_field x) eqn:Hx, field; try done;
      cbn [TTLInfos_recorded rows_where_ttl group_by_ttl columns_ttl moves_ttl
           recompression_ttl] in Hrecorded |- *; auto.
    all: rewrite lookup_insert in Hrecorded.
    all: destruct (decide (ttl_update_key x = key)); [left|right]; try done.
    all: by injection Hrecorded. }
  - exists x. split; [rewrite elem_of_app; right; left|done].
  - destruct (IH Hbefore) as (a & ? & ?). exists a.
    split; [rewrite elem_of_app; by left|done].
Qed.

(** Each algorithm of the transform is given the bounds the part has at
    its place, and starts from them unless forced. *)
Lemma TTLCalcTransform_new_seed metadata data_part current_time force a :
  a ∈ TTLCalcTransform_new metadata data_part current_time force →
  old_ttl_info a
  = TTLInfos_at (ttl_update_field a) (ttl_update_key a)
      (DataPart.ttl_infos data_part) ∧
  new_ttl_info a = (if force then NoBounds else old_ttl_info a).
Proof.
  unfold TTLCalcTransform_new.
  rewrite !elem_of_app, !elem_of_map.
  intros Hin.
  repeat match goal with H : _ ∨ _ |- _ => destruct H end.
  - destruct (getRowsTTL metadata); [|by apply elem_of_nil in H].
    by apply list_elem_of_singleton in H as ->.
  - by destruct H as (rule & -> & _).
  - by destruct H as (rule & -> & _).
  - destruct (hasAnyColumnTTL metadata); [|by apply elem_of_nil in H].
    by apply elem_of_map in H as (rule & -> & _).
  - by destruct H as (rule & -> & _).
  - by destruct H as (rule & -> & _).
Qed.

(** C9.  Over the life of the transform (created for a part, shown the
    batches, finalized), for every rule algorithm it creates.  Without
    force the algorithm starts from the bounds the part had at its place,
    and if no row of any batch matches any rule the part has the same
    bounds there afterwards.  With force the part has there the bounds of
    the matching rows of the stream alone, counted from nothing: what the
    part had before does not enter. *)
Theorem ttl_bounds_are_seeded_unless_forced metadata current_time chunks
    data_part :
  (∀ a,
     a ∈ TTLCalcTransform_new metadata data_part current_time false →
     new_ttl_info a
     = TTLInfos_at (ttl_update_field a) (ttl_update_key a)
         (DataPart.ttl_infos data_part)) ∧
  ((∀ description chunk row,
      chunk ∈ chunks → row ∈ evaluate description chunk → row.2 = false) →
   ∀ a,
     a ∈ TTLCalcTransform_new metadata data_part current_time false →
     TTLInfos_at (ttl_update_field a) (ttl_update_key a)
       (DataPart.ttl_infos
          (TTLCalcTransform_life evaluate metadata current_time false chunks
             data_part))
     = TTLInfos_at (ttl_update_field a) (ttl_update_key a)
         (DataPart.ttl_infos data_part)) ∧
  (∀ a,
     a ∈ TTLCalcTransform_new metadata data_part current_time true →
     ∃ a',
       a' ∈ TTLCalcTransform_new metadata data_part current_time true ∧
       same_place a' a ∧
       TTLInfos_at (ttl_update_field a) (ttl_update_key a)
         (DataPart.ttl_infos
            (TTLCalcTransform_life evaluate metadata current_time true chunks
               data_part))
       = observe (seen_rows evaluate (description a') chunks) NoBounds).
Proof.
  assert (∀ force a,
            a ∈ TTLCalcTransform_new metadata data_part current_time force →
            ∃ a',
              a' ∈ TTLCalcTransform_new metadata data_part current_time force ∧
              same_place a' a ∧
              TTLInfos_at (ttl_update_field a) (ttl_update_key a)
                (DataPart.ttl_infos
                   (TTLCalcTransform_life evaluate metadata current_time force
                      chunks data_part))
              = observe (seen_rows evaluate (description a') chunks)
                  (new_ttl_info a')) as Hlife.
  { intros force a Hin. rewrite TTLCalcTransform_life_run.
    unfold TTLCalcTransform_finalize.
    destruct (finalize_all_at
                (map (after_stream evaluate chunks)
                   (TTLCalcTransform_new metadata data_part current_time force))
                (DataPart.set_ttl_infos TTLInfos_default data_part)
                (after_stream evaluate chunks a))
      as (a'' & (a' & -> & Hin')%elem_of_map & Hplace & Hat).
    { apply elem_of_map. by exists a. }
    exists a'. split; [done|]. split; [exact Hplace|exact Hat]. }
  split; [|split].
  - intros a Hin. by apply TTLCalcTransform_new_seed in Hin as [<- ->].
  - intros Hnone a Hin.
    destruct (Hlife false a Hin) as (a' & Hin' & Hplace & ->).
    rewrite observe_no_match.
    + apply TTLCalcTransform_new_seed in Hin' as [Hold ->].
      rewrite Hold. by apply same_place_at.
    + unfold seen_rows. intros row Hrow.
      apply list_elem_of_In, in_flat_map in Hrow as (chunk & Hchunk & Hrow).
      destruct (bool_decide (chunk = [])); [done|].
      eapply Hnone; by apply list_elem_of_In.
  - intros a Hin.
    destruct (Hlife true a Hin) as (a' & Hin' & Hplace & ->).
    exists a'. split; [done|]. split; [done|].
    by apply TTLCalcTransform_new_seed in Hin' as [_ ->].
Qed.

End Bookkeeping.

(** ** Writing batches *)

Section Writing.

Context (E : Collaborators).

Lemma writeImpl_run block permutation w :
  writeImpl E block permutation w =
    match Block_checkNumberOfRows block with
    | Throw e => (Throw e, w)
    | Ok _ =>
        if (Block_rows block =? 0)%N then (Ok tt, w)
        else
          let s := stream w in
          (Ok tt,
           mkWorld (trace w ++ [WriterWrite block permutation]) (new_part w)
             (mkStream (columns_list s) (default_codec s) (reset_columns s)
                (metadata_snapshot_version s)
                (if reset_columns s
                 then SerializationInfos_add E block (new_serialization_infos s)
                 else new_serialization_infos s)
                (size_t_add (rows_count s) (Block_rows block))))
    end.
Proof.
  unfold writeImpl, bind, lift.
  destruct (Block_checkNumberOfRows block) as [[]|e]; [|done].
  destruct (Block_rows block =? 0)%N; [done|].
  unfold emit, get_stream, when, modify_stream, ret, add_events.
  cbn [stream trace new_part].
  destruct (stream w) as [cl dc rc mv nsi rows]. cbn.
  by destruct rc.
Qed.

Lemma write_all_cons batch batches w :
  write_all E (batch :: batches) w =
    match writeImpl E batch.1 batch.2 w with
    | (Ok _, w1) => write_all E batches w1
    | (Throw e, w1) => (Throw e, w1)
    end.
Proof. reflexivity. Qed.

Lemma batches_with_rows_cons batch batches :
  batches_with_rows (batch :: batches) =
    if (Block_rows batch.1 =? 0)%N then batches_with_rows batches
    else batch :: batches_with_rows batches.
Proof.
  unfold batches_with_rows. rewrite filter_cons.
  destruct (N.eqb_spec (Block_rows batch.1) 0).
  - by rewrite decide_False by (intros H; by apply H).
  - by rewrite decide_True.
Qed.


(** X2.  The serialization infos of the stream gather the batches that have
    rows only when the stream resets the columns; otherwise they stay as
    they were. *)
Theorem serialization_infos_follow_reset_columns batches w w' :
  write_all E batches w = (Ok tt, w') →
  reset_columns (stream w') = reset_columns (stream w) ∧
  new_serialization_infos (stream w')
  = if reset_columns (stream w) then
      fold_left (λ infos batch, SerializationInfos_add E batch.1 infos)
        (batches_with_rows batches) (new_serialization_infos (stream w))
    else new_serialization_infos (stream w).
Proof.
  revert w. induction batches as [|batch batches IH]; intros w.
  - intros [= <-]. by destruct (reset_columns _).
  - rewrite write_all_cons, writeImpl_run, batches_with_rows_cons.
    destruct (Block_checkNumberOfRows batch.1) as [[]|e]; [|done].
    destruct (Block_rows batch.1 =? 0)%N; [apply IH|].
    intros [-> ->]%IH. cbn [stream reset_columns new_serialization_infos].
    by destruct (reset_columns (stream w)).
Qed.


End Writing.

(** ** [finalizePartAsync], listed *)

Section AsyncListed.

Context (E : Collaborators).

Lemma finalizePartOnDisk_stream checksums additional_columns_substreams w :
  stream (finalizePartOnDisk E checksums additional_columns_substreams w).2
  = stream w.
Proof.
  destruct (finalizePartOnDisk_cases E checksums additional_columns_substreams w)
    as [(e & Hlead & Hrun)|(Hlead & middle & p' & Hmiddle & Hrun)].
  - by rewrite Hrun.
  - cbv zeta in Hrun. destruct (default_codec (stream w)); by rewrite Hrun.
Qed.

Lemma finalizePartAsync_run sync total_columns_list additional_column_checksums
    additional_columns_substreams w :
  finalizePartAsync E sync total_columns_list additional_column_checksums
    additional_columns_substreams w
  = finalizePartAsync_outcome E sync total_columns_list
      additional_column_checksums additional_columns_substreams w.
Proof.
  unfold finalizePartAsync, finalizePartAsync_outcome,
    finalizePartAsync_prepared.
  unfold bind at 1 2 3 4 5. unfold get_trace at 1, emit at 1, get_part at 1,
    get_stream at 1. cbv beta iota zeta. cbn [new_part stream trace add_events].
  destruct (reset_columns (stream w)).
  - destruct (removeEmptyColumnsFromPart _ _ _ _ _) as [[[files cols] infos] cs].
    unfold bind at 1 2. unfold modify_part at 1, ret at 1.
    cbn [new_part stream trace fst snd].
    unfold bind at 1.
    pose proof (finalizePartOnDisk_stream cs additional_columns_substreams
      {| trace := trace w ++ [WriterFillChecksums];
         new_part := DataPart.setColumns cols infos
                       (metadata_snapshot_version (stream w)) (new_part w);
         stream := stream w |}) as Hstream.
    destruct (finalizePartOnDisk _ _ _ _) as [[l|e] w2]; [|done].
    cbn [snd stream] in Hstream.
    unfold finalizePartAsync_assigned.
    unfold bind, modify_part, get_trace, get_part, when, emit, ret, add_events.
    cbn [new_part stream trace fst snd].
    destruct (DataPart.storage_enable_index_granularity_compression _);
      [destruct (IndexGranularity_optimize _ _)|].
    all: destruct (releaseIndexColumns _ _); cbn [new_part stream trace].
    all: destruct (bool_decide _); cbn [new_part stream trace].
    all: destruct (default_codec _); reflexivity.
  - unfold ret at 1. cbn [fst snd]. unfold bind at 1.
    pose proof (finalizePartOnDisk_stream
      (add_projections E (DataPart.projection_parts (new_part w))
         (erase_all
            (fillChecksums E (trace w) (default ∅ additional_column_checksums)).2
            (fillChecksums E (trace w) (default ∅ additional_column_checksums)).1))
      additional_columns_substreams
      {| trace := trace w ++ [WriterFillChecksums];
         new_part := new_part w;
         stream := stream w |}) as Hstream.
    destruct (finalizePartOnDisk _ _ _ _) as [[l|e] w2]; [|done].
    cbn [snd stream] in Hstream.
    unfold finalizePartAsync_assigned.
    unfold bind, modify_part, get_trace, get_part, when, emit, ret, add_events.
    cbn [new_part stream trace fst snd].
    destruct (DataPart.storage_enable_index_granularity_compression _);
      [destruct (IndexGranularity_optimize _ _)|].
    all: destruct (releaseIndexColumns _ _); cbn [new_part stream trace].
    all: destruct (bool_decide _); cbn [new_part stream trace].
    all: destruct (default_codec _); reflexivity.
Qed.

End AsyncListed.

Section Async.

Context (E : Collaborators).

(** *** The fields of the part after the assignments *)

Ltac assigned_fields p :=
  unfold finalizePartAsync_assigned;
  destruct p as [n u ip fv ec pa mm sp pp ti si co cs mv rc ex mt ch bd bu ig
                 ix dc csz];
  cbn;
  repeat match goal with
         | |- context [if ?c then _ else _] => destruct c; cbn
         | |- context [match ?o with Some _ => _ | None => _ end] =>
             destruct o; cbn
         end; reflexivity.

Lemma assigned_rows_count s t checksums p :
  DataPart.rows_count (finalizePartAsync_assigned E s t checksums p)
  = rows_count s.
Proof. assigned_fields p. Qed.

Lemma assigned_checksums s t checksums p :
  DataPart.checksums (finalizePartAsync_assigned E s t checksums p) = checksums.
Proof. assigned_fields p. Qed.

Lemma assigned_bytes_on_disk s t checksums p :
  DataPart.bytes_on_disk (finalizePartAsync_assigned E s t checksums p)
  = getTotalSizeOnDisk E checksums.
Proof. assigned_fields p. Qed.

Lemma assigned_bytes_uncompressed_on_disk s t checksums p :
  DataPart.bytes_uncompressed_on_disk
    (finalizePartAsync_assigned E s t checksums p)
  = getTotalSizeUncompressedOnDisk E checksums.
Proof. assigned_fields p. Qed.

Lemma assigned_modification_time s t checksums p :
  DataPart.modification_time (finalizePartAsync_assigned E s t checksums p)
  = time E t.
Proof. assigned_fields p. Qed.

Lemma assigned_existing_rows_count s t checksums p :
  DataPart.existing_rows_count (finalizePartAsync_assigned E s t checksums p)
  = Some (default (rows_count s) (DataPart.existing_rows_count p)).
Proof.
  unfold finalizePartAsync_assigned.
  destruct p as [n u ip fv ec pa mm sp pp ti si co cs mv rc existing mt ch bd
                 bu ig ix dc csz].
  cbn.
  destruct ec; [destruct (IndexGranularity_optimize _ _)|].
  all: destruct (releaseIndexColumns _ _); cbn.
  all: destruct existing; cbn.
  all: destruct (default_codec s); reflexivity.
Qed.

Lemma assigned_default_codec s t checksums p :
  DataPart.default_codec (finalizePartAsync_assigned E s t checksums p)
  = match default_codec s with
    | Some codec => Some codec
    | None => DataPart.default_codec p
    end.
Proof. assigned_fields p. Qed.

End Async.

Section Async.

Context (E : Collaborators).

Lemma events_of_files_opening files :
  events_of_files files = flat_map opening_events (map snd files).
Proof.
  unfold events_of_files. induction files as [|f files IH]; [done|].
  simpl. by rewrite IH.
Qed.

Lemma middle_files_names columns_substreams p f :
  f ∈ middle_files columns_substreams p →
  f.1 = false ∧
  wf_name f.2 ∈ [COLUMNS_SUBSTREAMS_FILE_NAME; METADATA_VERSION_FILE_NAME].
Proof.
  unfold middle_files. destruct (bool_decide _); cbn [app];
    repeat first [rewrite elem_of_cons | rewrite elem_of_nil].
  all: intros Hin;
    repeat match goal with H : _ ∨ _ |- _ => destruct H end;
    subst; simpl; auto; done.
Qed.

(** A run of [finalizePartOnDisk] that returns: the files it has written
    before [checksums.txt], of which the hashed ones are in the checksums. *)
Lemma finalizePartOnDisk_returned checksums additional_columns_substreams w l w' :
  finalizePartOnDisk E checksums additional_columns_substreams w = (Ok l, w') →
  ∃ columns_substreams codec,
    let middle := middle_files columns_substreams (new_part w) in
    let files :=
      (leading_files E (stream w) (new_part w)).1
      ++ counted_files (stream w) (new_part w) ++ middle
      ++ [plain_file DEFAULT_COMPRESSION_CODEC_FILE_NAME (CodecDescText codec)] in
    (leading_files E (stream w) (new_part w)).2 = None ∧
    default_codec (stream w) = Some codec ∧
    l.1 = checksums_of_files E files checksums ∧
    l.2 = map snd files ++ [mkWrittenFile "checksums.txt" (ChecksumsText l.1)] ∧
    trace w' = trace w ++ flat_map opening_events l.2 ∧
    stream w' = stream w ∧
    new_part w'
    = if bool_decide (columns_substreams = []) then new_part w
      else DataPart.setColumnsSubstreams columns_substreams (new_part w).
Proof.
  rewrite finalizePartOnDisk_run. unfold finalizePartOnDisk_outcome. cbv zeta.
  destruct (leading_files E (stream w) (new_part w)) as [first [e|]] eqn:Hlead;
    cbn [fst snd]; [done|].
  destruct (default_codec (stream w)) as [codec|] eqn:Hcodec; [|done].
  intros [= <- <-].
  match goal with
  | |- context [bool_decide (?subs = [])] => exists subs, codec
  end.
  unfold middle_files. cbn [fst snd trace stream new_part].
  split; [done|]. split; [done|]. split; [|split; [|split; [|split]]].
  - by rewrite <- !app_assoc.
  - rewrite <- !app_assoc. rewrite !map_app. cbn [map snd plain_file].
    by rewrite <- !app_assoc.
  - rewrite events_of_files_opening. by rewrite <- !app_assoc.
  - done.
  - done.
Qed.

Lemma finalizePartAsync_returned sync total_columns_list
    additional_column_checksums additional_columns_substreams w h w' :
  finalizePartAsync E sync total_columns_list additional_column_checksums
    additional_columns_substreams w = (Ok h, w') →
  let prepared :=
    finalizePartAsync_prepared E total_columns_list
      additional_column_checksums w in
  ∃ l w2,
    finalizePartOnDisk E prepared.1.2 additional_columns_substreams
      (mkWorld (trace w ++ [WriterFillChecksums]) prepared.2 (stream w))
    = (Ok l, w2) ∧
    h = mkFinalizer (Some (mkImpl prepared.1.1 l.2 sync)) ∧
    w' = mkWorld (trace w2 ++ [WriterReleaseIndexColumns])
           (finalizePartAsync_assigned E (stream w) (trace w2) l.1 (new_part w2))
           (stream w2).
Proof.
  rewrite finalizePartAsync_run. unfold finalizePartAsync_outcome. cbv zeta.
  destruct (finalizePartOnDisk _ _ _ _) as [[l|e] w2]; [|done].
  intros [= <- <-]. by exists l, w2.
Qed.


(** Setting the columns anew leaves the other fields of the part. *)
Lemma prepared_part total_columns_list additional_column_checksums w :
  let p := new_part w in
  let p1 :=
    (finalizePartAsync_prepared E total_columns_list
       additional_column_checksums w).2 in
  p1 = p
  ∨ ∃ columns infos version, p1 = DataPart.setColumns columns infos version p.
Proof.
  unfold finalizePartAsync_prepared. cbv zeta.
  destruct (reset_columns (stream w)); [|by left].
  destruct (removeEmptyColumnsFromPart _ _ _ _ _) as [[[files cols] infos] cs].
  right. by eexists _, _, _.
Qed.

(** X4.  Between its two calls on the column writer, [finalizePartAsync]
    opens exactly the files it hands to the handle, in that order: none is
    opened and forgotten, and none is finalized, synced or cancelled yet. *)
Theorem every_opened_file_is_in_the_handle sync total_columns_list
    additional_column_checksums additional_columns_substreams w h w' :
  finalizePartAsync E sync total_columns_list additional_column_checksums
    additional_columns_substreams w = (Ok h, w') →
  ∃ i,
    impl h = Some i ∧
    trace w'
    = trace w
      ++ WriterFillChecksums
         :: flat_map opening_events (written_files i)
      ++ [WriterReleaseIndexColumns].
Proof.
  intros (l & w2 & Hdisk & -> & ->)%finalizePartAsync_returned.
  apply finalizePartOnDisk_returned in Hdisk
    as (subs & codec & _ & _ & _ & _ & Htrace & _).
  eexists. split; [reflexivity|].
  cbn [trace written_files] in *. rewrite Htrace.
  by rewrite <- !app_assoc.
Qed.

(** X5.  The checksums recorded in the part are the ones [checksums.txt]
    holds, and the sizes of the part on disk are computed from them. *)
Theorem part_holds_the_written_checksums sync total_columns_list
    additional_column_checksums additional_columns_substreams w h w' :
  finalizePartAsync E sync total_columns_list additional_column_checksums
    additional_columns_substreams w = (Ok h, w') →
  let recorded := DataPart.checksums (new_part w') in
  ∃ i others,
    impl h = Some i ∧
    written_files i
    = others ++ [mkWrittenFile "checksums.txt" (ChecksumsText recorded)] ∧
    DataPart.bytes_on_disk (new_part w') = getTotalSizeOnDisk E recorded ∧
    DataPart.bytes_uncompressed_on_disk (new_part w')
    = getTotalSizeUncompressedOnDisk E recorded.
Proof.
  intros (l & w2 & Hdisk & -> & ->)%finalizePartAsync_returned.
  apply finalizePartOnDisk_returned in Hdisk
    as (subs & codec & _ & _ & _ & Hfiles & _).
  cbn [new_part]. rewrite assigned_checksums, assigned_bytes_on_disk,
    assigned_bytes_uncompressed_on_disk.
  eexists _, _. split; [reflexivity|]. split; [exact Hfiles|]. done.
Qed.

Lemma existing_rows_count_setColumns columns infos version p :
  DataPart.existing_rows_count (DataPart.setColumns columns infos version p)
  = DataPart.existing_rows_count p.
Proof. by destruct p. Qed.

Lemma existing_rows_count_setColumnsSubstreams v p :
  DataPart.existing_rows_count (DataPart.setColumnsSubstreams v p)
  = DataPart.existing_rows_count p.
Proof. by destruct p. Qed.

(** X6.  A part that has no count of existing rows gets the number of rows
    written; one that has a count keeps it. *)
Theorem existing_rows_count_is_kept_or_set sync total_columns_list
    additional_column_checksums additional_columns_substreams w h w' :
  finalizePartAsync E sync total_columns_list additional_column_checksums
    additional_columns_substreams w = (Ok h, w') →
  DataPart.existing_rows_count (new_part w')
  = match DataPart.existing_rows_count (new_part w) with
    | Some existing => Some existing
    | None => Some (rows_count (stream w))
    end.
Proof.
  intros (l & w2 & Hdisk & -> & ->)%finalizePartAsync_returned.
  apply finalizePartOnDisk_returned in Hdisk
    as (subs & codec & _ & _ & _ & _ & _ & _ & Hpart).
  cbn [new_part stream] in *. rewrite assigned_existing_rows_count.
  assert (DataPart.existing_rows_count (new_part w2)
          = DataPart.existing_rows_count (new_part w)) as ->.
  { rewrite Hpart. destruct (bool_decide _);
      rewrite ?existing_rows_count_setColumnsSubstreams.
    all: destruct (prepared_part total_columns_list
                     additional_column_checksums w)
           as [->|(cols & infos & version & ->)];
      by rewrite ?existing_rows_count_setColumns. }
  by destruct (DataPart.existing_rows_count (new_part w)).
Qed.

(** X7.  A finalization that returns had a codec: the part is given the
    codec of the stream, the one the codec file describes. *)
Theorem part_takes_the_codec_of_the_stream sync total_columns_list
    additional_column_checksums additional_columns_substreams w h w' :
  finalizePartAsync E sync total_columns_list additional_column_checksums
    additional_columns_substreams w = (Ok h, w') →
  ∃ codec,
    default_codec (stream w) = Some codec ∧
    DataPart.default_codec (new_part w') = Some codec ∧
    ∃ i,
      impl h = Some i ∧
      mkWrittenFile DEFAULT_COMPRESSION_CODEC_FILE_NAME (CodecDescText codec)
      ∈ written_files i.
Proof.
  intros (l & w2 & Hdisk & -> & ->)%finalizePartAsync_returned.
  apply finalizePartOnDisk_returned in Hdisk
    as (subs & codec & _ & Hcodec & _ & Hfiles & _).
  cbn [new_part stream] in *. exists codec. split; [done|].
  rewrite assigned_default_codec, Hcodec. split; [done|].
  eexists. split; [reflexivity|]. cbn [written_files]. rewrite Hfiles.
  rewrite !map_app. cbn [map snd plain_file]. set_solver.
Qed.

End Async.

(** ** Strings as lists of characters *)

Lemma chars_app (a b : string) :
  chars (a +:+ b)
  = chars a ++ chars b.
Proof. induction a as [|c a IH]; simpl; [done|]. by rewrite IH. Qed.

Lemma chars_inj (a b : string) :
  chars a = chars b → a = b.
Proof.
  intros Heq. rewrite <- (Strings.String.string_of_list_ascii_of_string a),
    <- (Strings.String.string_of_list_ascii_of_string b). by rewrite Heq.
Qed.

Lemma append_suffix_inj (a b suffix : string) :
  a +:+ suffix = b +:+ suffix → a = b.
Proof.
  intros Heq. apply chars_inj.
  apply (f_equal chars) in Heq.
  rewrite !chars_app in Heq.
  by apply app_inv_tail in Heq.
Qed.

Lemma last_of_projection_name (name : string) :
  last (chars (name +:+ ".proj")) = Some "j"%char.
Proof.
  rewrite chars_app. cbn [chars].
  by rewrite !last_app.
Qed.

Lemma last_of_minmax_file_name (column : string) :
  last (chars (minmax_file_name column)) = Some "x"%char.
Proof.
  unfold minmax_file_name. rewrite !chars_app.
  cbn [chars]. by rewrite !last_app.
Qed.

Section Async.

Context (E : Collaborators).

(** *** The names of the written files *)

Lemma leading_name_is_no_projection_name filename name :
  leading_name filename → filename ≠ name +:+ ".proj".
Proof.
  intros Hlead Heq.
  pose proof (last_of_projection_name name) as Hlast. rewrite <- Heq in Hlast.
  destruct Hlead as [->|[->|[->|[column ->]]]];
    [by cbv in Hlast..|].
  rewrite last_of_minmax_file_name in Hlast. discriminate.
Qed.

Lemma written_name_is_no_projection_name s p middle codec f name :
  (∀ f, f ∈ middle →
     f.1 = false ∧
     wf_name f.2 ∈ [COLUMNS_SUBSTREAMS_FILE_NAME; METADATA_VERSION_FILE_NAME]) →
  f ∈ (leading_files E s p).1 ++ counted_files s p ++ middle
      ++ [plain_file DEFAULT_COMPRESSION_CODEC_FILE_NAME (CodecDescText codec)] →
  wf_name f.2 ≠ name +:+ ".proj".
Proof.
  intros Hmiddle Hin Heq.
  pose proof (last_of_projection_name name) as Hlast. rewrite <- Heq in Hlast.
  assert (f ∈ counted_files s p ++ middle → False) as Hlater.
  { intros Hin'. eapply counted_and_middle_names in Hin'; [|done].
    repeat (apply elem_of_cons in Hin' as [Hin'|Hin'];
            [rewrite Hin' in Hlast; by cbv in Hlast|]).
    by apply elem_of_nil in Hin'. }
  rewrite !elem_of_app in Hin. destruct Hin as [Hin|[Hin|[Hin|Hin]]].
  - apply leading_files_names in Hin.
    by eapply leading_name_is_no_projection_name.
  - apply Hlater. rewrite elem_of_app. by left.
  - apply Hlater. rewrite elem_of_app. by right.
  - apply list_elem_of_singleton in Hin. subst f. by cbv in Hlast.
Qed.

(** *** The checksums handed to [finalizePartOnDisk] *)

Lemma lookup_erase_all names (checksums : Checksums) key :
  erase_all names checksums !! key
  = if decide (key ∈ names) then None else checksums !! key.
Proof.
  unfold erase_all.
  assert (∀ l (cs : Checksums),
            fold_left (λ cs name, delete name cs) l cs !! key
            = if decide (key ∈ l) then None else cs !! key) as Hfold.
  { induction l as [|name l IH]; intros cs; simpl.
    - destruct (decide (key ∈ [])) as [Hin|]; [by apply elem_of_nil in Hin|done].
    - rewrite IH.
      destruct (decide (key ∈ l)) as [Hin|Hnotin],
        (decide (key ∈ name :: l)) as [Hin'|Hnotin']; try done.
      + exfalso. apply Hnotin'. by right.
      + apply elem_of_cons in Hin' as [->|?]; [|done].
        by rewrite lookup_delete_eq.
      + rewrite lookup_delete_ne; [done|].
        intros ->. apply Hnotin'. left. }
  rewrite Hfold.
  destruct (decide (key ∈ elements names)) as [Hin|Hnotin],
    (decide (key ∈ names)) as [Hin'|Hnotin']; try done.
  - exfalso. by apply Hnotin', elem_of_elements.
  - exfalso. by apply Hnotin, elem_of_elements.
Qed.

Lemma add_projections_snoc projections projection checksums :
  add_projections E (projections ++ [projection]) checksums
  = addFile (projection.1 +:+ ".proj") (getTotalSizeOnDisk E projection.2)
      (getTotalChecksumUInt128 E projection.2)
      (add_projections E projections checksums).
Proof. unfold add_projections. by rewrite fold_left_app. Qed.

Lemma add_projections_other projections checksums key :
  (∀ projection, projection ∈ projections → projection.1 +:+ ".proj" ≠ key) →
  add_projections E projections checksums !! key = checksums !! key.
Proof.
  induction projections as [|projection projections IH] using rev_ind;
    intros Hother; [done|].
  rewrite add_projections_snoc. unfold addFile.
  rewrite lookup_insert_ne.
  - apply IH. intros ? ?. apply Hother. rewrite elem_of_app. by left.
  - apply Hother. rewrite elem_of_app. right. left.
Qed.

Lemma add_projections_recorded projections checksums name projection :
  NoDup (map fst projections) →
  (name, projection) ∈ projections →
  add_projections E projections checksums !! (name +:+ ".proj")
  = Some (mkChecksum (getTotalSizeOnDisk E projection)
            (getTotalChecksumUInt128 E projection)).
Proof.
  induction projections as [|final projections IH] using rev_ind;
    intros Hnodup Hin; [by apply elem_of_nil in Hin|].
  rewrite add_projections_snoc. unfold addFile.
  rewrite map_app in Hnodup. apply NoDup_app in Hnodup as (Hnodup & Hlast & _).
  apply elem_of_app in Hin as [Hin|Hin].
  - rewrite lookup_insert_ne; [by apply IH|].
    intros Heq%append_suffix_inj.
    apply (Hlast name); [|simpl; rewrite Heq; left].
    apply elem_of_map. by exists (name, projection).
  - apply list_elem_of_singleton in Hin as <-. cbn [fst snd].
    by rewrite lookup_insert_eq.
Qed.

End Async.

Section OnDisk.

Context (E : Collaborators).

Lemma minmax_exception_is_no_codec_exception p :
  minmax_exception p ≠ codec_exception p.
Proof. unfold minmax_exception, codec_exception. intros [=]. Qed.

(** Every run of [finalizePartOnDisk], returning or not: the files it has
    opened are the leading ones, then files with the later names; a run that
    returns hands back their buffers and the checksums of the hashed ones. *)
Lemma finalizePartOnDisk_written checksums additional_columns_substreams w :
  let run := finalizePartOnDisk E checksums additional_columns_substreams w in
  let lead := leading_files E (stream w) (new_part w) in
  ∃ rest,
    trace run.2 = trace w ++ events_of_files (lead.1 ++ rest) ∧
    (∀ f, f ∈ rest → wf_name f.2 ∈ later_names) ∧
    (∀ f, f ∈ rest → f.1 = true →
       wf_name f.2 ∈ ["count.txt"; "ttl.txt"; SERIALIZATION_FILE_NAME]) ∧
    match run.1 with
    | Ok l =>
        lead.2 = None ∧
        l.1 = checksums_of_files E (lead.1 ++ rest) checksums ∧
        l.2 = map snd (lead.1 ++ rest) ∧
        ∃ rest', rest
                 = hashed_file "count.txt"
                     (IntText (Z.of_N (rows_count (stream w)))) :: rest'
    | Throw e =>
        (lead.2 = Some e ∧ rest = [])
        ∨ (lead.2 = None ∧ default_codec (stream w) = None ∧
           e = codec_exception (new_part w) ∧
           ∃ rest', rest
                    = hashed_file "count.txt"
                        (IntText (Z.of_N (rows_count (stream w)))) :: rest')
    end.
Proof.
  cbv zeta.
  destruct (finalizePartOnDisk_cases E checksums additional_columns_substreams w)
    as [(e & Hlead & Hrun)|(Hlead & middle & p' & Hmiddle & Hrun)];
    cbv zeta in *;
    set (lead := leading_files E (stream w) (new_part w)) in *.
  { exists []. rewrite Hrun. cbn [fst snd trace]. rewrite app_nil_r.
    split; [done|]. split; [by intros ? ?%elem_of_nil|].
    split; [by intros ? ?%elem_of_nil|]. by left. }
  assert (∀ tail f,
            (∀ f, f ∈ tail →
               f.1 = false ∧
               (wf_name f.2 = DEFAULT_COMPRESSION_CODEC_FILE_NAME
                ∨ wf_name f.2 = "checksums.txt")) →
            f ∈ counted_files (stream w) (new_part w) ++ middle ++ tail →
            wf_name f.2 ∈ later_names ∧
            (f.1 = true →
             wf_name f.2 ∈ ["count.txt"; "ttl.txt"; SERIALIZATION_FILE_NAME]))
    as Hnames.
  { intros tail f Htail Hin. rewrite !elem_of_app in Hin.
    destruct Hin as [Hin|[Hin|Hin]].
    - split.
      + eapply later_files_names with (s := stream w) (p := new_part w);
          [exact Hmiddle|].
        rewrite elem_of_app. by left.
      + revert Hin. unfold counted_files.
        destruct (TTLInfos_empty _), (bool_decide _); cbn [app].
        all: repeat first [rewrite elem_of_cons | rewrite elem_of_nil].
        all: intros Hin Hhashed;
          repeat match goal with H : _ ∨ _ |- _ => destruct H end;
          subst; simpl in *; auto; done.
    - split.
      + eapply later_files_names with (s := stream w) (p := new_part w);
          [exact Hmiddle|].
        rewrite elem_of_app. by right.
      + apply Hmiddle in Hin as [Hplain _]. congruence.
    - apply Htail in Hin as [Hplain Hname]. split; [|congruence].
      unfold later_names. destruct Hname as [->| ->];
        repeat first [by left | right]. }
  assert (∃ rest', counted_files (stream w) (new_part w)
                   = hashed_file "count.txt"
                       (IntText (Z.of_N (rows_count (stream w)))) :: rest')
    as [counted' Hcounted] by (by eexists).
  destruct (default_codec (stream w)) as [codec|]; rewrite Hrun; cbn [fst snd trace].
  - exists (counted_files (stream w) (new_part w) ++ middle
            ++ [plain_file DEFAULT_COMPRESSION_CODEC_FILE_NAME (CodecDescText codec);
                plain_file "checksums.txt"
                  (ChecksumsText
                     (checksums_of_files E
                        ((lead.1 ++ counted_files (stream w) (new_part w)
                          ++ middle)
                         ++ [plain_file DEFAULT_COMPRESSION_CODEC_FILE_NAME
                               (CodecDescText codec)])
                        checksums))]).
    assert (∀ f, f ∈ [plain_file DEFAULT_COMPRESSION_CODEC_FILE_NAME
                        (CodecDescText codec);
                      plain_file "checksums.txt"
                        (ChecksumsText
                           (checksums_of_files E
                              ((lead.1 ++ counted_files (stream w) (new_part w)
                                ++ middle)
                               ++ [plain_file DEFAULT_COMPRESSION_CODEC_FILE_NAME
                                     (CodecDescText codec)])
                              checksums))] →
                 f.1 = false ∧
                 (wf_name f.2 = DEFAULT_COMPRESSION_CODEC_FILE_NAME
                  ∨ wf_name f.2 = "checksums.txt")) as Htail.
    { intros f Hin.
      repeat (apply elem_of_cons in Hin as [->|Hin]; [simpl; auto|]).
      by apply elem_of_nil in Hin. }
    split; [|split; [|split; [|split; [|split; [|split]]]]].
    + f_equal. f_equal. rewrite <- !app_assoc. done.
    + intros f Hin. by apply (Hnames _ f Htail).
    + intros f Hin. by apply (Hnames _ f Htail).
    + done.
    + rewrite !checksums_of_files_app. cbn [checksums_of_files fold_left
        plain_file fst]. done.
    + f_equal. rewrite <- !app_assoc. done.
    + rewrite Hcounted. by eexists.
  - exists (counted_files (stream w) (new_part w) ++ middle).
    split; [done|]. split; [|split].
    + intros f Hin. eapply (Hnames []); [by intros ? ?%elem_of_nil|].
      by rewrite app_nil_r.
    + intros f Hin. eapply (Hnames []); [by intros ? ?%elem_of_nil|].
      by rewrite app_nil_r.
    + right. repeat split; [done|]. rewrite Hcounted. by eexists.
Qed.

End OnDisk.

Section OnDisk.

Context (E : Collaborators).

Lemma later_name_is_no_leading_name filename :
  filename ∈ later_names → ¬ leading_name filename.
Proof. intros Hin Hlead. by apply leading_name_is_no_later_name in Hlead. Qed.

Lemma elem_of_map_snd (files : list (bool * WrittenFile)) file :
  file ∈ map snd files ↔ ∃ hashed, (hashed, file) ∈ files.
Proof.
  rewrite elem_of_map. split.
  - intros ([hashed f] & -> & Hin). by exists hashed.
  - intros (hashed & Hin). by exists (hashed, file).
Qed.

(** X8.  A part that is a projection has none of the leading files: the first
    file written is [count.txt], and only a missing codec can stop the
    run. *)
Theorem projection_part_starts_with_the_count checksums
    additional_columns_substreams w :
  DataPart.isProjectionPart (new_part w) = true →
  let run := finalizePartOnDisk E checksums additional_columns_substreams w in
  (∀ e, run.1 = Throw e →
     default_codec (stream w) = None ∧ e = codec_exception (new_part w)) ∧
  ∃ files,
    trace run.2
    = trace w
      ++ flat_map opening_events
           (mkWrittenFile "count.txt" (IntText (Z.of_N (rows_count (stream w))))
              :: files) ∧
    ∀ file, file ∈ files → ¬ leading_name (wf_name file).
Proof.
  intros Hproj. cbv zeta.
  destruct (finalizePartOnDisk_written E checksums additional_columns_substreams w)
    as (rest & Htrace & Hnames & _ & Hrun).
  assert (leading_files E (stream w) (new_part w) = ([], None)) as Hlead
    by (unfold leading_files; by rewrite Hproj).
  rewrite Hlead in *. cbn [fst snd app] in *.
  assert (∃ rest', rest = hashed_file "count.txt"
                            (IntText (Z.of_N (rows_count (stream w)))) :: rest')
    as [rest' ->].
  { destruct (finalizePartOnDisk _ _ _ _).1 as [l|e].
    - by destruct Hrun as (_ & _ & _ & ?).
    - destruct Hrun as [[? _]|(_ & _ & _ & ?)]; done. }
  split.
  - intros e He. rewrite He in Hrun.
    destruct Hrun as [[? _]|(_ & ? & ? & _)]; done.
  - exists (map snd rest'). split.
    + by rewrite Htrace, events_of_files_opening.
    + intros file (hashed & Hin)%elem_of_map_snd.
      apply later_name_is_no_leading_name.
      apply (Hnames (hashed, file)). by right.
Qed.

(** X9.  Under a format version older than custom partitioning there is no
    partition file, no min-max file and no file of source parts, and the
    min-max index is never checked: only a missing codec can stop the run. *)
Theorem old_format_has_no_partition_files checksums
    additional_columns_substreams w :
  DataPart.storage_format_version (new_part w)
  < MERGE_TREE_DATA_MIN_FORMAT_VERSION_WITH_CUSTOM_PARTITIONING E →
  let run := finalizePartOnDisk E checksums additional_columns_substreams w in
  (∀ e, run.1 = Throw e →
     default_codec (stream w) = None ∧ e = codec_exception (new_part w)) ∧
  ∃ files,
    trace run.2 = trace w ++ flat_map opening_events files ∧
    ∀ file, file ∈ files →
      wf_name file ≠ PARTITION_FILE_NAME ∧
      wf_name file ≠ SourcePartsSetForPatch_FILENAME ∧
      ∀ column, wf_name file ≠ minmax_file_name column.
Proof.
  intros Hversion. cbv zeta.
  destruct (finalizePartOnDisk_written E checksums additional_columns_substreams w)
    as (rest & Htrace & Hnames & _ & Hrun).
  assert ((leading_files E (stream w) (new_part w)).2 = None ∧
          ∀ f, f ∈ (leading_files E (stream w) (new_part w)).1 →
               wf_name f.2 = UUID_FILE_NAME) as [Hnone Hlead].
  { unfold leading_files, non_projection_files.
    destruct (DataPart.isProjectionPart _);
      [split; [done|by intros ? ?%elem_of_nil]|].
    destruct (_ >=? _) eqn:Hge; [lia|]. split; [done|].
    intros f. destruct (bool_decide _); cbn [fst].
    - by intros ?%elem_of_nil.
    - by intros ->%list_elem_of_singleton. }
  split.
  - intros e He. rewrite He in Hrun.
    destruct Hrun as [[? _]|(_ & ? & ? & _)]; [congruence|done].
  - eexists. split; [by rewrite Htrace, events_of_files_opening|].
    intros file (hashed & Hin)%elem_of_map_snd.
    apply elem_of_app in Hin as [Hin|Hin].
    + apply Hlead in Hin. cbn [snd] in Hin. rewrite Hin.
      split; [done|]. split; [done|]. intros column.
      destruct (minmax_file_name_starts column) as [tail ->]. done.
    + apply Hnames, later_name_is_no_leading_name in Hin. cbn [snd] in Hin.
      unfold leading_name in Hin.
      split; [|split; [|intros column]]; intros Heq; apply Hin; eauto.
Qed.

(** X10.  [uuid.txt] is written exactly for a part that is not a projection and
    has a UUID; it is then the first file, it holds that UUID, and a run
    that returns has its size and hash in the checksums. *)
Theorem uuid_file_is_for_parts_with_a_uuid checksums
    additional_columns_substreams w :
  let run := finalizePartOnDisk E checksums additional_columns_substreams w in
  let p := new_part w in
  let named :=
    DataPart.isProjectionPart p = false ∧ DataPart.uuid p ≠ UUID_Nil in
  ∃ files,
    trace run.2 = trace w ++ flat_map opening_events files ∧
    (∀ content,
       mkWrittenFile UUID_FILE_NAME content ∈ files ↔
       named ∧ content = UUIDText (DataPart.uuid p)) ∧
    (named →
     head files = Some (mkWrittenFile UUID_FILE_NAME (UUIDText (DataPart.uuid p))) ∧
     ∀ l, run.1 = Ok l →
       l.1 !! UUID_FILE_NAME
       = Some (mkChecksum (hashing_count E (UUIDText (DataPart.uuid p)))
                 (hashing_getHash E (UUIDText (DataPart.uuid p))))).
Proof.
  cbv zeta.
  destruct (finalizePartOnDisk_written E checksums additional_columns_substreams w)
    as (rest & Htrace & Hnames & _ & Hrun).
  set (p := new_part w) in *. set (s := stream w) in *.
  assert (∃ others,
            (leading_files E s p).1
            = (if bool_decide (DataPart.isProjectionPart p = false
                               ∧ DataPart.uuid p ≠ UUID_Nil)
               then [hashed_file UUID_FILE_NAME (UUIDText (DataPart.uuid p))]
               else []) ++ others ∧
            ∀ f, f ∈ others → wf_name f.2 ≠ UUID_FILE_NAME)
    as (others & Hlead & Hothers).
  { unfold leading_files, non_projection_files.
    assert (∀ x, x ∈ minmax_files (hyperrectangle (DataPart.minmax_idx p)) →
                 wf_name x.2 ≠ UUID_FILE_NAME) as Hmm.
    { intros x (side & -> & _)%elem_of_minmax_files. cbn [snd hashed_file wf_name].
      destruct (minmax_file_name_starts side.1) as [tail ->]. done. }
    destruct (DataPart.isProjectionPart p).
    { exists []. rewrite (bool_decide_eq_false_2 (true = false ∧ _))
        by (by intros [? _]).
      split; [done|by intros ? ?%elem_of_nil]. }
    destruct (decide (DataPart.uuid p = UUID_Nil)) as [Hnil|Hnamed].
    - rewrite (bool_decide_eq_true_2 _ Hnil).
      rewrite (bool_decide_eq_false_2 (false = false ∧ _))
        by (by intros [_ ?]).
      eexists. split; [reflexivity|].
      destruct (_ >=? _), (initialized (DataPart.minmax_idx p)),
        (rows_count s =? 0)%N, (DataPart.partition p),
        (bool_decide (DataPart.source_parts p = []));
        cbn [fst app]; intros f;
        repeat first [rewrite elem_of_app | rewrite elem_of_cons
                     | rewrite elem_of_nil].
      all: intros Hin;
        repeat match goal with H : _ ∨ _ |- _ => destruct H end;
        subst; simpl; try done.
      all: by apply Hmm.
    - rewrite (bool_decide_eq_false_2 _ Hnamed).
      rewrite (bool_decide_eq_true_2 (false = false ∧ _)) by done.
      destruct (_ >=? _), (initialized (DataPart.minmax_idx p)),
        (rows_count s =? 0)%N; cbn [fst app].
      all: eexists; split; [reflexivity|].
      all: destruct (DataPart.partition p),
             (bool_decide (DataPart.source_parts p = []));
        cbn [fst app]; intros f;
        repeat first [rewrite elem_of_app | rewrite elem_of_cons
                     | rewrite elem_of_nil].
      all: intros Hin;
        repeat match goal with H : _ ∨ _ |- _ => destruct H end;
        subst; simpl; try done.
      all: by apply Hmm. }
  assert (∀ f, f ∈ rest → wf_name f.2 ≠ UUID_FILE_NAME) as Hrest.
  { intros f Hin%Hnames Heq. rewrite Heq in Hin.
    apply later_name_is_no_leading_name in Hin. apply Hin. by left. }
  rewrite Hlead in Htrace, Hrun.
  eexists. split; [by rewrite Htrace, events_of_files_opening|].
  split.
  - intros content. rewrite elem_of_map_snd. split.
    + intros (hashed & Hin). rewrite !elem_of_app in Hin.
      destruct Hin as [[Hin|Hin]|Hin].
      * destruct (bool_decide _) eqn:Hnamed; [|by apply elem_of_nil in Hin].
        apply bool_decide_eq_true in Hnamed.
        apply list_elem_of_singleton in Hin. by injection Hin as _ ->.
      * by apply Hothers in Hin.
      * by apply Hrest in Hin.
    + intros [Hnamed ->]. exists true. rewrite !elem_of_app. left. left.
      rewrite bool_decide_eq_true_2 by done. left.
  - intros Hnamed. rewrite bool_decide_eq_true_2 in * by done.
    split; [done|]. intros l Hl. rewrite Hl in Hrun.
    destruct Hrun as (_ & -> & _).
    match goal with
    | |- checksums_of_files E ?files checksums !! _ = _ =>
        destruct (checksums_of_files_hashed E files checksums UUID_FILE_NAME
                    (UUIDText (DataPart.uuid p)))
          as (content & Hin & ->)
    end.
    { rewrite !elem_of_app. left. left. left. }
    rewrite !elem_of_app in Hin. destruct Hin as [[Hin|Hin]|Hin].
    + apply list_elem_of_singleton in Hin. by injection Hin as ->.
    + by apply Hothers in Hin.
    + by apply Hrest in Hin.
Qed.

End OnDisk.

Section OnDisk.

Context (E : Collaborators).

(** An entry of the checksums is the one handed in, unless a hashed file
    has its name. *)
Lemma checksums_of_files_lookup files checksums key :
  checksums_of_files E files checksums !! key = checksums !! key
  ∨ ∃ content,
      hashed_file key content ∈ files ∧
      checksums_of_files E files checksums !! key
      = Some (mkChecksum (hashing_count E content) (hashing_getHash E content)).
Proof.
  induction files as [|f files IH] using rev_ind; [by left|].
  rewrite checksums_of_files_snoc. destruct f as [hashed [name content]].
  cbn [fst snd wf_name wf_content].
  destruct hashed.
  - rewrite lookup_set_size_and_hash.
    destruct (decide (name = key)) as [->|Hne].
    + right. exists content. split; [|done]. rewrite elem_of_app. right. left.
    + destruct IH as [IH|(c & Hin & IH)]; [by left|].
      right. exists c. split; [|done]. rewrite elem_of_app. by left.
  - destruct IH as [IH|(c & Hin & IH)]; [by left|].
    right. exists c. split; [|done]. rewrite elem_of_app. by left.
Qed.

(** X11.  [finalizePartOnDisk] adds to the checksums the entries of the files it
    hashes and touches nothing else: no entry is deleted, the files written
    plainly get none, and an entry that changed is that of a written file. *)
Theorem only_hashed_files_get_checksums checksums
    additional_columns_substreams w l w' :
  finalizePartOnDisk E checksums additional_columns_substreams w = (Ok l, w') →
  dom checksums ⊆ dom l.1 ∧
  (∀ key, key ∈ plain_names → l.1 !! key = checksums !! key) ∧
  ∀ key, l.1 !! key ≠ checksums !! key →
    ∃ content,
      mkWrittenFile key content ∈ l.2 ∧
      l.1 !! key
      = Some (mkChecksum (hashing_count E content) (hashing_getHash E content)).
Proof.
  intros Hok.
  destruct (finalizePartOnDisk_written E checksums additional_columns_substreams w)
    as (rest & _ & Hnames & Hhashed & Hrun).
  rewrite Hok in Hrun. cbn [fst] in Hrun.
  destruct Hrun as (_ & Hl1 & Hl2 & _).
  set (files := (leading_files E (stream w) (new_part w)).1 ++ rest) in *.
  split; [|split].
  - intros key [entry Hentry]%elem_of_dom. apply elem_of_dom. rewrite Hl1.
    destruct (checksums_of_files_lookup files checksums key)
      as [->|(content & _ & ->)]; by eexists.
  - intros key Hplain. rewrite Hl1. apply checksums_of_files_other.
    intros f Hin Hf Hname. apply elem_of_app in Hin as [Hin|Hin].
    + apply leading_files_names, leading_name_is_no_later_name in Hin.
      apply Hin. rewrite Hname. unfold plain_names in Hplain.
      repeat (apply elem_of_cons in Hplain as [->|Hplain];
              [repeat first [by left | right]|]).
      by apply elem_of_nil in Hplain.
    + apply Hhashed in Hin; [|done]. rewrite Hname in Hin.
      unfold plain_names in Hplain.
      repeat (apply elem_of_cons in Hplain as [->|Hplain];
              [repeat (apply elem_of_cons in Hin as [Hin|Hin];
                       [by cbv in Hin|]);
               by apply elem_of_nil in Hin|]).
      by apply elem_of_nil in Hplain.
  - intros key Hchanged. rewrite Hl1 in *.
    destruct (checksums_of_files_lookup files checksums key)
      as [?|(content & Hin & Hlookup)]; [done|].
    exists content. split; [|done]. rewrite Hl2. apply elem_of_map.
    by exists (hashed_file key content).
Qed.





End OnDisk.

Section Async.

Context (E : Collaborators).





(** X14.  Files are scheduled for removal only by a stream that resets the
    columns: otherwise the handle has none, and its [finish] removes no
    file and leaves the transaction alone. *)
Theorem files_are_removed_only_when_columns_are_reset sync total_columns_list
    additional_column_checksums additional_columns_substreams w h w' :
  finalizePartAsync E sync total_columns_list additional_column_checksums
    additional_columns_substreams w = (Ok h, w') →
  reset_columns (stream w) = false →
  ∃ i,
    impl h = Some i ∧
    files_to_remove_after_finish i = ∅ ∧
    ∀ w0, ∃ events,
      (Finalizer_finish h).2 w0 = (Ok tt, add_events events w0) ∧
      (∀ name, RemoveFile name ∉ events) ∧
      (CommitTransaction ∉ events) ∧ (BeginTransaction ∉ events).
Proof.
  intros (l & w2 & _ & -> & _)%finalizePartAsync_returned Hreset.
  unfold finalizePartAsync_prepared. cbv zeta. rewrite Hreset. cbn [fst snd].
  eexists. split; [reflexivity|]. split; [done|].
  intros w0. eexists. split; [apply Impl_finish_run|].
  unfold finish_events. cbn [files_to_remove_after_finish written_files].
  rewrite bool_decide_eq_true_2 by done. rewrite elements_empty.
  cbn [map app]. rewrite app_nil_r.
  split; [intros name|split].
  all: rewrite elem_of_cons, elem_of_finalize_events.
  all: intros [?|(file & _ & [?|[_ ?]])]; discriminate.
Qed.

(** X15.  The checksums of every projection of the part are folded into the
    checksums of the part, under the name of the projection followed by
    [.proj]. *)
Theorem projections_are_recorded sync total_columns_list
    additional_column_checksums additional_columns_substreams w h w'
    name projection :
  finalizePartAsync E sync total_columns_list additional_column_checksums
    additional_columns_substreams w = (Ok h, w') →
  reset_columns (stream w) = false →
  NoDup (map fst (DataPart.projection_parts (new_part w))) →
  (name, projection) ∈ DataPart.projection_parts (new_part w) →
  DataPart.checksums (new_part w') !! (name +:+ ".proj")
  = Some (mkChecksum (getTotalSizeOnDisk E projection)
            (getTotalChecksumUInt128 E projection)).
Proof.
  intros (l & w2 & Hdisk & -> & ->)%finalizePartAsync_returned Hreset Hnodup Hin.
  revert Hdisk. unfold finalizePartAsync_prepared. cbv zeta. rewrite Hreset.
  cbn [fst snd]. intros Hdisk.
  apply finalizePartOnDisk_returned in Hdisk
    as (subs & codec & _ & _ & -> & _).
  cbn [new_part stream]. rewrite assigned_checksums.
  rewrite checksums_of_files_other; [by apply add_projections_recorded|].
  intros f Hf _. eapply written_name_is_no_projection_name; [|exact Hf].
  apply middle_files_names.
Qed.

(** X16.  A file the column writer asks to remove from the checksums is not in
    the checksums of the part, unless it is written anew during the
    finalization or is the entry of a projection. *)
Theorem removed_checksums_are_not_recorded sync total_columns_list
    additional_column_checksums additional_columns_substreams w h w' name :
  finalizePartAsync E sync total_columns_list additional_column_checksums
    additional_columns_substreams w = (Ok h, w') →
  reset_columns (stream w) = false →
  name ∈ (fillChecksums E (trace w) (default ∅ additional_column_checksums)).2 →
  (∀ projection, projection ∈ DataPart.projection_parts (new_part w) →
     projection.1 +:+ ".proj" ≠ name) →
  (∀ i file, impl h = Some i → file ∈ written_files i → wf_name file ≠ name) →
  DataPart.checksums (new_part w') !! name = None.
Proof.
  intros (l & w2 & Hdisk & -> & ->)%finalizePartAsync_returned Hreset Hremoved
    Hprojections Hwritten.
  revert Hdisk. unfold finalizePartAsync_prepared. cbv zeta. rewrite Hreset.
  cbn [fst snd]. intros Hdisk.
  apply finalizePartOnDisk_returned in Hdisk
    as (subs & codec & _ & _ & Hl1 & Hl2 & _).
  cbn [new_part stream]. rewrite assigned_checksums, Hl1.
  rewrite checksums_of_files_other.
  - rewrite add_projections_other by done.
    rewrite lookup_erase_all. by rewrite decide_True.
  - intros f Hf _. eapply Hwritten; [done|]. cbn [written_files].
    rewrite Hl2, elem_of_app. left. apply elem_of_map. by exists f.
Qed.

End Async.

(** ** What [finish] does to the written files *)










Section Synchronous.

Context (E : Collaborators).


End Synchronous.

Section Names.

Context (E : Collaborators).

Lemma minmax_file_name_inj column column' :
  minmax_file_name column = minmax_file_name column' → column = column'.
Proof.
  unfold minmax_file_name. intros Heq%String.app_inj.
  by apply append_suffix_inj in Heq.
Qed.

Lemma minmax_files_NoDup sides :
  NoDup (map fst sides) →
  NoDup (map (λ f : bool * WrittenFile, wf_name f.2) (minmax_files sides)).
Proof.
  induction sides as [|[column values] sides IH]; intros Hnodup; simpl.
  { apply NoDup_nil_2. }
  simpl in Hnodup. apply NoDup_cons in Hnodup as [Hnotin Hnodup].
  apply NoDup_cons. split; [|by apply IH].
  intros (f & Hname & (side & -> & Hside)%elem_of_minmax_files)%elem_of_map.
  cbn [snd hashed_file wf_name] in Hname.
  apply minmax_file_name_inj in Hname. apply Hnotin.
  apply elem_of_map. exists side. by rewrite Hname.
Qed.

Lemma minmax_files_other_names sides name :
  name ∈ [UUID_FILE_NAME; PARTITION_FILE_NAME; SourcePartsSetForPatch_FILENAME] →
  name ∉ map (λ f : bool * WrittenFile, wf_name f.2) (minmax_files sides).
Proof.
  intros Hname (f & -> & (side & -> & _)%elem_of_minmax_files)%elem_of_map.
  cbn [snd hashed_file wf_name] in Hname.
  destruct (minmax_file_name_starts side.1) as [tail Htail].
  rewrite Htail in Hname.
  repeat (apply elem_of_cons in Hname as [Hname|Hname]; [by cbv in Hname|]).
  by apply elem_of_nil in Hname.
Qed.

Lemma leading_files_NoDup s p :
  NoDup (map fst (hyperrectangle (DataPart.minmax_idx p))) →
  NoDup (map (λ f : bool * WrittenFile, wf_name f.2) (leading_files E s p).1).
Proof.
  intros Hnodup%minmax_files_NoDup.
  pose proof (minmax_files_other_names (hyperrectangle (DataPart.minmax_idx p)))
    as Hother.
  unfold leading_files, non_projection_files.
  destruct (DataPart.isProjectionPart p); [apply NoDup_nil_2|].
  destruct (bool_decide (DataPart.uuid p = UUID_Nil)), (_ >=? _),
    (initialized (DataPart.minmax_idx p)), (rows_count s =? 0)%N,
    (DataPart.partition p), (bool_decide (DataPart.source_parts p = []));
    cbn [fst app map snd hashed_file wf_name].
  all: rewrite ?map_app; cbn [map snd hashed_file wf_name]; rewrite ?app_nil_r.
  all: repeat first
         [ apply NoDup_nil_2
         | exact Hnodup
         | apply NoDup_cons; split
         | apply NoDup_app; split; [|split] ].
  all: try (intros name Hin ->%list_elem_of_singleton; revert Hin; apply Hother;
            repeat first [by left | right]).
  all: try (rewrite ?elem_of_cons, ?elem_of_app, ?elem_of_cons, ?elem_of_nil;
            intros Hin;
            repeat match goal with H : _ ∨ _ |- _ => destruct H end;
            try done;
            match goal with
            | H : _ ∈ map _ (minmax_files _) |- _ =>
                revert H; apply Hother; repeat first [by left | right]
            end).
Qed.

Lemma later_files_NoDup s p columns_substreams (codec : Codec)
    (checksums : Checksums) :
  NoDup (map (λ f : bool * WrittenFile, wf_name f.2)
           (counted_files s p ++ middle_files columns_substreams p
            ++ [plain_file DEFAULT_COMPRESSION_CODEC_FILE_NAME
                  (CodecDescText codec);
                plain_file "checksums.txt" (ChecksumsText checksums)])).
Proof.
  unfold counted_files, middle_files.
  destruct (TTLInfos_empty _), (bool_decide (DataPart.serialization_infos p = ∅)),
    (bool_decide (columns_substreams = [])).
  all: cbn [app map snd fst hashed_file plain_file wf_name].
  all: apply (bool_decide_unpack _); by vm_compute.
Qed.

(** X19.  No file is written twice: the names of the written files are distinct,
    as long as the columns of the min-max index are. *)
Theorem no_file_is_written_twice checksums additional_columns_substreams
    w l w' :
  finalizePartOnDisk E checksums additional_columns_substreams w = (Ok l, w') →
  NoDup (map fst (hyperrectangle (DataPart.minmax_idx (new_part w)))) →
  NoDup (map wf_name l.2).
Proof.
  intros (subs & codec & _ & _ & _ & -> & _)%finalizePartOnDisk_returned Hnodup.
  cbv zeta.
  assert (∀ files : list (bool * WrittenFile),
            map wf_name (map snd files)
            = map (λ f : bool * WrittenFile, wf_name f.2) files) as Hmap.
  { intros files. induction files as [|f files IH]; simpl; congruence. }
  match goal with
  | |- NoDup (map wf_name (map snd (?lead ++ ?counted ++ ?middle ++ [?codec])
                           ++ [mkWrittenFile "checksums.txt" ?content])) =>
      assert (map wf_name (map snd (lead ++ counted ++ middle ++ [codec])
                           ++ [mkWrittenFile "checksums.txt" content])
              = map (λ f : bool * WrittenFile, wf_name f.2)
                  (lead ++ counted ++ middle
                   ++ [codec; plain_file "checksums.txt" content])) as ->
  end.
  { rewrite map_app, Hmap, !map_app. cbn [map snd plain_file wf_name].
    by rewrite <- !app_assoc. }
  rewrite map_app.
  apply NoDup_app. split; [by apply leading_files_NoDup|]. split.
  - intros name (f & -> & Hin%leading_files_names)%elem_of_map
      (f' & Hname & Hin')%elem_of_map.
    apply leading_name_is_no_later_name in Hin. apply Hin. rewrite Hname.
    clear Hin Hname.
    rewrite app_assoc in Hin'. apply elem_of_app in Hin' as [Hin'|Hin'].
    + eapply later_files_names; [|exact Hin']. apply middle_files_names.
    + repeat (apply elem_of_cons in Hin' as [->|Hin'];
              [repeat first [by left | right]|]).
      by apply elem_of_nil in Hin'.
  - apply later_files_NoDup.
Qed.

End Names.

Section Describe.

Context (E : Collaborators).

(** Among the leading files only the first can be [uuid.txt], and it holds
    the UUID of the part. *)
Lemma leading_files_uuid s p f :
  f ∈ (leading_files E s p).1 →
  wf_name f.2 = UUID_FILE_NAME →
  wf_content f.2 = UUIDText (DataPart.uuid p).
Proof.
  unfold leading_files, non_projection_files.
  assert (∀ x, x ∈ minmax_files (hyperrectangle (DataPart.minmax_idx p)) →
               wf_name x.2 ≠ UUID_FILE_NAME) as Hmm.
  { intros x (side & -> & _)%elem_of_minmax_files. cbn [snd hashed_file wf_name].
    destruct (minmax_file_name_starts side.1) as [tail ->]. done. }
  destruct (DataPart.isProjectionPart p); [by intros ?%elem_of_nil|].
  destruct (bool_decide (DataPart.uuid p = UUID_Nil)), (_ >=? _),
    (initialized (DataPart.minmax_idx p)), (rows_count s =? 0)%N,
    (DataPart.partition p), (bool_decide (DataPart.source_parts p = []));
    cbn [fst app];
    repeat first [rewrite elem_of_app | rewrite elem_of_cons
                 | rewrite elem_of_nil].
  all: intros Hin Hname;
    repeat match goal with H : _ ∨ _ |- _ => destruct H end;
    subst; simpl in *; try done.
  all: by apply Hmm in Hname.
Qed.

(** What the files from [count.txt] to the metadata version hold. *)
Lemma later_files_contents s p columns_substreams f :
  f ∈ counted_files s p ++ middle_files columns_substreams p →
  (wf_name f.2 = "columns.txt" →
   wf_content f.2 = NamesAndTypesText (DataPart.columns p)) ∧
  (wf_name f.2 = METADATA_VERSION_FILE_NAME →
   wf_content f.2 = IntText (DataPart.metadata_version p)) ∧
  (wf_name f.2 = SERIALIZATION_FILE_NAME →
   wf_content f.2 = SerializationInfosJSON (DataPart.serialization_infos p)) ∧
  (wf_name f.2 = "ttl.txt" →
   wf_content f.2 = TTLInfosText (DataPart.ttl_infos p)) ∧
  (wf_name f.2 = COLUMNS_SUBSTREAMS_FILE_NAME →
   columns_substreams ≠ [] ∧
   wf_content f.2 = ColumnsSubstreamsText columns_substreams) ∧
  wf_name f.2 ≠ UUID_FILE_NAME.
Proof.
  unfold counted_files, middle_files.
  destruct (TTLInfos_empty _), (bool_decide (DataPart.serialization_infos p = ∅)),
    (bool_decide_reflect (columns_substreams = [])); cbn [app];
    repeat first [rewrite elem_of_app | rewrite elem_of_cons
                 | rewrite elem_of_nil].
  all: intros Hin;
    repeat match goal with H : _ ∨ _ |- _ => destruct H end;
    subst; simpl; repeat split; done.
Qed.

Ltac kept_fields p :=
  unfold finalizePartAsync_assigned;
  destruct p as [n u ip fv ec pa mm sp pp ti si co cs mv rc ex mt ch bd bu ig
                 ix dc csz];
  cbn;
  repeat match goal with
         | |- context [if ?c then _ else _] => destruct c; cbn
         | |- context [match ?o with Some _ => _ | None => _ end] =>
             destruct o; cbn
         end; repeat split; reflexivity.

(** The assignments after [finalizePartOnDisk] leave what the files
    describe. *)
Lemma assigned_keeps s t checksums p :
  let p' := finalizePartAsync_assigned E s t checksums p in
  DataPart.columns p' = DataPart.columns p ∧
  DataPart.metadata_version p' = DataPart.metadata_version p ∧
  DataPart.serialization_infos p' = DataPart.serialization_infos p ∧
  DataPart.ttl_infos p' = DataPart.ttl_infos p ∧
  DataPart.columns_substreams p' = DataPart.columns_substreams p ∧
  DataPart.uuid p' = DataPart.uuid p.
Proof. cbv zeta. kept_fields p. Qed.

Lemma setColumnsSubstreams_keeps v p :
  let p' := DataPart.setColumnsSubstreams v p in
  DataPart.columns p' = DataPart.columns p ∧
  DataPart.metadata_version p' = DataPart.metadata_version p ∧
  DataPart.serialization_infos p' = DataPart.serialization_infos p ∧
  DataPart.ttl_infos p' = DataPart.ttl_infos p ∧
  DataPart.columns_substreams p' = v ∧
  DataPart.uuid p' = DataPart.uuid p.
Proof. by destruct p. Qed.

(** X20.  The files describe the part as [finalizePartAsync] leaves it:
    [columns.txt] and [metadata_version.txt] are always written and hold
    its columns and metadata version, and a file named [serialization.json],
    [ttl.txt], [columns_substreams.txt] or [uuid.txt] holds its
    serialization infos, TTL infos, substreams or UUID. *)
Theorem written_files_describe_the_part sync total_columns_list
    additional_column_checksums additional_columns_substreams w h w' :
  finalizePartAsync E sync total_columns_list additional_column_checksums
    additional_columns_substreams w = (Ok h, w') →
  let p := new_part w' in
  ∃ i,
    impl h = Some i ∧
    mkWrittenFile "columns.txt" (NamesAndTypesText (DataPart.columns p))
    ∈ written_files i ∧
    mkWrittenFile METADATA_VERSION_FILE_NAME
      (IntText (DataPart.metadata_version p))
    ∈ written_files i ∧
    ∀ file, file ∈ written_files i →
      (wf_name file = "columns.txt" →
       wf_content file = NamesAndTypesText (DataPart.columns p)) ∧
      (wf_name file = METADATA_VERSION_FILE_NAME →
       wf_content file = IntText (DataPart.metadata_version p)) ∧
      (wf_name file = SERIALIZATION_FILE_NAME →
       wf_content file
       = SerializationInfosJSON (DataPart.serialization_infos p)) ∧
      (wf_name file = "ttl.txt" →
       wf_content file = TTLInfosText (DataPart.ttl_infos p)) ∧
      (wf_name file = COLUMNS_SUBSTREAMS_FILE_NAME →
       wf_content file
       = ColumnsSubstreamsText (DataPart.columns_substreams p)) ∧
      (wf_name file = UUID_FILE_NAME →
       wf_content file = UUIDText (DataPart.uuid p)).
Proof.
  intros (l & w2 & Hdisk & -> & ->)%finalizePartAsync_returned.
  apply finalizePartOnDisk_returned in Hdisk
    as (subs & codec & _ & _ & _ & Hfiles & _ & _ & Hpart).
  cbv zeta in *. cbn [new_part stream trace written_files] in *.
  set (p1 := (finalizePartAsync_prepared E total_columns_list
                additional_column_checksums w).2) in *.
  destruct (assigned_keeps (stream w) (trace w2) l.1 (new_part w2))
    as (-> & -> & -> & -> & -> & ->).
  assert (DataPart.columns (new_part w2) = DataPart.columns p1 ∧
          DataPart.metadata_version (new_part w2) = DataPart.metadata_version p1 ∧
          DataPart.serialization_infos (new_part w2)
          = DataPart.serialization_infos p1 ∧
          DataPart.ttl_infos (new_part w2) = DataPart.ttl_infos p1 ∧
          (subs ≠ [] → DataPart.columns_substreams (new_part w2) = subs) ∧
          DataPart.uuid (new_part w2) = DataPart.uuid p1)
    as (-> & -> & -> & -> & Hsubs & ->).
  { rewrite Hpart. destruct (bool_decide_reflect (subs = [])); [done|].
    by destruct (setColumnsSubstreams_keeps subs p1) as (-> & -> & -> & -> & -> & ->). }
  eexists. split; [reflexivity|]. cbn [written_files]. rewrite Hfiles.
  split; [|split].
  - rewrite elem_of_app. left. apply elem_of_map_snd. exists false.
    rewrite !elem_of_app. right. left. unfold counted_files.
    rewrite !elem_of_app. right. right. right. left.
  - rewrite elem_of_app. left. apply elem_of_map_snd. exists false.
    rewrite !elem_of_app. right. right. left. unfold middle_files.
    rewrite elem_of_app. right. left.
  - intros file [(hashed & Hin)%elem_of_map_snd|Hin%list_elem_of_singleton]%elem_of_app.
    + assert ((hashed, file)
              ∈ counted_files (stream w) p1 ++ middle_files subs p1 →
              (wf_name file = "columns.txt" →
               wf_content file = NamesAndTypesText (DataPart.columns p1)) ∧
              (wf_name file = METADATA_VERSION_FILE_NAME →
               wf_content file = IntText (DataPart.metadata_version p1)) ∧
              (wf_name file = SERIALIZATION_FILE_NAME →
               wf_content file
               = SerializationInfosJSON (DataPart.serialization_infos p1)) ∧
              (wf_name file = "ttl.txt" →
               wf_content file = TTLInfosText (DataPart.ttl_infos p1)) ∧
              (wf_name file = COLUMNS_SUBSTREAMS_FILE_NAME →
               wf_content file
               = ColumnsSubstreamsText (DataPart.columns_substreams (new_part w2))) ∧
              (wf_name file = UUID_FILE_NAME →
               wf_content file = UUIDText (DataPart.uuid p1))) as Hlater.
      { intros Hin'. apply later_files_contents in Hin'
          as (? & ? & ? & ? & Hfile & ?). cbn [snd] in *.
        repeat split; try done.
        intros Hname. destruct (Hfile Hname) as [Hne ->]. by rewrite Hsubs. }
      rewrite !elem_of_app in Hin. destruct Hin as [Hin|[Hin|[Hin|Hin]]].
      * pose proof (leading_files_uuid _ _ _ Hin) as Huuid.
        apply leading_files_names, leading_name_is_no_later_name in Hin.
        cbn [snd] in *.
        repeat split; try done.
        all: intros Hname; exfalso; apply Hin; rewrite Hname;
          repeat first [by left | right].
      * apply Hlater. rewrite elem_of_app. by left.
      * apply Hlater. rewrite elem_of_app. by right.
      * apply list_elem_of_singleton in Hin. injection Hin as _ ->.
        repeat split; done.
    + subst file. repeat split; done.
Qed.

End Describe.

(** ** [TTLCalcTransform::prepare] *)

Section PrepareProperties.

Context {A : Type} `{ITTLAlgorithm A}.
Context {Status : Type} `{EqDecision Status} (Finished : Status).

Lemma finalize_all_ttl_infos (algorithms : list A) (p q : Part) :
  (∀ a p, finalize a p
          = DataPart.set_ttl_infos (DataPart.ttl_infos (finalize a p)) p) →
  (∀ a p q, DataPart.ttl_infos p = DataPart.ttl_infos q →
            DataPart.ttl_infos (finalize a p) = DataPart.ttl_infos (finalize a q)) →
  DataPart.ttl_infos p = DataPart.ttl_infos q →
  fold_left (λ part algorithm, finalize algorithm part) algorithms p
  = DataPart.set_ttl_infos
      (DataPart.ttl_infos
         (fold_left (λ part algorithm, finalize algorithm part) algorithms q))
      p.
Proof.
  intros Honly Hreads. revert p q.
  induction algorithms as [|a algorithms IH]; intros p q Heq; simpl.
  - rewrite <- Heq. by destruct p.
  - rewrite (IH (finalize a p) (finalize a q)) by by apply Hreads.
    rewrite (Honly a p). by rewrite set_ttl_infos_twice.
Qed.

(** X21.  [prepare] finalizes each time the transform is reported finished; when
    the algorithms only write the TTL infos of the part, and only read
    those, finalizing again changes nothing: the part ends as after one
    [finalize], however often [prepare] is called. *)
Theorem finalizing_again_changes_nothing (algorithms : list A)
    (statuses : list Status) (data_part : Part) :
  (∀ a p, finalize a p
          = DataPart.set_ttl_infos (DataPart.ttl_infos (finalize a p)) p) →
  (∀ a p q, DataPart.ttl_infos p = DataPart.ttl_infos q →
            DataPart.ttl_infos (finalize a p) = DataPart.ttl_infos (finalize a q)) →
  prepare_all Finished statuses algorithms data_part
  = if bool_decide (Finished ∈ statuses)
    then TTLCalcTransform_finalize algorithms data_part
    else data_part.
Proof.
  intros Honly Hreads.
  assert (∀ p, TTLCalcTransform_finalize algorithms
                 (TTLCalcTransform_finalize algorithms p)
               = TTLCalcTransform_finalize algorithms p) as Hagain.
  { intros p. unfold TTLCalcTransform_finalize.
    set (p1 := fold_left _ algorithms (DataPart.set_ttl_infos TTLInfos_default p)).
    rewrite (finalize_all_ttl_infos algorithms
               (DataPart.set_ttl_infos TTLInfos_default p1)
               (DataPart.set_ttl_infos TTLInfos_default p) Honly Hreads)
      by by rewrite !ttl_infos_set.
    fold p1. rewrite set_ttl_infos_twice. by destruct p1. }
  unfold prepare_all. revert data_part.
  induction statuses as [|status statuses IH]; intros data_part; [done|].
  simpl. rewrite IH.
  destruct (decide (status = Finished)) as [->|Hother].
  - rewrite (bool_decide_eq_true_2 (Finished = Finished)) by done.
    rewrite (bool_decide_eq_true_2 (Finished ∈ Finished :: statuses)) by left.
    destruct (bool_decide (Finished ∈ statuses)); [apply Hagain|done].
  - rewrite (bool_decide_eq_false_2 (status = Finished)) by done.
    destruct (decide (Finished ∈ statuses)) as [Hin|Hnotin].
    + rewrite !bool_decide_eq_true_2; [done|by right|done].
    + rewrite !bool_decide_eq_false_2; [done| |done].
      rewrite elem_of_cons. intros [?|?]; done.
Qed.

End PrepareProperties.

(** ** Hexadecimal and dotted text *)

Section WriteHelpersProperties.

Context (writeHexByteLowercase : UInt8 → ascii * ascii).

Lemma sixteen_bytes (uuid : list UInt8) :
  length uuid = 16%nat →
  ∃ b0 b1 b2 b3 b4 b5 b6 b7 b8 b9 b10 b11 b12 b13 b14 b15,
    uuid = [b0; b1; b2; b3; b4; b5; b6; b7; b8; b9; b10; b11; b12; b13; b14; b15].
Proof.
  intros Hlength.
  do 16 (destruct uuid as [|? uuid]; [discriminate|]).
  destruct uuid; [|discriminate]. by eexists _, _, _, _, _, _, _, _, _, _, _, _, _, _, _, _.
Qed.

(** X22.  For the 16 bytes of a UUID, [formatUUID] reads no byte outside them
    and writes no character outside the array; it fills each of the 36
    cells: the digits of the bytes in groups of 4, 2, 2, 2 and 6 bytes with
    a dash between them, the memory being read backwards on a little-endian
    machine. *)
Theorem formatUUID_fills_the_array (little_endian : bool) (uuid : list UInt8) :
  length uuid = 16%nat →
  formatUUID writeHexByteLowercase little_endian uuid
  = Some (map Some
            (UUID_text writeHexByteLowercase
               (if little_endian then reverse uuid else uuid))) ∧
  length (UUID_text writeHexByteLowercase
            (if little_endian then reverse uuid else uuid)) = 36%nat.
Proof.
  intros (b0 & b1 & b2 & b3 & b4 & b5 & b6 & b7 & b8 & b9 & b10 & b11 & b12
          & b13 & b14 & b15 & ->)%sixteen_bytes.
  destruct little_endian.
  all: split.
  all: try (vm_compute; reflexivity).
Qed.

(** X23.  Two UUIDs that have the same text are the same, as long as the two
    digits tell the byte. *)
Theorem formatUUID_is_injective (little_endian : bool) (u v : list UInt8) :
  Inj (=) (=) writeHexByteLowercase →
  length u = 16%nat → length v = 16%nat →
  formatUUID writeHexByteLowercase little_endian u
  = formatUUID writeHexByteLowercase little_endian v →
  u = v.
Proof.
  intros Hinj
    (b0 & b1 & b2 & b3 & b4 & b5 & b6 & b7 & b8 & b9 & b10 & b11 & b12
     & b13 & b14 & b15 & ->)%sixteen_bytes
    (c0 & c1 & c2 & c3 & c4 & c5 & c6 & c7 & c8 & c9 & c10 & c11 & c12
     & c13 & c14 & c15 & ->)%sixteen_bytes.
  assert (∀ a b, (writeHexByteLowercase a).1 = (writeHexByteLowercase b).1 →
                 (writeHexByteLowercase a).2 = (writeHexByteLowercase b).2 →
                 a = b) as Hbyte.
  { intros a b H1 H2. apply Hinj.
    destruct (writeHexByteLowercase a), (writeHexByteLowercase b).
    simpl in *. congruence. }
  destruct little_endian.
  all: intros Heq; vm_compute in Heq.
  all: injection Heq as H0 H1 H2 H3 H4 H5 H6 H7 H9 H10 H11 H12 H14 H15 H16 H17 H19 H20 H21 H22 H24 H25 H26 H27 H28 H29 H30 H31 H32 H33 H34 H35.
  all: repeat f_equal; by apply Hbyte.
Qed.

Lemma append_assoc (a b c : string) : (a +:+ b) +:+ c = a +:+ b +:+ c.
Proof.
  induction a as [|x a IH]; [done|].
  change (String x ((a +:+ b) +:+ c) = String x (a +:+ b +:+ c)).
  by rewrite IH.
Qed.

(** X24.  For an [IPv4] (a [UInt32]) no index is outside the table of 256
    texts: four entries are appended to the buffer, those of the four octets
    from the most significant one, with a dot between them. *)
Theorem writeIPv4Text_prints_the_four_octets (table : list string)
    (ip : Z) (buf : string) :
  0 ≤ ip < 2 ^ 32 →
  length table = 256%nat →
  ∃ a b c d sa sb sc sd,
    ip = a * 2 ^ 24 + b * 2 ^ 16 + c * 2 ^ 8 + d ∧
    (0 ≤ a < 256 ∧ 0 ≤ b < 256 ∧ 0 ≤ c < 256 ∧ 0 ≤ d < 256) ∧
    (table !! Z.to_nat a = Some sa ∧ table !! Z.to_nat b = Some sb ∧
     table !! Z.to_nat c = Some sc ∧ table !! Z.to_nat d = Some sd) ∧
    writeIPv4Text table ip buf
    = Some (buf +:+ sa +:+ "." +:+ sb +:+ "." +:+ sc +:+ "." +:+ sd).
Proof.
  intros Hip Htable.
  set (a := Z.shiftr ip 24). set (b := Z.land (Z.shiftr ip 16) 255).
  set (c := Z.land (Z.shiftr ip 8) 255). set (d := Z.land ip 255).
  assert (a = ip `div` 2 ^ 24) as Ha by (by apply Z.shiftr_div_pow2).
  assert (b = (ip `div` 2 ^ 16) `mod` 2 ^ 8) as Hb.
  { subst b. change 255 with (Z.ones 8).
    by rewrite Z.land_ones, Z.shiftr_div_pow2. }
  assert (c = (ip `div` 2 ^ 8) `mod` 2 ^ 8) as Hc.
  { subst c. change 255 with (Z.ones 8).
    by rewrite Z.land_ones, Z.shiftr_div_pow2. }
  assert (d = ip `mod` 2 ^ 8) as Hd.
  { subst d. change 255 with (Z.ones 8). by rewrite Z.land_ones. }
  assert (0 ≤ a < 256 ∧ 0 ≤ b < 256 ∧ 0 ≤ c < 256 ∧ 0 ≤ d < 256) as Hbounds.
  { rewrite Ha, Hb, Hc, Hd. repeat split; try apply Z.mod_pos_bound;
      try apply Z.div_pos; try apply Z.div_lt_upper_bound; lia. }
  assert (ip = a * 2 ^ 24 + b * 2 ^ 16 + c * 2 ^ 8 + d) as Hsum.
  { rewrite Ha, Hb, Hc, Hd.
    pose proof (Z.div_mod ip (2 ^ 8)). pose proof (Z.div_mod (ip `div` 2 ^ 8) (2 ^ 8)).
    pose proof (Z.div_mod (ip `div` 2 ^ 16) (2 ^ 8)).
    replace (ip `div` 2 ^ 16) with ((ip `div` 2 ^ 8) `div` 2 ^ 8) in *
      by (rewrite Z.div_div by lia; reflexivity).
    replace (ip `div` 2 ^ 24) with (((ip `div` 2 ^ 8) `div` 2 ^ 8) `div` 2 ^ 8)
      by (rewrite !Z.div_div by lia; reflexivity).
    lia. }
  assert (∀ x, 0 ≤ x < 256 → ∃ s, table !! Z.to_nat x = Some s) as Hlookup.
  { intros x Hx. apply lookup_lt_is_Some. lia. }
  destruct Hbounds as (Hba & Hbb & Hbc & Hbd).
  destruct (Hlookup a Hba) as [sa Hsa], (Hlookup b Hbb) as [sb Hsb],
    (Hlookup c Hbc) as [sc Hsc], (Hlookup d Hbd) as [sd Hsd].
  exists a, b, c, d, sa, sb, sc, sd.
  split; [done|]. split; [done|]. split; [done|].
  unfold writeIPv4Text. fold a b c d. rewrite Hsa, Hsb, Hsc, Hsd.
  cbn [mbind option_bind]. by rewrite !append_assoc.
Qed.

End WriteHelpersProperties.

(** * The properties at sample values *)

Example three_batches :
  ∃ w,
    write_all sample_collaborators sample_batches sample_world = (Ok tt, w) ∧
    rows_count (stream w) = 150%N ∧
    trace w = [WriterWrite (sample_block 100) None;
               WriterWrite (sample_block 50) (Some [1%N; 0%N])].
Proof. by eexists. Qed.

(** The counter is a [size_t]: it would wrap after 2^64 rows. *)
Example row_counter_is_a_size_t :
  ∃ w,
    write_all sample_collaborators
      [(sample_block (2 ^ 63), None); (sample_block (2 ^ 63), None)]
      sample_world = (Ok tt, w) ∧
    rows_count (stream w) = 0%N.
Proof. by eexists. Qed.

Example forced_bounds_can_be_narrower :
  let part := DataPart.set_ttl_infos sample_ttl_infos sample_part in
  let after :=
    TTLCalcTransform_life (sample_evaluate true) sample_metadata 0 true
      [sample_block 2] part in
  table_ttl (DataPart.ttl_infos part) = Bounds 10 100 ∧
  table_ttl (DataPart.ttl_infos after) = Bounds 60 61 ∧
  moves_ttl (DataPart.ttl_infos after) !! "dropped rule" = None.
Proof. by vm_compute. Qed.

Lemma handle_is_single_use_witness :
  finalizePartAsync sample_collaborators true None None None sample_world
  = (Ok sample_handle, sample_finalized) ∧
  ∃ i,
    impl sample_handle = Some i ∧
    (∀ c, impl (call_handle c sample_handle).1 = None) ∧
    ∀ w, Finalizer_life [] sample_handle w = Impl_cancel i w.
Proof.
  assert (finalizePartAsync sample_collaborators true None None None sample_world
          = (Ok sample_handle, sample_finalized)) as Hrun
    by (vm_compute; reflexivity).
  split; [exact Hrun|].
  destruct (handle_is_single_use sample_collaborators true None None None
              sample_world sample_handle sample_finalized Hrun)
    as (i & Himpl & Hconsumed & _ & Hlife).
  exists i. split; [exact Himpl|]. split; [exact Hconsumed|].
  intros w. destruct (Hlife w) as (_ & _ & Hdestroyed & _). exact Hdestroyed.
Defined.


(** A part with zero rows, a partition value and a min-max index that was
    never initialized is finalized without exception, and no min-max file
    is among the files written. *)
Lemma empty_part_without_minmax_index_is_accepted :
  let w := sample_world_without_minmax in
  let run := finalizePartOnDisk sample_collaborators ∅ None w in
  rows_count (stream w) = 0%N ∧
  DataPart.isProjectionPart (new_part w) = false ∧
  (MERGE_TREE_DATA_MIN_FORMAT_VERSION_WITH_CUSTOM_PARTITIONING sample_collaborators
   ≤ DataPart.storage_format_version (new_part w)) ∧
  DataPart.partition (new_part w) = Some "2024" ∧
  initialized (DataPart.minmax_idx (new_part w)) = false ∧
  (∀ e, run.1 ≠ Throw e) ∧
  map wf_name (returned (∅, []) run.1).2
  = ["partition.dat"; "count.txt"; "columns.txt"; "metadata_version.txt";
     "default_compression_codec.txt"; "checksums.txt"].
Proof.
  cbv zeta.
  split; [reflexivity|]. split; [reflexivity|]. split; [by vm_compute|].
  split; [reflexivity|]. split; [reflexivity|].
  assert (map wf_name
            (returned (∅, [])
               (finalizePartOnDisk sample_collaborators ∅ None
                  sample_world_without_minmax).1).2
          = ["partition.dat"; "count.txt"; "columns.txt"; "metadata_version.txt";
             "default_compression_codec.txt"; "checksums.txt"]) as Hnames
    by (vm_compute; reflexivity).
  split; [|exact Hnames].
  intros e He. rewrite He in Hnames. discriminate Hnames.
Qed.

Lemma empty_part_needs_no_minmax_index_witness :
  let w := sample_world_without_minmax in
  let run := finalizePartOnDisk sample_collaborators ∅ None w in
  rows_count (stream w) = 0%N ∧
  initialized (DataPart.minmax_idx (new_part w)) = false ∧
  (∀ codec, default_codec (stream w) = Some codec → ∃ l, run.1 = Ok l) ∧
  (∀ e, run.1 = Throw e →
     default_codec (stream w) = None ∧ e = codec_exception (new_part w)) ∧
  ∃ events,
    trace run.2 = trace w ++ events ∧
    ∀ column content, WriteFile (minmax_file_name column) content ∉ events.
Proof.
  cbv zeta. split; [reflexivity|]. split; [reflexivity|].
  exact (empty_part_needs_no_minmax_index sample_collaborators ∅ None
           sample_world_without_minmax eq_refl eq_refl).
Defined.

Lemma finish_removes_after_finalizing_witness :
  ∃ events,
    Impl_finish sample_impl sample_world
    = (Ok tt, add_events events sample_world) ∧
    (RemoveFile "x.bin" ∈ events
     ↔ "x.bin" ∈ files_to_remove_after_finish sample_impl) ∧
    (files_to_remove_after_finish sample_impl ≠ ∅ ↔
     ∃ before,
       events =
         before ++ [CommitTransaction; BeginTransaction]
           ++ map RemoveFile (elements (files_to_remove_after_finish sample_impl)) ∧
       ∀ e, e ∈ before →
         e ≠ CommitTransaction ∧ e ≠ BeginTransaction ∧
         ∀ n, e ≠ RemoveFile n).
Proof.
  destruct (finish_removes_after_finalizing sample_impl sample_world)
    as (events & Hrun & Hremoved & _ & Hsplit & _).
  exists events. split; [exact Hrun|]. split; [apply Hremoved|exact Hsplit].
Defined.

Lemma minmax_index_is_checked_witness :
  let w := sample_world in
  let run := finalizePartOnDisk sample_collaborators ∅ None w in
  DataPart.isProjectionPart (new_part w) = false ∧
  (MERGE_TREE_DATA_MIN_FORMAT_VERSION_WITH_CUSTOM_PARTITIONING sample_collaborators
   ≤ DataPart.storage_format_version (new_part w)) ∧
  initialized (DataPart.minmax_idx (new_part w)) = true ∧
  ("d", "2024-01-01..2024-01-31")
  ∈ hyperrectangle (DataPart.minmax_idx (new_part w)) ∧
  ∃ events,
    trace run.2 = trace w ++ events ∧
    WriteFile (minmax_file_name "d") (MinMaxValues "2024-01-01..2024-01-31")
    ∈ events.
Proof.
  cbv zeta. split; [reflexivity|]. split; [by vm_compute|].
  split; [reflexivity|]. split; [left|].
  assert (DataPart.isProjectionPart (new_part sample_world) = false) as Hproj
    by reflexivity.
  assert (MERGE_TREE_DATA_MIN_FORMAT_VERSION_WITH_CUSTOM_PARTITIONING
            sample_collaborators
          ≤ DataPart.storage_format_version (new_part sample_world)) as Hversion
    by (by vm_compute).
  destruct (minmax_index_is_checked sample_collaborators ∅ None sample_world
              Hproj Hversion) as [_ Hwritten].
  apply (Hwritten eq_refl "d" "2024-01-01..2024-01-31"). left.
Defined.

(** A part with 150 rows whose min-max index was never initialized, and a
    stream that was given the codec LZ4: the min-max check throws, and the
    codec file has not been written. *)
Lemma codec_file_is_not_always_written :
  let w := sample_written_without_minmax in
  let run := finalizePartOnDisk sample_collaborators ∅ None w in
  default_codec (stream w) = Some "LZ4" ∧
  rows_count (stream w) = 150%N ∧
  DataPart.isProjectionPart (new_part w) = false ∧
  initialized (DataPart.minmax_idx (new_part w)) = false ∧
  run.1 = Throw (minmax_exception (new_part w)) ∧
  (∀ content,
     WriteFile DEFAULT_COMPRESSION_CODEC_FILE_NAME content ∉ trace run.2) ∧
  trace run.2
  = [WriterWrite (sample_block 100) None;
     WriterWrite (sample_block 50) (Some [1%N; 0%N]);
     WriteFile "partition.dat" (PartitionValue "2024");
     FilePreFinalize "partition.dat"].
Proof.
  cbv zeta.
  assert (trace (finalizePartOnDisk sample_collaborators ∅ None
                   sample_written_without_minmax).2
          = [WriterWrite (sample_block 100) None;
             WriterWrite (sample_block 50) (Some [1%N; 0%N]);
             WriteFile "partition.dat" (PartitionValue "2024");
             FilePreFinalize "partition.dat"]) as Htrace
    by (vm_compute; reflexivity).
  split; [reflexivity|]. split; [reflexivity|]. split; [reflexivity|].
  split; [reflexivity|]. split; [by vm_compute|]. split; [|exact Htrace].
  intros content Hin. rewrite Htrace in Hin.
  repeat (apply elem_of_cons in Hin as [Hin|Hin]; [discriminate Hin|]).
  by apply elem_of_nil in Hin.
Qed.

Lemma codec_is_mandatory_witness :
  let w := sample_world in
  let run := finalizePartOnDisk sample_collaborators ∅ None w in
  default_codec (stream w) = Some "LZ4" ∧
  match run.1 with
  | Ok l =>
      mkWrittenFile DEFAULT_COMPRESSION_CODEC_FILE_NAME (CodecDescText "LZ4")
      ∈ l.2 ∧
      ∃ events,
        trace run.2
        = trace w ++ events
          ++ [WriteFile DEFAULT_COMPRESSION_CODEC_FILE_NAME (CodecDescText "LZ4");
              FilePreFinalize DEFAULT_COMPRESSION_CODEC_FILE_NAME;
              WriteFile "checksums.txt" (ChecksumsText l.1);
              FilePreFinalize "checksums.txt"]
  | Throw e =>
      e = minmax_exception (new_part w) ∧
      rows_count (stream w) ≠ 0%N ∧
      initialized (DataPart.minmax_idx (new_part w)) = false ∧
      ∃ events,
        trace run.2 = trace w ++ events ∧
        ∀ content,
          WriteFile DEFAULT_COMPRESSION_CODEC_FILE_NAME content ∉ events
  end.
Proof.
  cbv zeta. split; [reflexivity|].
  destruct (codec_is_mandatory sample_collaborators ∅ None sample_world)
    as [_ Hgiven].
  apply (Hgiven "LZ4" eq_refl).
Defined.

(** Checksums that name [checksums.txt] are handed in: the run returns, the
    key is in the checksums it records, and these are what the checksums
    file, written last, holds.  [finalizePartAsync] hands such checksums on
    when the additional checksums it is given have the key. *)
Lemma handed_in_checksums_key_is_kept :
  let run :=
    finalizePartOnDisk sample_collaborators sample_checksums_naming_themselves
      None sample_world in
  let l := returned (∅, []) run.1 in
  (∀ e, run.1 ≠ Throw e) ∧
  l.1 !! "checksums.txt" = Some (mkChecksum 1 2) ∧
  "checksums.txt" ∈ dom l.1 ∧
  last l.2 = Some (mkWrittenFile "checksums.txt" (ChecksumsText l.1)) ∧
  DataPart.checksums
    (finalizePartAsync sample_collaborators true None
       (Some sample_checksums_naming_themselves) None sample_world).2.(new_part)
    !! "checksums.txt"
  = Some (mkChecksum 1 2).
Proof.
  cbv zeta.
  assert ((returned (∅, [])
             (finalizePartOnDisk sample_collaborators
                sample_checksums_naming_themselves None sample_world).1).1
            !! "checksums.txt"
          = Some (mkChecksum 1 2)) as Hkey
    by (vm_compute; reflexivity).
  split; [|split; [exact Hkey|split; [|split]]].
  - intros e He. rewrite He in Hkey. discriminate Hkey.
  - apply elem_of_dom. by eexists.
  - vm_compute. reflexivity.
  - vm_compute. reflexivity.
Qed.

Lemma checksums_file_is_written_last_witness :
  finalizePartOnDisk sample_collaborators ∅ None sample_world
  = (Ok sample_on_disk, sample_after_disk) ∧
  (∃ others,
     sample_on_disk.2
     = others ++ [mkWrittenFile "checksums.txt" (ChecksumsText sample_on_disk.1)] ∧
     ∀ file, file ∈ others → wf_name file ≠ "checksums.txt") ∧
  sample_on_disk.1 !! "checksums.txt" = (∅ : Checksums) !! "checksums.txt" ∧
  ("checksums.txt" ∈ dom sample_on_disk.1
   ↔ "checksums.txt" ∈ dom (∅ : Checksums)).
Proof.
  assert (finalizePartOnDisk sample_collaborators ∅ None sample_world
          = (Ok sample_on_disk, sample_after_disk)) as Hrun
    by (vm_compute; reflexivity).
  split; [exact Hrun|].
  destruct (checksums_file_is_written_last sample_collaborators ∅ None
              sample_world sample_on_disk sample_after_disk Hrun)
    as (Hlast & _ & Hlookup & Hkey).
  split; [exact Hlast|]. split; [exact Hlookup|exact Hkey].
Defined.

Lemma ttl_bounds_are_seeded_unless_forced_witness :
  let part := DataPart.set_ttl_infos sample_ttl_infos sample_part in
  (∀ description chunk row,
     chunk ∈ [sample_block 2; sample_block 0] →
     row ∈ sample_evaluate false description chunk → row.2 = false) ∧
  TTLInfos_at MOVES_TTL "toDate(d) + 30"
    (DataPart.ttl_infos
       (TTLCalcTransform_life (sample_evaluate false) sample_metadata 0 false
          [sample_block 2; sample_block 0] part))
  = Bounds 40 50.
Proof.
  cbv zeta.
  assert (∀ description chunk row,
            chunk ∈ [sample_block 2; sample_block 0] →
            row ∈ sample_evaluate false description chunk → row.2 = false)
    as Hnone.
  { intros description chunk row _ Hrow. unfold sample_evaluate in Hrow.
    by apply elem_of_map in Hrow as (n & -> & _). }
  split; [exact Hnone|].
  destruct (ttl_bounds_are_seeded_unless_forced (sample_evaluate false)
              sample_metadata 0 [sample_block 2; sample_block 0]
              (DataPart.set_ttl_infos sample_ttl_infos sample_part))
    as (_ & Hkept & _).
  apply (Hkept Hnone
           (TTLUpdateInfoAlgorithm_new (mkTTLDescription "toDate(d) + 30")
              MOVES_TTL "toDate(d) + 30" (Bounds 40 50) 0 false)).
  vm_compute. right. right. left.
Defined.


Lemma serialization_infos_follow_reset_columns_witness :
  write_all sample_collaborators sample_batches sample_world
  = (Ok tt, sample_written) ∧
  reset_columns (stream sample_written) = false ∧
  new_serialization_infos (stream sample_written) = ∅.
Proof.
  assert (write_all sample_collaborators sample_batches sample_world
          = (Ok tt, sample_written)) as Hwrite
    by (vm_compute; reflexivity).
  split; [exact Hwrite|].
  exact (serialization_infos_follow_reset_columns sample_collaborators
           sample_batches sample_world sample_written Hwrite).
Defined.


Lemma projection_part_starts_with_the_count_witness :
  let w := sample_projection_world in
  let run := finalizePartOnDisk sample_collaborators ∅ None w in
  DataPart.isProjectionPart (new_part w) = true ∧
  ∃ files,
    trace run.2
    = trace w
      ++ flat_map opening_events
           (mkWrittenFile "count.txt" (IntText (Z.of_N (rows_count (stream w))))
              :: files) ∧
    ∀ file, file ∈ files → ¬ leading_name (wf_name file).
Proof.
  cbv zeta. split; [reflexivity|].
  destruct (projection_part_starts_with_the_count sample_collaborators ∅ None
              sample_projection_world eq_refl) as [_ Hfiles].
  exact Hfiles.
Defined.

Lemma old_format_has_no_partition_files_witness :
  let w := sample_old_format_world in
  let run := finalizePartOnDisk sample_collaborators ∅ None w in
  DataPart.storage_format_version (new_part w)
  < MERGE_TREE_DATA_MIN_FORMAT_VERSION_WITH_CUSTOM_PARTITIONING
      sample_collaborators ∧
  ∀ e, run.1 = Throw e →
    default_codec (stream w) = None ∧ e = codec_exception (new_part w).
Proof.
  cbv zeta.
  assert (DataPart.storage_format_version (new_part sample_old_format_world)
          < MERGE_TREE_DATA_MIN_FORMAT_VERSION_WITH_CUSTOM_PARTITIONING
              sample_collaborators) as Hversion
    by (by vm_compute).
  split; [exact Hversion|].
  destruct (old_format_has_no_partition_files sample_collaborators ∅ None
              sample_old_format_world Hversion) as [Hthrow _].
  exact Hthrow.
Defined.

Lemma only_hashed_files_get_checksums_witness :
  finalizePartOnDisk sample_collaborators ∅ None sample_world
  = (Ok sample_on_disk, sample_after_disk) ∧
  ∀ key, key ∈ plain_names → sample_on_disk.1 !! key = (∅ : Checksums) !! key.
Proof.
  assert (finalizePartOnDisk sample_collaborators ∅ None sample_world
          = (Ok sample_on_disk, sample_after_disk)) as Hrun
    by (vm_compute; reflexivity).
  split; [exact Hrun|].
  destruct (only_hashed_files_get_checksums sample_collaborators ∅ None
              sample_world sample_on_disk sample_after_disk Hrun)
    as (_ & Hplain & _).
  exact Hplain.
Defined.

Lemma no_file_is_written_twice_witness :
  finalizePartOnDisk sample_collaborators ∅ None sample_world
  = (Ok sample_on_disk, sample_after_disk) ∧
  NoDup (map fst (hyperrectangle (DataPart.minmax_idx (new_part sample_world)))) ∧
  NoDup (map wf_name sample_on_disk.2).
Proof.
  assert (finalizePartOnDisk sample_collaborators ∅ None sample_world
          = (Ok sample_on_disk, sample_after_disk)) as Hrun
    by (vm_compute; reflexivity).
  assert (NoDup (map fst (hyperrectangle
                            (DataPart.minmax_idx (new_part sample_world)))))
    as Hnodup
    by (apply NoDup_singleton).
  split; [exact Hrun|]. split; [exact Hnodup|].
  exact (no_file_is_written_twice sample_collaborators ∅ None sample_world
           sample_on_disk sample_after_disk Hrun Hnodup).
Defined.


Lemma every_opened_file_is_in_the_handle_witness :
  finalizePartAsync sample_collaborators true None None None sample_world
  = (Ok sample_handle, sample_finalized) ∧
  ∃ i,
    impl sample_handle = Some i ∧
    trace sample_finalized
    = trace sample_world
      ++ WriterFillChecksums
         :: flat_map opening_events (written_files i)
      ++ [WriterReleaseIndexColumns].
Proof.
  assert (finalizePartAsync sample_collaborators true None None None sample_world
          = (Ok sample_handle, sample_finalized)) as Hrun
    by (vm_compute; reflexivity).
  split; [exact Hrun|].
  exact (every_opened_file_is_in_the_handle sample_collaborators true None None
           None sample_world sample_handle sample_finalized Hrun).
Defined.

Lemma part_holds_the_written_checksums_witness :
  finalizePartAsync sample_collaborators true None None None sample_world
  = (Ok sample_handle, sample_finalized) ∧
  DataPart.bytes_on_disk (new_part sample_finalized)
  = getTotalSizeOnDisk sample_collaborators
      (DataPart.checksums (new_part sample_finalized)).
Proof.
  assert (finalizePartAsync sample_collaborators true None None None sample_world
          = (Ok sample_handle, sample_finalized)) as Hrun
    by (vm_compute; reflexivity).
  split; [exact Hrun|].
  destruct (part_holds_the_written_checksums sample_collaborators true None
              None None sample_world sample_handle sample_finalized Hrun)
    as (i & others & _ & _ & Hbytes & _).
  exact Hbytes.
Defined.

Lemma written_files_describe_the_part_witness :
  finalizePartAsync sample_collaborators true None None None sample_world
  = (Ok sample_handle, sample_finalized) ∧
  ∃ i,
    impl sample_handle = Some i ∧
    mkWrittenFile "columns.txt"
      (NamesAndTypesText (DataPart.columns (new_part sample_finalized)))
    ∈ written_files i.
Proof.
  assert (finalizePartAsync sample_collaborators true None None None sample_world
          = (Ok sample_handle, sample_finalized)) as Hrun
    by (vm_compute; reflexivity).
  split; [exact Hrun|].
  destruct (written_files_describe_the_part sample_collaborators true None
              None None sample_world sample_handle sample_finalized Hrun)
    as (i & Himpl & Hcolumns & _).
  exists i. split; [exact Himpl|exact Hcolumns].
Defined.

Lemma existing_rows_count_is_kept_or_set_witness :
  finalizePartAsync sample_collaborators true None None None sample_world
  = (Ok sample_handle, sample_finalized) ∧
  DataPart.existing_rows_count (new_part sample_world) = None ∧
  DataPart.existing_rows_count (new_part sample_finalized)
  = Some (rows_count (stream sample_world)).
Proof.
  assert (finalizePartAsync sample_collaborators true None None None sample_world
          = (Ok sample_handle, sample_finalized)) as Hrun
    by (vm_compute; reflexivity).
  split; [exact Hrun|]. split; [reflexivity|].
  exact (existing_rows_count_is_kept_or_set sample_collaborators true None
           None None sample_world sample_handle sample_finalized Hrun).
Defined.

Lemma part_takes_the_codec_of_the_stream_witness :
  finalizePartAsync sample_collaborators true None None None sample_world
  = (Ok sample_handle, sample_finalized) ∧
  ∃ codec,
    default_codec (stream sample_world) = Some codec ∧
    DataPart.default_codec (new_part sample_finalized) = Some codec.
Proof.
  assert (finalizePartAsync sample_collaborators true None None None sample_world
          = (Ok sample_handle, sample_finalized)) as Hrun
    by (vm_compute; reflexivity).
  split; [exact Hrun|].
  destruct (part_takes_the_codec_of_the_stream sample_collaborators true None
              None None sample_world sample_handle sample_finalized Hrun)
    as (codec & Hstream & Hpart & _).
  exists codec. split; [exact Hstream|exact Hpart].
Defined.


Lemma files_are_removed_only_when_columns_are_reset_witness :
  finalizePartAsync sample_collaborators true None None None sample_world
  = (Ok sample_handle, sample_finalized) ∧
  reset_columns (stream sample_world) = false ∧
  ∃ i,
    impl sample_handle = Some i ∧ files_to_remove_after_finish i = ∅.
Proof.
  assert (finalizePartAsync sample_collaborators true None None None sample_world
          = (Ok sample_handle, sample_finalized)) as Hrun
    by (vm_compute; reflexivity).
  split; [exact Hrun|]. split; [reflexivity|].
  destruct (files_are_removed_only_when_columns_are_reset sample_collaborators
              true None None None sample_world sample_handle sample_finalized
              Hrun eq_refl)
    as (i & Himpl & Hnone & _).
  exists i. split; [exact Himpl|exact Hnone].
Defined.

Lemma projections_are_recorded_witness :
  finalizePartAsync sample_collaborators_removing false None
    (Some sample_additional_checksums) None sample_world_with_projections
  = (Ok sample_handle_with_projections, sample_finalized_with_projections) ∧
  reset_columns (stream sample_world_with_projections) = false ∧
  NoDup (map fst (DataPart.projection_parts
                    (new_part sample_world_with_projections))) ∧
  ("by_x", {["x.bin" := mkChecksum 10 1]} : Checksums)
  ∈ DataPart.projection_parts (new_part sample_world_with_projections) ∧
  DataPart.checksums (new_part sample_finalized_with_projections)
    !! "by_x.proj"
  = Some (mkChecksum 108 7).
Proof.
  assert (finalizePartAsync sample_collaborators_removing false None
            (Some sample_additional_checksums) None
            sample_world_with_projections
          = (Ok sample_handle_with_projections,
             sample_finalized_with_projections)) as Hrun
    by (vm_compute; reflexivity).
  assert (NoDup (map fst (DataPart.projection_parts
                            (new_part sample_world_with_projections))))
    as Hnodup
    by (apply (bool_decide_unpack _); by vm_compute).
  assert (("by_x", {["x.bin" := mkChecksum 10 1]} : Checksums)
          ∈ DataPart.projection_parts (new_part sample_world_with_projections))
    as Hin by left.
  split; [exact Hrun|]. split; [reflexivity|]. split; [exact Hnodup|].
  split; [exact Hin|].
  exact (projections_are_recorded sample_collaborators_removing false None
           (Some sample_additional_checksums) None
           sample_world_with_projections sample_handle_with_projections
           sample_finalized_with_projections "by_x" _ Hrun eq_refl Hnodup Hin).
Defined.

Lemma removed_checksums_are_not_recorded_witness :
  finalizePartAsync sample_collaborators_removing false None
    (Some sample_additional_checksums) None sample_world_with_projections
  = (Ok sample_handle_with_projections, sample_finalized_with_projections) ∧
  sample_additional_checksums !! "old.bin" = Some (mkChecksum 5 5) ∧
  "old.bin"
  ∈ (fillChecksums sample_collaborators_removing
       (trace sample_world_with_projections)
       (default ∅ (Some sample_additional_checksums))).2 ∧
  DataPart.checksums (new_part sample_finalized_with_projections) !! "old.bin"
  = None.
Proof.
  assert (finalizePartAsync sample_collaborators_removing false None
            (Some sample_additional_checksums) None
            sample_world_with_projections
          = (Ok sample_handle_with_projections,
             sample_finalized_with_projections)) as Hrun
    by (vm_compute; reflexivity).
  assert ("old.bin"
          ∈ (fillChecksums sample_collaborators_removing
               (trace sample_world_with_projections)
               (default ∅ (Some sample_additional_checksums))).2) as Hremoved
    by (by apply elem_of_singleton).
  assert (∀ projection,
            projection
            ∈ DataPart.projection_parts (new_part sample_world_with_projections) →
            projection.1 +:+ ".proj" ≠ "old.bin") as Hprojections.
  { intros projection Hin Hname.
    assert (projection.1 ∈ ["by_x"; "by_y"]) as Hprojection.
    { change ["by_x"; "by_y"]
        with (map fst (DataPart.projection_parts
                         (new_part sample_world_with_projections))).
      apply elem_of_map. exists projection. split; [reflexivity|exact Hin]. }
    repeat (apply elem_of_cons in Hprojection as [Hprojection|Hprojection];
            [rewrite Hprojection in Hname; vm_compute in Hname;
             discriminate Hname|]).
    apply elem_of_nil in Hprojection. destruct Hprojection. }
  assert (map wf_name
            (default [] (written_files <$> impl sample_handle_with_projections))
          = ["partition.dat"; "minmax_d.idx"; "count.txt"; "columns.txt";
             "metadata_version.txt"; "default_compression_codec.txt";
             "checksums.txt"]) as Hnames
    by (vm_compute; reflexivity).
  assert (∀ i file,
            impl sample_handle_with_projections = Some i →
            file ∈ written_files i → wf_name file ≠ "old.bin") as Hwritten.
  { intros i file Himpl Hin Hname. rewrite Himpl in Hnames. cbn in Hnames.
    assert ("old.bin" ∈ map wf_name (written_files i)) as Hold.
    { rewrite <- Hname. apply elem_of_map. exists file.
      split; [reflexivity|exact Hin]. }
    rewrite Hnames in Hold.
    repeat (apply elem_of_cons in Hold as [Hold|Hold]; [discriminate Hold|]).
    apply elem_of_nil in Hold. destruct Hold. }
  split; [exact Hrun|]. split; [reflexivity|]. split; [exact Hremoved|].
  exact (removed_checksums_are_not_recorded sample_collaborators_removing false
           None (Some sample_additional_checksums) None
           sample_world_with_projections sample_handle_with_projections
           sample_finalized_with_projections "old.bin" Hrun eq_refl Hremoved
           Hprojections Hwritten).
Defined.

Lemma sample_writeHexByteLowercase_inj :
  Inj (=) (=) sample_writeHexByteLowercase.
Proof.
  set (value := λ c : ascii,
         let n := N_of_ascii c in
         if (n <? 58)%N then (n - 48)%N else (n - 87)%N).
  set (byte_of := λ digits : ascii * ascii,
         Byte.of_N (value digits.1 * 16 + value digits.2)).
  assert (∀ byte, byte_of (sample_writeHexByteLowercase byte) = Some byte)
    as Hback by (intros []; vm_compute; reflexivity).
  intros a b Heq. apply (f_equal byte_of) in Heq.
  rewrite !Hback in Heq. by injection Heq.
Qed.

Lemma formatUUID_fills_the_array_witness :
  length sample_uuid = 16%nat ∧
  formatUUID sample_writeHexByteLowercase true sample_uuid
  = Some (map Some
            (Strings.String.list_ascii_of_string
               "61504b70-733d-454c-b23a-2fde403217f0")).
Proof.
  split; [reflexivity|].
  destruct (formatUUID_fills_the_array sample_writeHexByteLowercase true
              sample_uuid eq_refl) as [-> _].
  vm_compute. reflexivity.
Defined.

Lemma formatUUID_is_injective_witness :
  Inj (=) (=) sample_writeHexByteLowercase ∧
  length sample_uuid = 16%nat ∧
  ∀ v, length v = 16%nat →
    formatUUID sample_writeHexByteLowercase true sample_uuid
    = formatUUID sample_writeHexByteLowercase true v →
    sample_uuid = v.
Proof.
  split; [exact sample_writeHexByteLowercase_inj|]. split; [reflexivity|].
  intros v Hlength.
  exact (formatUUID_is_injective sample_writeHexByteLowercase true sample_uuid
           v sample_writeHexByteLowercase_inj eq_refl Hlength).
Defined.

Lemma writeIPv4Text_prints_the_four_octets_witness :
  0 ≤ 3232235777 < 2 ^ 32 ∧
  length sample_one_byte_to_string_lookup_table = 256%nat ∧
  ∃ a b c d sa sb sc sd,
    3232235777 = a * 2 ^ 24 + b * 2 ^ 16 + c * 2 ^ 8 + d ∧
    (0 ≤ a < 256 ∧ 0 ≤ b < 256 ∧ 0 ≤ c < 256 ∧ 0 ≤ d < 256) ∧
    (sample_one_byte_to_string_lookup_table !! Z.to_nat a = Some sa ∧
     sample_one_byte_to_string_lookup_table !! Z.to_nat b = Some sb ∧
     sample_one_byte_to_string_lookup_table !! Z.to_nat c = Some sc ∧
     sample_one_byte_to_string_lookup_table !! Z.to_nat d = Some sd) ∧
    writeIPv4Text sample_one_byte_to_string_lookup_table 3232235777 ""
    = Some ("" +:+ sa +:+ "." +:+ sb +:+ "." +:+ sc +:+ "." +:+ sd).
Proof.
  assert (0 ≤ 3232235777 < 2 ^ 32) as Hip by lia.
  assert (length sample_one_byte_to_string_lookup_table = 256%nat) as Htable
    by (vm_compute; reflexivity).
  split; [exact Hip|]. split; [exact Htable|].
  exact (writeIPv4Text_prints_the_four_octets
           sample_one_byte_to_string_lookup_table 3232235777 "" Hip Htable).
Defined.

(** 192.168.1.1 *)
Example writeIPv4Text_of_a_private_address :
  writeIPv4Text sample_one_byte_to_string_lookup_table 3232235777 ""
  = Some "192.168.1.1".
Proof. vm_compute. reflexivity. Qed.

Lemma finalizing_again_changes_nothing_witness :
  let algorithms :=
    TTLCalcTransform_new sample_metadata
      (DataPart.set_ttl_infos sample_ttl_infos sample_part) 0 false in
  let finalized :=
    @TTLCalcTransform_finalize _
      (TTLUpdateInfoAlgorithm_ITTLAlgorithm (sample_evaluate true))
      algorithms sample_part in
  @prepare_all _ (TTLUpdateInfoAlgorithm_ITTLAlgorithm (sample_evaluate true))
    _ _ sample_Finished [sample_NeedData; sample_Finished; sample_Finished]
    algorithms sample_part
  = finalized.
Proof.
  cbv zeta.
  rewrite (@finalizing_again_changes_nothing _
             (TTLUpdateInfoAlgorithm_ITTLAlgorithm (sample_evaluate true))).
  - reflexivity.
  - intros a p. cbn [finalize TTLUpdateInfoAlgorithm_ITTLAlgorithm].
    unfold TTLUpdateInfoAlgorithm_finalize.
    rewrite ttl_infos_set. by destruct (ttl_update_field a).
  - intros a p q Heq. cbn [finalize TTLUpdateInfoAlgorithm_ITTLAlgorithm].
    unfold TTLUpdateInfoAlgorithm_finalize. rewrite !ttl_infos_set.
    by rewrite Heq.
Defined.
